(** * meshviewer.py: a shallow embedding and its checked properties

    The development follows the layout of [meshviewer.py]:
    - [Py]: the few pieces of Python semantics the program relies on
      (exceptions, list indexing with negative indices, [min] and [max]);
    - [Mesh], [Model]: the geometry classes; the bounding-box rows are
      mutable Python lists and live in a store, so that aliasing is visible;
    - [Pathlib]: the part of [pathlib.PurePosixPath] the controller uses;
    - [Controller]: the handler table, the reload mailbox with its lock, the
      poll loop and the file handlers. *)

From stdpp Require Import gmap strings list fin_maps fin_sets.
From Stdlib Require Import ZArith Lia Ascii.

Local Open Scope Z_scope.

(** ** Python semantics used by the program *)

Module Py.

(** The exceptions that the modelled code can raise. *)
Inductive exn : Type :=
| IndexError
| ValueError
| KeyError
| FileNotFoundError
| TypeError
| RuntimeError
| ReadError.

#[global] Instance exn_eq_dec : EqDecision exn.
Proof. solve_decision. Defined.

(** The result of a call: a value, a raised exception, or no return at
    all because the calling thread waits on a lock that is held. *)
Inductive outcome (A : Type) : Type :=
| Ok (a : A)
| Raise (e : exn)
| Wait.
Arguments Ok {A} a.
Arguments Raise {A} e.
Arguments Wait {A}.

#[global] Instance outcome_ret : MRet outcome := @Ok.
#[global] Instance outcome_bind : MBind outcome := λ A B f m,
  match m with
  | Ok a => f a
  | Raise e => Raise e
  | Wait => Wait
  end.
#[global] Instance outcome_fmap : FMap outcome := λ A B f m,
  match m with
  | Ok a => Ok (f a)
  | Raise e => Raise e
  | Wait => Wait
  end.

(** [l[i]] on a Python sequence: indices in [-len, len) are accepted,
    negative ones count from the end, anything else is an [IndexError]. *)
Definition index {A} (l : list A) (i : Z) : outcome A :=
  let n := Z.of_nat (length l) in
  let k := if decide (0 ≤ i) then i else n + i in
  if decide (0 ≤ k < n) then
    match l !! Z.to_nat k with
    | Some x => Ok x
    | None => Raise IndexError
    end
  else Raise IndexError.

(** [l[i] = x]: same index rule as reading. *)
Definition setitem {A} (l : list A) (i : Z) (x : A) : outcome (list A) :=
  let n := Z.of_nat (length l) in
  let k := if decide (0 ≤ i) then i else n + i in
  if decide (0 ≤ k < n) then Ok (<[Z.to_nat k := x]> l) else Raise IndexError.

(** [l[1:]] *)
Definition slice_from_1 {A} (l : list A) : list A := drop 1 l.

(** [range(n)] as a list of indices. *)
Definition range (n : nat) : list Z := Z.of_nat <$> seq 0 n.

Section MinMax.
Context {A : Type} (lt : A → A → bool).

(** [min(xs)]: the first item is the candidate; a later item replaces it
    when [item < candidate].  An empty argument is a [ValueError]. *)
Definition min (xs : list A) : outcome A :=
  match xs with
  | [] => Raise ValueError
  | x :: r => Ok (fold_left (λ best y, if lt y best then y else best) r x)
  end.

(** [max(xs)]: a later item replaces the candidate when
    [item > candidate], that is when [candidate < item]. *)
Definition max (xs : list A) : outcome A :=
  match xs with
  | [] => Raise ValueError
  | x :: r => Ok (fold_left (λ best y, if lt best y then y else best) r x)
  end.
End MinMax.

(** Stateful code: a computation takes the current state and returns a
    value or a raised exception together with the state reached.  An
    exception keeps the state as it was when raised: nothing is rolled
    back, and the rest of the function body is skipped. *)
Definition M (S A : Type) : Type := S → outcome A * S.

#[global] Instance M_ret {S} : MRet (M S) := λ A a s, (Ok a, s).
#[global] Instance M_bind {S} : MBind (M S) := λ A B f m s,
  match m s with
  | (Ok a, s1) => f a s1
  | (Raise e, s1) => (Raise e, s1)
  | (Wait, s1) => (Wait, s1)
  end.

Definition gets {S A} (f : S → A) : M S A := λ s, (Ok (f s), s).
Definition modify {S} (f : S → S) : M S unit := λ s, (Ok tt, f s).
Definition lift {S A} (m : outcome A) : M S A := λ s, (m, s).

(** [try: m except e: h] *)
Definition try_except {S A} (m : M S A) (e : exn) (h : M S A) : M S A := λ s,
  match m s with
  | (Raise e', s1) => if decide (e' = e) then h s1 else (Raise e', s1)
  | r => r
  end.

(** [for x in xs: body(x)] *)
Fixpoint for_each {S A} (xs : list A) (body : A → M S unit) : M S unit :=
  match xs with
  | [] => mret tt
  | x :: rest => _ ← body x; for_each rest body
  end.

End Py.

Import Py.

(** ** The row store

    [bbox.append([min(x_i), max(x_i)])] creates one mutable two-element list
    per axis.  [Model.get_bounding_box] later binds a second name to the
    rows of the first mesh, so rows are kept in a store and named by
    location. *)

Definition loc := nat.

Record Store (coord : Type) : Type := mkStore {
  cells : gmap loc (list coord);
  next_loc : loc
}.
Arguments mkStore {coord} cells next_loc.
Arguments cells {coord} s.
Arguments next_loc {coord} s.

Definition empty_store {coord} : Store coord := mkStore ∅ 0%nat.

(** Allocation of a fresh list object. *)
Definition alloc {coord} (row : list coord) (st : Store coord) : loc * Store coord :=
  (next_loc st, mkStore (<[next_loc st := row]> (cells st)) (S (next_loc st))).

Fixpoint alloc_all {coord} (rows : list (list coord)) (st : Store coord)
  : list loc * Store coord :=
  match rows with
  | [] => ([], st)
  | row :: rest =>
      let '(l, st1) := alloc row st in
      let '(ls, st2) := alloc_all rest st1 in
      (l :: ls, st2)
  end.

(** Dereference; a dangling location cannot be built by the code below. *)
Definition deref {coord} (st : Store coord) (l : loc) : outcome (list coord) :=
  match cells st !! l with
  | Some row => Ok row
  | None => Raise TypeError
  end.

Definition assign {coord} (st : Store coord) (l : loc) (row : list coord) : Store coord :=
  mkStore (<[l := row]> (cells st)) (next_loc st).

(** ** class Mesh *)

(** A mesh object: the two constructor arguments and the bounding box
    computed at construction, one row [[min, max]] per axis. *)
Record Mesh (coord : Type) : Type := mkMesh {
  vertices : list (list coord);
  faces : list (list Z);
  bounding_box : list loc
}.
Arguments mkMesh {coord} vertices faces bounding_box.
Arguments vertices {coord} m.
Arguments faces {coord} m.
Arguments bounding_box {coord} m.

Module Mesh.

(** The canonical form of an edge, as in the body of the inner loop. *)
Definition edge (iv jv : Z) : Z * Z :=
  if decide (jv > iv) then (iv, jv) else (jv, iv).

(** One pass of [for i in range(len(face))] over the set built so far. *)
Definition add_face_edges (line_segments : gset (Z * Z)) (face : list Z)
  : gset (Z * Z) :=
  fold_left
    (λ acc (i : nat),
       match face !! i, face !! ((i + 1) `mod` length face)%nat with
       | Some iv, Some jv => {[ edge iv jv ]} ∪ acc
       | _, _ => acc
       end)
    (seq 0 (length face)) line_segments.

(** The set [line_segments] at the end of the outer loop. *)
Definition line_segments (faces : list (list Z)) : gset (Z * Z) :=
  fold_left add_face_edges faces ∅.

(** The integers that the faces hold, as far as the subtraction
    [edge[0] - 1] depends on their type.  Python integers do not wrap
    around, and neither do the signed 64-bit integers of NumPy at the
    indices of a sequence.  [Model.__init__] builds the faces of the
    default cube with [dtype="uint32"]: NumPy 2 computes [uint32 - 1] in
    [uint32], so that [0 - 1] is [4294967295]; NumPy 1 promoted both
    operands to a signed type, which is the case [py_int]. *)
Inductive index_type : Type :=
| py_int
| uint32.

Definition minus_1 (t : index_type) (i : Z) : Z :=
  match t with
  | py_int => i - 1
  | uint32 => (i - 1) `mod` 2 ^ 32
  end.

Section WithCoord.
Context {coord : Type}.

(** [get_vertices]: for every face, the positions of its vertices. *)
Definition get_vertices (vertices : list (list coord)) (faces : list (list Z))
  : outcome (list (list (list coord))) :=
  mapM (λ face, mapM (λ ivt, index vertices ivt) face) faces.

(** [get_line_segments]: one two-point segment per element of the set.
    The order in which Python iterates a set depends on the hashes of its
    elements and on the history of the insertions: [iter faces] stands
    for the order met for the set built from [faces], and the properties
    below assume of it only that it lists every element of the set once.
    [t] is the type of the integers of [faces], which [edge[0] - 1] is
    computed in. *)
Definition get_line_segments (t : index_type)
    (iter : list (list Z) → list (Z * Z))
    (vertices : list (list coord)) (faces : list (list Z))
  : outcome (list (list (list coord))) :=
  mapM (λ e : Z * Z,
          p ← index vertices (minus_1 t e.1);
          q ← index vertices (minus_1 t e.2);
          mret [p; q])
       (iter faces).

Context (lt : coord → coord → bool).

(** The body of the loop of [get_bounding_box] for axis [i]:
    [x_i = [p[i] for p in v]] and the row [[min(x_i), max(x_i)]]. *)
Definition axis_bounds (v : list (list coord)) (i : Z) : outcome (list coord) :=
  x_i ← mapM (λ p, index p i) v;
  lo ← Py.min lt x_i;
  hi ← Py.max lt x_i;
  mret [lo; hi].

(** [get_bounding_box]: the number of axes is read off the first stored
    vertex; each axis takes [min] and [max] over the flattened result of
    [get_vertices]. *)
Definition get_bounding_box (vertices : list (list coord)) (faces : list (list Z))
  : outcome (list (list coord)) :=
  vs ← get_vertices vertices faces;
  let v := concat vs in
  v0 ← index vertices 0;
  mapM (axis_bounds v) (range (length v0)).

(** [Mesh(vertices, faces)]: stores the arguments and the freshly
    computed bounding box. *)
Definition init (vertices : list (list coord)) (faces : list (list Z))
    (st : Store coord) : outcome (Mesh coord * Store coord) :=
  bbox ← get_bounding_box vertices faces;
  let '(rows, st') := alloc_all bbox st in
  mret (mkMesh vertices faces rows, st').

(** The value of a mesh's stored bounding box in a store. *)
Definition bounding_box_value (st : Store coord) (m : Mesh coord)
  : outcome (list (list coord)) :=
  mapM (deref st) (bounding_box m).

End WithCoord.

End Mesh.

(** ** class Model *)

Module Model.

Section WithCoord.
Context {coord : Type} (lt : coord → coord → bool).

(** The body of the inner loop of [Model.get_bounding_box].  [bbox] is
    the list bound by [bbox = self.data[0].bounding_box]: the very rows
    of the first mesh.  [x_i] names a row of the current mesh. *)
Definition merge_axis (bbox : list loc) (mesh : Mesh coord) (i : Z)
  : M (Store coord) unit :=
  x_i ← lift (index (bounding_box mesh) i);
  (* bbox[i][0] = min([bbox[i][0], min(x_i)]) *)
  row ← lift (index bbox i);
  cur ← (λ st, (deref st row, st));
  b0 ← lift (index cur 0);
  xs ← (λ st, (deref st x_i, st));
  m ← lift (Py.min lt xs);
  v ← lift (Py.min lt [b0; m]);
  row ← lift (index bbox i);
  cur ← (λ st, (deref st row, st));
  new ← lift (setitem cur 0 v);
  _ ← modify (λ st, assign st row new);
  (* bbox[i][1] = max([bbox[i][1], max(x_i)]) *)
  row ← lift (index bbox i);
  cur ← (λ st, (deref st row, st));
  b1 ← lift (index cur 1);
  xs ← (λ st, (deref st x_i, st));
  m ← lift (Py.max lt xs);
  v ← lift (Py.max lt [b1; m]);
  row ← lift (index bbox i);
  cur ← (λ st, (deref st row, st));
  new ← lift (setitem cur 1 v);
  modify (λ st, assign st row new).

(** [Model.get_bounding_box] on [self.data = data]. *)
Definition get_bounding_box (data : list (Mesh coord))
  : M (Store coord) (list loc) :=
  m0 ← lift (index data 0);
  let bbox := bounding_box m0 in
  _ ← for_each (slice_from_1 data) (λ mesh,
        for_each (range (length bbox)) (λ i, merge_axis bbox mesh i));
  mret bbox.

(** [Model.load_file] after the reader returned [(vertices, faces)]:
    construct the mesh and append it. *)
Definition append_mesh (vertices : list (list coord)) (faces : list (list Z))
    (data : list (Mesh coord)) (st : Store coord)
  : outcome (list (Mesh coord) * Store coord) :=
  '(mesh, st') ← Mesh.init lt vertices faces st;
  mret (data ++ [mesh], st').

End WithCoord.

End Model.

(** The unit cube of [Model.__init__], the default document.  Its
    coordinates are the integers 0 and 1, which the source converts to
    [float32] without loss. *)
Definition cube_vertices : list (list Z) :=
  [[0;1;0]; [1;1;0]; [1;0;0]; [0;0;0]; [1;0;1]; [0;0;1]; [1;1;1]; [0;1;1]].
Definition cube_faces : list (list Z) :=
  [[0;1;2]; [0;2;3]; [2;4;5]; [2;5;3]; [4;2;1]; [4;1;6];
   [6;1;0]; [6;0;7]; [3;5;7]; [3;7;0]; [6;5;4]; [6;7;5]].

(** ** numpy arrays and strings used by [View.plot] *)

Module Np.

(** [np.tile(l, n)] *)
Definition tile (l : list Z) (n : nat) : list Z := concat (replicate n l).

(** [np.arange(start, stop, step)] for a positive step. *)
Definition arange (start stop step : Z) : list Z :=
  (λ k : nat, start + step * Z.of_nat k)
    <$> seq 0 (Z.to_nat ((stop - start + step - 1) `div` step)).

(** [np.repeat(l, k)] *)
Definition repeat (l : list Z) (k : nat) : list Z := l ≫= replicate k.

(** [a + b] on one-dimensional arrays: equal lengths add element by
    element, an array of one element is broadcast, other shapes are
    rejected. *)
Definition add (a b : list Z) : outcome (list Z) :=
  if decide (length a = length b) then Ok (zip_with Z.add a b)
  else match a, b with
       | [x], _ => Ok (Z.add x <$> b)
       | _, [y] => Ok ((λ x, x + y) <$> a)
       | _, _ => Raise ValueError
       end.

(** [a.reshape(-1)] of a two-dimensional array. *)
Definition flatten (rows : list (list Z)) : list Z := concat rows.

(** [a[ix]] with an array of indices. *)
Definition take {A} (a : list A) (ix : list Z) : outcome (list A) :=
  mapM (index a) ix.

End Np.

Module Str.

(** [s.split(sep)] for a one-character separator. *)
Fixpoint split_chars (sep : ascii) (cur : list ascii) (s : list ascii)
  : list (list ascii) :=
  match s with
  | [] => [reverse cur]
  | c :: r =>
      if decide (c = sep) then reverse cur :: split_chars sep [] r
      else split_chars sep (c :: cur) r
  end.

Definition split (sep : ascii) (s : string) : list string :=
  String.string_of_list_ascii <$> split_chars sep [] (String.list_ascii_of_string s).

(** The characters for which [str.isspace] holds.  A character of a
    string is a code point below 256; the white space among these is
    U+0009 to U+000D, U+001C to U+0020, U+0085 and U+00A0. *)
Definition is_space (c : ascii) : bool :=
  let n := nat_of_ascii c in
  bool_decide ((9 ≤ n ≤ 13)%nat ∨ (28 ≤ n ≤ 32)%nat ∨ n = 133%nat ∨ n = 160%nat).

Fixpoint lstrip_chars (s : list ascii) : list ascii :=
  match s with
  | c :: r => if is_space c then lstrip_chars r else s
  | [] => []
  end.

(** [s.strip()] *)
Definition strip (s : string) : string :=
  String.string_of_list_ascii
    (reverse (lstrip_chars (reverse (lstrip_chars (String.list_ascii_of_string s))))).

End Str.

(** ** class View *)

(** What [View.plot] puts into the view. *)
Inductive visual (coord : Type) : Type :=
| XYZAxis
| MeshVisual (vertices : list (list coord)) (faces : list (list Z))
| LineVisual (pos : list (list coord)).
Arguments XYZAxis {coord}.
Arguments MeshVisual {coord} vertices faces.
Arguments LineVisual {coord} pos.

(** The view: the visuals of the current [vpview] ([None] before the first
    [clear]), whether [plot] has installed its turntable camera on it, and
    how many earlier views were detached. *)
Record View (coord : Type) : Type := mkView {
  vpview : option (list (visual coord));
  turntable : bool;
  detached : nat
}.
Arguments mkView {coord} vpview turntable detached.
Arguments vpview {coord} v.
Arguments turntable {coord} v.
Arguments detached {coord} v.

Definition initial_view {coord} : View coord := mkView None false 0%nat.

Module View.
Section WithCoord.
Context {coord : Type}.

(** [clear]: detach the current view, if any, and start a new one that
    holds the axis. *)
Definition clear (v : View coord) : View coord :=
  mkView (Some [XYZAxis]) false
         (match vpview v with Some _ => S (detached v) | None => detached v end).

(** [self.vpview.add(visual)] *)
Definition add_visual (x : visual coord) : M (View coord) unit := λ v,
  match vpview v with
  | Some xs => (Ok tt, mkView (Some (xs ++ [x])) (turntable v) (detached v))
  | None => (Raise TypeError, v)
  end.

(** The positions handed to the line visual in the wireframe branch. *)
Definition wireframe (mesh : Mesh coord) : outcome (list (list coord)) :=
  let n_faces := length (faces mesh) in
  ix ← Np.add (Np.tile [0; 1; 1; 2; 2; 0] n_faces)
              (Np.repeat (Np.arange 0 (3 * Z.of_nat n_faces) 3) 6);
  edges ← Np.take (Np.flatten (faces mesh)) ix;
  Np.take (vertices mesh) edges.

(** The two nested loops of [plot], flattened in iteration order; the
    result tells whether they ran to their end or met the [return None] of
    an unknown plot type. *)
Fixpoint draw (steps : list (Mesh coord * string)) : M (View coord) bool :=
  match steps with
  | [] => mret true
  | (mesh, type) :: rest =>
      if decide (type = "solid") then
        _ ← add_visual (MeshVisual (vertices mesh) (faces mesh));
        draw rest
      else if decide (type = "wireframe") then
        pos ← lift (wireframe mesh);
        _ ← add_visual (LineVisual pos);
        draw rest
      else mret false
  end.

(** [plot(types)] for a string [types], on [self.model.data = data]. *)
Definition plot (data : list (Mesh coord)) (types : string) : M (View coord) unit :=
  _ ← modify clear;
  completed ← draw (list_prod data (Str.strip <$> Str.split "+" types));
  if completed : bool then
    modify (λ v, mkView (vpview v) true (detached v))
  else mret tt.

End WithCoord.
End View.

(** ** pathlib

    [meshviewer.py] imports [typing.override], so it runs on CPython 3.12 or
    later; the functions below follow [pathlib.PurePosixPath] of that
    release: a path is a root and a list of components.  Only what the
    controller calls is included: [suffix], [with_stem], [with_suffix] and
    [parents[0]]. *)

Module Pathlib.

Record PurePath : Type := mkPath {
  root : string;
  tail : list string
}.

#[global] Instance PurePath_eq_dec : EqDecision PurePath.
Proof. solve_decision. Defined.

Definition sep : ascii := "/"%char.
Definition dot : ascii := "."%char.

(** [s.split(sep)] on a list of characters. *)
Fixpoint split_chars (cur : list ascii) (s : list ascii) : list (list ascii) :=
  match s with
  | [] => [reverse cur]
  | c :: r =>
      if decide (c = sep) then reverse cur :: split_chars [] r
      else split_chars (c :: cur) r
  end.

Definition split (s : string) : list string :=
  String.string_of_list_ascii <$> split_chars [] (String.list_ascii_of_string s).

(** [posixpath.splitroot]: one leading slash, or three and more, give the
    root [/]; exactly two give [//]. *)
Definition splitroot (p : string) : string * string :=
  match String.list_ascii_of_string p with
  | c1 :: r1 =>
      if decide (c1 = sep) then
        match r1 with
        | c2 :: r2 =>
            if decide (c2 = sep) then
              match r2 with
              | c3 :: _ =>
                  if decide (c3 = sep) then ("/", String.string_of_list_ascii r1)
                  else ("//", String.string_of_list_ascii r2)
              | [] => ("//", "")
              end
            else ("/", String.string_of_list_ascii r1)
        | [] => ("/", "")
        end
      else ("", p)
  | [] => ("", p)
  end.

(** [PurePosixPath(s)]: empty components and [.] are dropped. *)
Definition parse (s : string) : PurePath :=
  let '(rt, rel) := splitroot s in
  mkPath rt (filter (λ x, x ≠ "" ∧ x ≠ ".") (split rel)).

(** [sep.join(parts)] *)
Fixpoint join (parts : list string) : string :=
  match parts with
  | [] => ""
  | [x] => x
  | x :: rest => x +:+ "/" +:+ join rest
  end.

(** [str(path)] *)
Definition str (p : PurePath) : string :=
  let s := root p +:+ join (tail p) in
  if decide (s = "") then "." else s.

(** [path.name]: the last component, or the empty string. *)
Definition name (p : PurePath) : string :=
  match last (tail p) with
  | Some n => n
  | None => ""
  end.

(** [s.rfind('.')]: the index of the last dot, or -1. *)
Fixpoint rfind_dot_from (i : Z) (found : Z) (s : list ascii) : Z :=
  match s with
  | [] => found
  | c :: r => rfind_dot_from (i + 1) (if decide (c = dot) then i else found) r
  end.
Definition rfind_dot (s : string) : Z :=
  rfind_dot_from 0 (-1) (String.list_ascii_of_string s).

Definition len (s : string) : Z := Z.of_nat (String.length s).

(** [path.suffix]: the name from its last dot on, when that dot is
    neither the first nor the last character. *)
Definition suffix (p : PurePath) : string :=
  let n := name p in
  let i := rfind_dot n in
  if decide (0 < i < len n - 1) then
    String.substring (Z.to_nat i) (String.length n - Z.to_nat i) n
  else "".

Definition contains_sep (s : string) : bool :=
  bool_decide (sep ∈ String.list_ascii_of_string s).

(** [path.with_name(name)] *)
Definition with_name (p : PurePath) (n : string) : outcome PurePath :=
  if decide (name p = "") then Raise ValueError
  else if decide (n = "" ∨ contains_sep n = true ∨ n = ".") then Raise ValueError
  else Ok (mkPath (root p) (removelast (tail p) ++ [n])).

(** [path.with_stem(stem)] *)
Definition with_stem (p : PurePath) (stem : string) : outcome PurePath :=
  with_name p (stem +:+ suffix p).

(** [path.with_suffix(suffix)] *)
Definition with_suffix (p : PurePath) (sfx : string) : outcome PurePath :=
  if decide (contains_sep sfx = true) then Raise ValueError
  else if decide ((sfx ≠ "" ∧ String.get 0 sfx ≠ Some dot) ∨ sfx = ".")
  then Raise ValueError
  else
    let n := name p in
    if decide (n = "") then Raise ValueError
    else
      let old_suffix := suffix p in
      let n' :=
        if decide (old_suffix = "") then n +:+ sfx
        else String.substring 0 (String.length n - String.length old_suffix) n +:+ sfx in
      Ok (mkPath (root p) (removelast (tail p) ++ [n'])).

(** [path.parents[0]]: an [IndexError] when the path has no component. *)
Definition parents_0 (p : PurePath) : outcome PurePath :=
  match tail p with
  | [] => Raise IndexError
  | _ => Ok (mkPath (root p) (removelast (tail p)))
  end.

End Pathlib.

Import Pathlib.

(** ** Path values

    The objects that travel as "a path" through [reload], the mailbox and
    the loader: a [str] (from the file dialog and from watchdog events) or a
    [pathlib.Path] (built by the converting handlers). *)
Inductive pyval : Type :=
| PStr (s : string)
| PPath (p : PurePath).

#[global] Instance pyval_eq_dec : EqDecision pyval.
Proof. solve_decision. Defined.

(** [bool(v)]: the empty string is false, a path object is always true. *)
Definition truthy (v : pyval) : bool :=
  match v with
  | PStr s => bool_decide (s ≠ "")
  | PPath _ => true
  end.

(** [pathlib.Path(v)] *)
Definition Path (v : pyval) : PurePath :=
  match v with
  | PStr s => parse s
  | PPath p => p
  end.

(** [os.fspath(v)], the form in which a value appears in a command line. *)
Definition fspath (v : pyval) : string :=
  match v with
  | PStr s => s
  | PPath p => str p
  end.

(** ** watchdog observers

    [watchdog.observers.Observer] is a thread that owns a set of watches.
    [schedule] returns the [ObservedWatch] it registers; [unschedule] looks
    its argument up among the registered watches
    ([emitter = self._emitter_for_watch[watch]]) and raises [KeyError] when
    it is not one of them. *)

Record ObservedWatch : Type := mkWatch {
  watch_path : string;
  is_recursive : bool
}.

#[global] Instance ObservedWatch_eq_dec : EqDecision ObservedWatch.
Proof. solve_decision. Defined.

Inductive thread_state : Type :=
| Initial      (* created, not started *)
| Cancelled    (* asked to stop before it was started *)
| Started      (* running: events are delivered *)
| Stopped      (* asked to stop while it ran: the thread ends *)
| Joined.      (* ended, and joined *)

#[global] Instance thread_state_eq_dec : EqDecision thread_state.
Proof. solve_decision. Defined.

(** An observer: its watches ([_watches]), the watches that have an
    emitter (the keys of [_emitter_for_watch]) and the state of its
    thread. *)
Record Observer : Type := mkObs {
  watches : list ObservedWatch;
  emitters : list ObservedWatch;
  thread : thread_state
}.

(** An observer whose watches all have their emitter. *)
Definition mkObserver (ws : list ObservedWatch) (t : thread_state) : Observer :=
  mkObs ws ws t.

(** What the program may pass where the library expects a watch. *)
Inductive pyobj : Type :=
| ONone
| OVal (v : pyval)
| OWatch (w : ObservedWatch).

Module Observer.

(** [Observer()] *)
Definition new : Observer := mkObserver [] Initial.

(** [s.add(w)] and [s.remove(w)] on a set kept as a list. *)
Definition add (w : ObservedWatch) (ws : list ObservedWatch) : list ObservedWatch :=
  if decide (w ∈ ws) then ws else ws ++ [w].
Definition remove (w : ObservedWatch) (ws : list ObservedWatch) : list ObservedWatch :=
  filter (λ w', w' ≠ w) ws.

Section WithFileSystem.

(** [emitter.start()] for the emitter of a watch.  It raises when the
    operating system cannot watch the directory, for instance because the
    directory does not exist. *)
Context (start_emitter : ObservedWatch → outcome unit).

(** [observer.schedule(handler, path, recursive)]: a watch without
    emitter gets one, which is started at once when the observer runs;
    then the watch is added to the watches. *)
Definition schedule (path : string) (recursive : bool) : M Observer ObservedWatch :=
  λ o,
  let w := mkWatch path recursive in
  if decide (w ∈ emitters o) then (Ok w, mkObs (add w (watches o)) (emitters o) (thread o))
  else
    match (if decide (thread o = Started) then start_emitter w else Ok tt) with
    | Ok _ => (Ok w, mkObs (add w (watches o)) (emitters o ++ [w]) (thread o))
    | Raise e => (Raise e, o)
    | Wait => (Wait, o)
    end.

(** [observer.unschedule(watch)]: a dictionary lookup keyed by the
    watches that have an emitter. A string, a path object or [None] is
    never equal to a watch. *)
Definition unschedule (key : pyobj) : M Observer unit := λ o,
  match key with
  | OWatch w =>
      if decide (w ∈ emitters o) then
        if decide (w ∈ watches o)
        then (Ok tt, mkObs (remove w (watches o)) (remove w (emitters o)) (thread o))
        else (Raise KeyError, mkObs (watches o) (remove w (emitters o)) (thread o))
      else (Raise KeyError, o)
  | _ => (Raise KeyError, o)
  end.

(** The loop of [start] over the emitters: an emitter that fails to start
    is removed, and its exception leaves [start]. *)
Fixpoint start_emitters (todo : list ObservedWatch) : M Observer unit :=
  match todo with
  | [] => mret tt
  | w :: rest => λ o,
      match start_emitter w with
      | Ok _ => start_emitters rest o
      | Raise e => (Raise e, mkObs (watches o) (remove w (emitters o)) (thread o))
      | Wait => (Wait, o)
      end
  end.

(** [observer.start()]: the emitters are started, then the thread.  A
    thread starts once; one that was asked to stop before runs to its end
    at once.  The emitters of a running observer run already: the first
    of them refuses the second start and is removed. *)
Definition start : M Observer unit := λ o,
  match thread o with
  | Started =>
      (Raise RuntimeError, mkObs (watches o) (drop 1 (emitters o)) Started)
  | s =>
      match start_emitters (emitters o) o with
      | (Ok _, o') =>
          match s with
          | Initial => (Ok tt, mkObs (watches o') (emitters o') Started)
          | Cancelled => (Ok tt, mkObs (watches o') (emitters o') Stopped)
          | _ => (Raise RuntimeError, o')
          end
      | r => r
      end
  end.

(** [observer.stop()]: the thread is asked to stop, and every watch is
    unscheduled. *)
Definition stop (o : Observer) : Observer :=
  mkObserver []
    match thread o with
    | Initial => Cancelled
    | Started => Stopped
    | s => s
    end.

(** [observer.join()]: returns once the thread has ended.  A thread that
    was never started cannot be joined; a running thread that was not
    asked to stop never ends. *)
Definition join : M Observer unit := λ o,
  match thread o with
  | Initial | Cancelled => (Raise RuntimeError, o)
  | Started => (Wait, o)
  | Stopped | Joined => (Ok tt, mkObs (watches o) (emitters o) Joined)
  end.

End WithFileSystem.
End Observer.

(** The attributes of a file handler set by [BaseFileHandler.__init__];
    [observer] refers to an observer object by its position among the
    observers created so far. *)
Record BaseFileHandler : Type := mkHandler {
  observer : option nat;
  observed_file : option pyval;
  observed_path : option PurePath;
  observer_watch : option ObservedWatch;
  last_reload : option Z
}.

(** A handler together with all observer objects of the process. *)
Record Watching : Type := mkWatching {
  this : BaseFileHandler;
  observers : list Observer
}.

Definition initial_watching : Watching :=
  mkWatching (mkHandler None None None None None) [].

(** An observation session is active while its thread runs. *)
Definition active_sessions (w : Watching) : list Observer :=
  filter (λ o, thread o = Started) (observers w).

Module BaseFileHandler.

Definition set_this (f : BaseFileHandler → BaseFileHandler) : M Watching unit :=
  modify (λ w, mkWatching (f (this w)) (observers w)).

(** A method call on the observer object [o]. *)
Definition on_observer {A} (o : nat) (m : M Observer A) : M Watching A := λ w,
  match observers w !! o with
  | None => (Raise TypeError, w)
  | Some ob =>
      let '(r, ob') := m ob in
      (r, mkWatching (this w) (<[o := ob']> (observers w)))
  end.

Definition as_key (f : option pyval) : pyobj :=
  match f with
  | Some v => OVal v
  | None => ONone
  end.

Section WithFileSystem.
Context (start_emitter : ObservedWatch → outcome unit).

(** [follow(observed_file)], called at time [now]. *)
Definition follow (file : pyval) (now : Z) : M Watching unit :=
  h ← gets this;
  _ ← match observer h with
      | Some o =>
          _ ← on_observer o (Observer.unschedule (as_key (observed_file h)));
          _ ← on_observer o (modify Observer.stop);
          on_observer o Observer.join
      | None => mret tt
      end;
  o ← (λ w, (Ok (length (observers w)),
             mkWatching (this w) (observers w ++ [Observer.new])));
  _ ← set_this (λ h, mkHandler (Some o) (observed_file h) (observed_path h)
                       (observer_watch h) (last_reload h));
  _ ← set_this (λ h, mkHandler (observer h) (Some file) (observed_path h)
                       (observer_watch h) (last_reload h));
  parent ← lift (parents_0 (Path file));
  _ ← set_this (λ h, mkHandler (observer h) (observed_file h) (Some parent)
                       (observer_watch h) (last_reload h));
  _ ← set_this (λ h, mkHandler (observer h) (observed_file h) (observed_path h)
                       None (last_reload h));
  watch ← on_observer o (Observer.schedule start_emitter (str parent) false);
  _ ← set_this (λ h, mkHandler (observer h) (observed_file h) (observed_path h)
                       (Some watch) (last_reload h));
  _ ← on_observer o (Observer.start start_emitter);
  set_this (λ h, mkHandler (observer h) (observed_file h) (observed_path h)
                   (observer_watch h) (Some now)).
End WithFileSystem.

(** [stop()] *)
Definition stop : M Watching unit :=
  h ← gets this;
  match observer h with
  | Some o =>
      _ ← on_observer o (modify Observer.stop);
      on_observer o Observer.join
  | None => mret tt
  end.

End BaseFileHandler.

(** ** class Controller *)

(** The three handler objects created by [Controller.__init__]. *)
Inductive handler : Type :=
| default_handler
| py_handler
| scad_handler.

#[global] Instance handler_eq_dec : EqDecision handler.
Proof. solve_decision. Defined.

(** The controller's state, with the model it drives.  [loads], [plots],
    [commands] and [after_calls] record the calls made to the outside: the
    paths handed to [Model.load_file], the calls of [View.plot], the command
    lines given to [subprocess.run], and the pending
    [root_frame.after(UI_RELOAD_TIME, self.file_reloader)] callbacks. *)
Record Controller (coord : Type) : Type := mkController {
  file_handlers : gmap string handler;
  reload_lock : bool;
  reload_file : option pyval;
  model_data : list (Mesh coord);
  model_store : Store coord;
  loads : list pyval;
  plots : nat;
  commands : list (list string);
  after_calls : nat
}.
Arguments mkController {coord}.
Arguments file_handlers {coord} c.
Arguments reload_lock {coord} c.
Arguments reload_file {coord} c.
Arguments model_data {coord} c.
Arguments model_store {coord} c.
Arguments loads {coord} c.
Arguments plots {coord} c.
Arguments commands {coord} c.
Arguments after_calls {coord} c.

Section ControllerUpdates.
Context {coord : Type}.
Implicit Type c : Controller coord.

Definition set_file_handlers (m : gmap string handler) c :=
  mkController m (reload_lock c) (reload_file c) (model_data c) (model_store c)
    (loads c) (plots c) (commands c) (after_calls c).
Definition set_reload_lock (b : bool) c :=
  mkController (file_handlers c) b (reload_file c) (model_data c) (model_store c)
    (loads c) (plots c) (commands c) (after_calls c).
Definition set_reload_file (f : option pyval) c :=
  mkController (file_handlers c) (reload_lock c) f (model_data c) (model_store c)
    (loads c) (plots c) (commands c) (after_calls c).
Definition set_model (d : list (Mesh coord)) (st : Store coord) c :=
  mkController (file_handlers c) (reload_lock c) (reload_file c) d st
    (loads c) (plots c) (commands c) (after_calls c).
Definition log_load (p : pyval) c :=
  mkController (file_handlers c) (reload_lock c) (reload_file c) (model_data c)
    (model_store c) (loads c ++ [p]) (plots c) (commands c) (after_calls c).
Definition log_plot c :=
  mkController (file_handlers c) (reload_lock c) (reload_file c) (model_data c)
    (model_store c) (loads c) (S (plots c)) (commands c) (after_calls c).
Definition log_command (cmd : list string) c :=
  mkController (file_handlers c) (reload_lock c) (reload_file c) (model_data c)
    (model_store c) (loads c) (plots c) (commands c ++ [cmd]) (after_calls c).
Definition log_after c :=
  mkController (file_handlers c) (reload_lock c) (reload_file c) (model_data c)
    (model_store c) (loads c) (plots c) (commands c) (S (after_calls c)).
End ControllerUpdates.

(** The table built by [Controller.__init__]: a [defaultdict] whose factory
    returns [default_handler], with the two explicit entries. *)
Definition initial_file_handlers : gmap string handler :=
  <[".scad" := scad_handler]> (<[".py" := py_handler]> ∅).

Definition initial_controller {coord} : Controller coord :=
  mkController initial_file_handlers false None [] empty_store [] 0%nat [] 0%nat.

(** ** The controller with its handlers

    The state reached through the controller: the controller itself, the
    attributes of its three handler objects, every observer created so far,
    the attribute [file_handler] (absent until [open] sets it), and what
    [exit] does to the window. *)

Inductive event : Type :=
| FileModifiedEvent (src_path : string)
| DirModifiedEvent (src_path : string).

(** [UI_RELOAD_TIME] in milliseconds, and [MINIMUM_RELOAD_TIME =
    timedelta(milliseconds=UI_RELOAD_TIME)] in microseconds, the resolution
    of [datetime]; instants are counted in microseconds as well. *)
Definition UI_RELOAD_TIME : Z := 1000.
Definition MINIMUM_RELOAD_TIME : Z := UI_RELOAD_TIME * 1000.

Record World (coord : Type) : Type := mkWorld {
  controller : Controller coord;
  default_state : BaseFileHandler;
  py_state : BaseFileHandler;
  scad_state : BaseFileHandler;
  threads : list Observer;
  file_handler : option handler;
  view_clears : nat;
  destroyed : bool
}.
Arguments mkWorld {coord}.
Arguments controller {coord} w.
Arguments default_state {coord} w.
Arguments py_state {coord} w.
Arguments scad_state {coord} w.
Arguments threads {coord} w.
Arguments file_handler {coord} w.
Arguments view_clears {coord} w.
Arguments destroyed {coord} w.

Definition new_handler : BaseFileHandler := mkHandler None None None None None.

Definition initial_world {coord} : World coord :=
  mkWorld initial_controller new_handler new_handler new_handler [] None 0%nat false.

Section WorldAccess.
Context {coord : Type}.
Implicit Type w : World coord.

Definition handler_state (h : handler) w : BaseFileHandler :=
  match h with
  | default_handler => default_state w
  | py_handler => py_state w
  | scad_handler => scad_state w
  end.

Definition set_controller (c : Controller coord) w : World coord :=
  mkWorld c (default_state w) (py_state w) (scad_state w) (threads w)
    (file_handler w) (view_clears w) (destroyed w).

Definition set_watching (h : handler) (x : Watching) w : World coord :=
  match h with
  | default_handler =>
      mkWorld (controller w) (this x) (py_state w) (scad_state w) (observers x)
        (file_handler w) (view_clears w) (destroyed w)
  | py_handler =>
      mkWorld (controller w) (default_state w) (this x) (scad_state w) (observers x)
        (file_handler w) (view_clears w) (destroyed w)
  | scad_handler =>
      mkWorld (controller w) (default_state w) (py_state w) (this x) (observers x)
        (file_handler w) (view_clears w) (destroyed w)
  end.

Definition set_file_handler (h : handler) w : World coord :=
  mkWorld (controller w) (default_state w) (py_state w) (scad_state w) (threads w)
    (Some h) (view_clears w) (destroyed w).

(** A method of the controller, run on the controller of the world. *)
Definition in_controller {A} (m : M (Controller coord) A) : M (World coord) A := λ w,
  let '(r, c) := m (controller w) in (r, set_controller c w).

(** A method of the handler [h], run on its attributes and the observers. *)
Definition in_handler {A} (h : handler) (m : M Watching A) : M (World coord) A := λ w,
  let '(r, x) := m (mkWatching (handler_state h w) (threads w)) in
  (r, set_watching h x w).

(** The observers whose thread runs. *)
Definition running w : list Observer := filter (λ o, thread o = Started) (threads w).
End WorldAccess.

Module Controller.

Section WithEnvironment.
Context {coord : Type} (lt : coord → coord → bool).

(** The collaborators outside the file: the mesh reader
    [vispy.io.read_mesh], the renderer behind [View.plot], and the
    operating system behind [subprocess.run], which either raises
    [FileNotFoundError] or returns the exit status. *)
Context (read_mesh : pyval → outcome (list (list coord) * list (list Z))).
Context (view_plot : list (Mesh coord) → outcome unit).
Context (subprocess_run : list string → outcome Z).

Local Abbreviation St := (Controller coord).

(** [self.file_handlers[pathlib.Path(path).suffix]]: a missing key makes
    the [defaultdict] call its factory, store the result under the key
    and return it. *)
Definition get_file_handler (path : pyval) : M St handler := λ c,
  let key := suffix (Path path) in
  match file_handlers c !! key with
  | Some h => (Ok h, c)
  | None =>
      (Ok default_handler,
       set_file_handlers (<[key := default_handler]> (file_handlers c)) c)
  end.

(** [Lock.acquire(blocking=True)]: waits while the lock is held. *)
Definition acquire_blocking : M St bool := λ c,
  if reload_lock c then (Wait, c) else (Ok true, set_reload_lock true c).

(** [Lock.acquire(blocking=False)]: reports failure instead of waiting. *)
Definition acquire_nonblocking : M St bool := λ c,
  if reload_lock c then (Ok false, c) else (Ok true, set_reload_lock true c).

(** [Lock.release()] *)
Definition release : M St unit := λ c,
  if reload_lock c then (Ok tt, set_reload_lock false c) else (Raise RuntimeError, c).

(** [Mesh(vertices, faces)] followed by [self.data.append]. *)
Definition append_mesh (vertices : list (list coord)) (faces : list (list Z))
  : M St unit := λ c,
  match Model.append_mesh lt vertices faces (model_data c) (model_store c) with
  | Ok (d, st) => (Ok tt, set_model d st c)
  | Raise e => (Raise e, c)
  | Wait => (Wait, c)
  end.

(** [Model.load_file(file_name)] on the controller's model. *)
Definition load_file (file_name : pyval) : M St unit :=
  _ ← modify (log_load file_name);
  vf ← lift (read_mesh file_name);
  append_mesh vf.1 vf.2.

(** [load_file_in_viewer] *)
Definition load_file_in_viewer (file_handle : pyval) : M St unit :=
  _ ← modify (λ c, set_model [] (model_store c) c);
  _ ← load_file file_handle;
  d ← gets model_data;
  _ ← lift (view_plot d);
  modify log_plot.

(** [file_reloader], one firing of the poll loop. *)
Definition file_reloader : M St unit :=
  got ← acquire_nonblocking;
  _ ← (if got : bool then
         pending ← gets reload_file;
         _ ← match pending with
             | Some p => if truthy p then load_file_in_viewer p else mret tt
             | None => mret tt
             end;
         _ ← modify (set_reload_file None);
         release
       else mret tt);
  modify log_after.

End WithEnvironment.

Module DefaultFileHandler.
Section WithCoord.
Context {coord : Type}.

(** [DefaultFileHandler.reload]: post the path into the mailbox. *)
Definition reload (file_path : pyval) : M (Controller coord) unit :=
  got ← acquire_blocking;
  if got : bool then
    _ ← modify (set_reload_file (Some file_path));
    release
  else mret tt.
End WithCoord.

Section OnModified.
Context {coord : Type}.

(** [on_modified(event)] on the handler object [h], at the instant [now]
    that [datetime.now()] returns; [self_reload] is the handler's own
    [reload].  The call of the logging superclass has no effect on the
    state. *)
Definition on_modified (h : handler)
    (self_reload : pyval → M (Controller coord) unit)
    (ev : event) (now : Z) : M (World coord) unit :=
  match ev with
  | FileModifiedEvent src_path =>
      self ← gets (handler_state h);
      if bool_decide (observed_file self = Some (PStr src_path)) then
        match last_reload self with
        | None => lift (Raise TypeError)
        | Some last =>
            if decide (now - last > MINIMUM_RELOAD_TIME) then
              _ ← in_handler h
                    (BaseFileHandler.set_this
                       (λ s, mkHandler (observer s) (observed_file s) (observed_path s)
                               (observer_watch s) (Some now)));
              in_controller (self_reload (PStr src_path))
            else mret tt
        end
      else mret tt
  | DirModifiedEvent _ => mret tt
  end.
End OnModified.
End DefaultFileHandler.

Module ScadFileHandler.
Section WithEnvironment.
Context {coord : Type} (subprocess_run : list string → outcome Z).

(** [subprocess.run(args)]: the command line is recorded, the exit
    status is returned and not looked at by the caller. *)
Definition run (args : list string) : M (Controller coord) Z := λ c,
  (subprocess_run args, log_command args c).

(** [ScadFileHandler.reload] *)
Definition reload (file_path : pyval) : M (Controller coord) unit :=
  let file_handle := Path file_path in
  new_file ← lift (p ← with_stem file_handle "solidpython_temp";
                   with_suffix p ".stl");
  _ ← try_except
        (run ["openscad"; "-o"; str new_file; fspath file_path])
        FileNotFoundError
        (run ["openscad-nightly"; "-o"; str new_file; fspath file_path]);
  DefaultFileHandler.reload (PPath new_file).
End WithEnvironment.
End ScadFileHandler.

Module PythonFileHandler.
Section WithEnvironment.
Context {coord : Type} (subprocess_run : list string → outcome Z).

(** The execution of the model script and [scad_render_to_file], given the
    script and the requested output path: the path of the file written, or
    the exception raised on the way. *)
Context (render_script : pyval → PurePath → outcome pyval).

(** [PythonFileHandler.reload] *)
Definition reload (file_path : pyval) : M (Controller coord) unit :=
  let file_handle := Path file_path in
  new_path ← lift (p ← with_stem file_handle "solidpython_temp";
                   with_suffix p ".scad");
  new_file ← lift (render_script file_path new_path);
  ScadFileHandler.reload subprocess_run new_file.
End WithEnvironment.
End PythonFileHandler.

Section WithWorld.
Context {coord : Type} (lt : coord → coord → bool).
Context (read_mesh : pyval → outcome (list (list coord) * list (list Z))).
Context (view_plot : list (Mesh coord) → outcome unit).
Context (subprocess_run : list string → outcome Z).
Context (render_script : pyval → PurePath → outcome pyval).
Context (start_emitter : ObservedWatch → outcome unit).

(** [handler.reload], by the class of the handler object. *)
Definition reload_of (h : handler) : pyval → M (Controller coord) unit :=
  match h with
  | default_handler => DefaultFileHandler.reload
  | scad_handler => ScadFileHandler.reload subprocess_run
  | py_handler => PythonFileHandler.reload subprocess_run render_script
  end.

(** The delivery of a modification event to the handler [h]. *)
Definition deliver (h : handler) (ev : event) (now : Z) : M (World coord) unit :=
  DefaultFileHandler.on_modified h (reload_of h) ev now.

(** [open], where [file_name] is what the file dialog returned and [now]
    the instant at which [follow] reads the clock. *)
Definition open (file_name : pyval) (now : Z) : M (World coord) unit :=
  h ← in_controller (get_file_handler file_name);
  _ ← modify (set_file_handler h);
  _ ← in_controller (reload_of h file_name);
  _ ← in_handler h (BaseFileHandler.follow start_emitter file_name now);
  in_controller (file_reloader lt read_mesh view_plot).

(** [exit] *)
Definition exit : M (World coord) unit :=
  fh ← gets file_handler;
  _ ← match fh with
      | Some h => in_handler h BaseFileHandler.stop
      | None => mret tt
      end;
  _ ← in_controller (modify (λ c, set_model [] (model_store c) c));
  _ ← modify (λ w, mkWorld (controller w) (default_state w) (py_state w)
                     (scad_state w) (threads w) (file_handler w)
                     (S (view_clears w)) (destroyed w));
  modify (λ w, mkWorld (controller w) (default_state w) (py_state w)
                 (scad_state w) (threads w) (file_handler w)
                 (view_clears w) true).
End WithWorld.

End Controller.

(** * Vocabulary of the properties *)

(** [e] is the canonical pair of two cyclically consecutive vertices of
    [face]. *)
Definition boundary_edge (face : list Z) (e : Z * Z) : Prop :=
  ∃ (i : nat) iv jv,
    face !! i = Some iv ∧
    face !! ((i + 1) `mod` length face)%nat = Some jv ∧
    e = (Z.min iv jv, Z.max iv jv).

(** Every index of every face is a position in [vertices]. *)
Definition valid_faces {coord} (vertices : list (list coord)) (faces : list (list Z))
  : Prop :=
  ∀ face i, face ∈ faces → i ∈ face → 0 ≤ i < Z.of_nat (length vertices).

(** [iter] is an order of iteration over the set of edges: it lists
    every element of the set built from the faces exactly once. *)
Definition iterates_set (iter : list (list Z) → list (Z * Z)) : Prop :=
  ∀ faces, iter faces ≡ₚ elements (Mesh.line_segments faces).

(** The position read for an endpoint [i]: one below, and the last one
    for [i = 0]. *)
Definition position_below {coord} (vertices : list (list coord)) (i : Z) : nat :=
  if decide (i = 0) then Nat.pred (length vertices) else Z.to_nat (i - 1).

(** [i] occurs in some face. *)
Definition referenced (faces : list (list Z)) (i : Z) : Prop :=
  ∃ face, face ∈ faces ∧ i ∈ face.

(** [x] is the coordinate on axis [k] of a vertex referenced by a face. *)
Definition axis_coord {coord} (vertices : list (list coord)) (faces : list (list Z))
    (k : nat) (x : coord) : Prop :=
  ∃ i p, referenced faces i ∧ vertices !! Z.to_nat i = Some p ∧ p !! k = Some x.

(** The paths waiting in the mailbox. *)
Definition pending {coord} (c : Controller coord) : list pyval :=
  match reload_file c with
  | Some p => [p]
  | None => []
  end.

(** [s.lower()] on ASCII letters, the case folding the specification of
    the dispatch speaks of. *)
Definition lower_char (ch : ascii) : ascii :=
  let n := nat_of_ascii ch in
  if decide (65 ≤ n ≤ 90)%nat then ascii_of_nat (n + 32) else ch.

Fixpoint lower (s : string) : string :=
  match s with
  | EmptyString => EmptyString
  | String ch r => String (lower_char ch) (lower r)
  end.

(** ** Inputs used in the examples *)

(** Two triangles, loaded one after the other as by two calls of
    [Model.load_file]. *)
Definition two_meshes : outcome (list (Mesh Z) * Store Z) :=
  r ← Model.append_mesh Z.ltb [[0;0;0]; [1;0;0]; [0;1;0]] [[0; 1; 2]] [] empty_store;
  Model.append_mesh Z.ltb [[2;2;2]; [3;2;2]; [2;3;2]] [[0; 1; 2]] r.1 r.2.

(** A reader that returns the unit cube, one that fails, and a renderer
    that succeeds. *)
Definition read_cube (_ : pyval) : outcome (list (list Z) * list (list Z)) :=
  Ok (cube_vertices, cube_faces).
Definition read_fails (_ : pyval) : outcome (list (list Z) * list (list Z)) :=
  Raise ReadError.
Definition plot_ok (_ : list (Mesh Z)) : outcome unit := Ok tt.

(** An operating system on which [openscad] exists and exits with
    status 1, and one on which neither executable exists. *)
Definition openscad_exits_1 (_ : list string) : outcome Z := Ok 1.
Definition no_openscad (_ : list string) : outcome Z := Raise FileNotFoundError.
Definition only_nightly (args : list string) : outcome Z :=
  match args with
  | cmd :: _ => if decide (cmd = "openscad") then Raise FileNotFoundError else Ok 0
  | [] => Raise ValueError
  end.

(** A world in which the default handler follows [/a/x.stl] since the
    instant 0. *)
Definition followed_world : World Z :=
  mkWorld initial_controller
    (mkHandler (Some 0%nat) (Some (PStr "/a/x.stl")) (Some (mkPath "/" ["a"]))
               (Some (mkWatch "/a" false)) (Some 0))
    new_handler new_handler
    [mkObserver [mkWatch "/a" false] Started]
    (Some default_handler) 0%nat false.

(** A file system on which every directory can be watched, and one on
    which the directory to watch does not exist. *)
Definition watchable (_ : ObservedWatch) : outcome unit := Ok tt.
Definition missing_directory (_ : ObservedWatch) : outcome unit :=
  Raise FileNotFoundError.

(** A script renderer that writes the file it is asked for. *)
Definition render_ok (_ : pyval) (p : PurePath) : outcome pyval := Ok (PPath p).

(** The controller after looking up the handlers of [paths] in turn. *)
Definition lookups {coord} (paths : list pyval) (c : Controller coord)
  : Controller coord :=
  foldl (λ c path, (Controller.get_file_handler path c).2) c paths.

(** The indices that Python accepts on [l], and the position that an
    accepted index reads: a negative index counts from the end. *)
Definition in_bounds {A} (l : list A) (i : Z) : Prop :=
  - Z.of_nat (length l) ≤ i < Z.of_nat (length l).
Definition position {A} (l : list A) (i : Z) : nat :=
  Z.to_nat (if decide (0 ≤ i) then i else Z.of_nat (length l) + i).

(** [g] lists the corners of the face [f] from another starting corner,
    in the same or in the opposite direction. *)
Definition same_face (f g : list Z) : Prop :=
  ∃ k, g = rotate k f ∨ g = reverse (rotate k f).

(** The path named [n] in the directory of the path written [s]. *)
Definition beside (s : string) (n : string) : PurePath :=
  mkPath (root (parse s)) (removelast (tail (parse s)) ++ [n]).

(** The coordinates stored for axis [k] in the bounding boxes of the
    meshes [ms]. *)
Definition axis_rows {coord} (st : Store coord) (k : nat) (ms : list (Mesh coord))
  : list coord :=
  ms ≫= λ m, match bounding_box m !! k with
             | Some l => default [] (cells st !! l)
             | None => []
             end.

(** The six corners that outline a triangle, as three segments. *)
Definition triangle_outline (face : list Z) : list Z :=
  match face with
  | [a; b; c] => [a; b; b; c; c; a]
  | _ => []
  end.

(** The positions, in the flattened array of faces, of the corners that
    outline the triangle number [k]. *)
Definition outline_positions (k : nat) : list Z :=
  let o := 3 * Z.of_nat k in [0 + o; 1 + o; 1 + o; 2 + o; 2 + o; 0 + o].

(** The model and the store reached by [two_meshes]. *)
Definition two_meshes_data : list (Mesh Z) :=
  match two_meshes with Ok (data, _) => data | _ => [] end.
Definition two_meshes_store : Store Z :=
  match two_meshes with Ok (_, st) => st | _ => empty_store end.

(** Two orders of iteration over the set of edges: the order in which
    [elements] lists a set, and the opposite one. *)
Definition elements_order (faces : list (list Z)) : list (Z * Z) :=
  elements (Mesh.line_segments faces).
Definition reversed_order (faces : list (list Z)) : list (Z * Z) :=
  reverse (elements (Mesh.line_segments faces)).

(** The positions that outline the twelve triangles of the unit cube. *)
Definition cube_outline : list (list Z) :=
  Eval vm_compute in
    match Np.take cube_vertices (cube_faces ≫= triangle_outline) with
    | Ok pos => pos
    | _ => []
    end.

(** * Properties *)

(** ** Sequences and results *)

Section Outcome.
Context {A B : Type}.
Implicit Types (f : A → outcome B) (l : list A) (k : list B).

Lemma mapM_cons f x l :
  mapM f (x :: l) = (y ← f x; k ← mapM f l; mret (y :: k)).
Proof. reflexivity. Qed.

Lemma bind_Ok {C D} (m : outcome C) (g : C → outcome D) d :
  (m ≫= g) = Ok d ↔ ∃ c, m = Ok c ∧ g c = Ok d.
Proof.
  destruct m as [c| |]; simpl; split; try discriminate; eauto.
  - intros (? & [= <-] & ?). done.
  - intros (? & [=] & _).
  - intros (? & [=] & _).
Qed.

Lemma mapM_Ok_Forall2 f l k :
  mapM f l = Ok k ↔ Forall2 (λ x y, f x = Ok y) l k.
Proof.
  revert k. induction l as [|x l IH]; intros k.
  - split.
    + intros [= <-]. constructor.
    + intros H. inversion H. reflexivity.
  - rewrite mapM_cons. split.
    + intros (y & Hy & (k' & Hk & [= <-])%bind_Ok)%bind_Ok.
      constructor; [done|]. by apply IH.
    + intros H. inversion H as [|? y ? k' Hx Hl]; subst.
      apply bind_Ok. exists y. split; [done|].
      apply bind_Ok. exists k'. split; [by apply IH|done].
Qed.

Lemma mapM_Ok_total f l :
  (∀ x, x ∈ l → ∃ y, f x = Ok y) → ∃ k, mapM f l = Ok k.
Proof.
  induction l as [|x l IH]; intros H.
  - by exists [].
  - destruct (H x) as [y Hy]; [left|].
    destruct IH as [k Hk]; [intros; apply H; by right|].
    exists (y :: k). rewrite mapM_cons. apply bind_Ok. exists y. split; [done|].
    apply bind_Ok. by exists k.
Qed.

Lemma mapM_Ok_length f l k : mapM f l = Ok k → length k = length l.
Proof. intros H. apply mapM_Ok_Forall2 in H. symmetry. by eapply Forall2_length. Qed.

Lemma mapM_Ok_ext f (g : A → outcome B) l :
  (∀ x, x ∈ l → f x = g x) → mapM f l = mapM g l.
Proof.
  induction l as [|x l IH]; intros H; [done|].
  rewrite !mapM_cons. rewrite (H x) by left.
  rewrite IH; [done|]. intros; apply H; by right.
Qed.
End Outcome.

Section Index.
Context {A : Type}.
Implicit Types (l : list A) (i : Z).

Lemma index_nonneg l i :
  0 ≤ i < Z.of_nat (length l) → ∃ x, index l i = Ok x ∧ l !! Z.to_nat i = Some x.
Proof.
  intros Hi. unfold index. cbv zeta.
  destruct (decide (0 ≤ i)); [|lia]. destruct (decide _); [|lia].
  destruct (l !! Z.to_nat i) as [x|] eqn:Hx; [eauto|].
  apply lookup_ge_None in Hx. lia.
Qed.

Lemma index_Ok_nonneg l i x :
  0 ≤ i → index l i = Ok x → l !! Z.to_nat i = Some x.
Proof.
  intros Hi. unfold index. cbv zeta.
  destruct (decide (0 ≤ i)); [|lia]. destruct (decide _); [|discriminate].
  destruct (l !! Z.to_nat i); congruence.
Qed.

(** The index -1 selects the last element. *)
Lemma index_minus_1 l x : last l = Some x → index l (-1) = Ok x.
Proof.
  intros Hl. unfold index. cbv zeta.
  assert (length l ≠ 0)%nat by (destruct l; [discriminate|simpl; lia]).
  destruct (decide (0 ≤ -1)); [lia|]. destruct (decide _); [|lia].
  rewrite last_lookup in Hl.
  replace (Z.to_nat (Z.of_nat (length l) + -1)) with (Nat.pred (length l)) by lia.
  by rewrite Hl.
Qed.
End Index.

(** Results of indexing and of a comprehension, whatever the element type. *)

Lemma index_in_bounds {X} (l : list X) i :
  in_bounds l i → ∃ x, index l i = Ok x ∧ l !! position l i = Some x.
Proof.
  unfold in_bounds, position, index. cbv zeta. intros Hi.
  destruct (decide (0 ≤ i)).
  - destruct (decide _); [|lia].
    destruct (l !! Z.to_nat i) as [x|] eqn:Hx; [eauto|].
    apply lookup_ge_None in Hx. lia.
  - destruct (decide _); [|lia].
    destruct (l !! Z.to_nat (Z.of_nat (length l) + i)) as [x|] eqn:Hx; [eauto|].
    apply lookup_ge_None in Hx. lia.
Qed.

Lemma index_out_of_bounds {X} (l : list X) i :
  ¬ in_bounds l i → index l i = Raise IndexError.
Proof.
  unfold in_bounds, index. cbv zeta. intros Hi.
  destruct (decide (0 ≤ i)); (destruct (decide _); [lia|done]).
Qed.

Lemma index_outcome {X} (l : list X) i :
  (∃ x, index l i = Ok x) ∨ index l i = Raise IndexError.
Proof.
  unfold index. cbv zeta. destruct (decide _); [|by right].
  destruct (l !! _); [left; eauto|by right].
Qed.

Lemma mapM_outcome {X Y} (f : X → outcome Y) (l : list X) e :
  (∀ x, x ∈ l → (∃ y, f x = Ok y) ∨ f x = Raise e) →
  (∃ k, mapM f l = Ok k) ∨ mapM f l = Raise e.
Proof.
  induction l as [|x l IH]; intros Hf; [left; by exists []|].
  rewrite mapM_cons.
  destruct (Hf x) as [[y ->]| ->]; [left| |by right].
  destruct IH as [[k ->]| ->]; [intros; apply Hf; by right| |by right].
  left. by exists (y :: k).
Qed.

Lemma mapM_raises {X Y} (f : X → outcome Y) (l : list X) e x :
  (∀ x, x ∈ l → (∃ y, f x = Ok y) ∨ f x = Raise e) →
  x ∈ l → f x = Raise e → mapM f l = Raise e.
Proof.
  intros Hf Hx Hraise.
  destruct (mapM_outcome f l e Hf) as [[k Hk]|]; [|done].
  apply mapM_Ok_Forall2 in Hk.
  apply list_elem_of_lookup_1 in Hx as [n Hn].
  destruct (Forall2_lookup_l _ _ _ _ _ Hk Hn) as (y & _ & Hy). congruence.
Qed.

(** ** Edges of a mesh *)

Section Edges.
Implicit Types (face : list Z) (faces : list (list Z)) (e : Z * Z).

Lemma edge_min_max iv jv : Mesh.edge iv jv = (Z.min iv jv, Z.max iv jv).
Proof. unfold Mesh.edge. case_decide; f_equal; lia. Qed.

Lemma elem_of_fold_edges face (idx : list nat) (acc : gset (Z * Z)) e :
  e ∈ fold_left
        (λ acc (i : nat),
           match face !! i, face !! ((i + 1) `mod` length face)%nat with
           | Some iv, Some jv => {[ Mesh.edge iv jv ]} ∪ acc
           | _, _ => acc
           end) idx acc
  ↔ e ∈ acc ∨ ∃ i iv jv, i ∈ idx ∧ face !! i = Some iv ∧
               face !! ((i + 1) `mod` length face)%nat = Some jv ∧
               e = Mesh.edge iv jv.
Proof.
  revert acc. induction idx as [|i idx IH]; intros acc; simpl.
  - split; [by left|]. intros [?|(i & ? & ? & Hi & _)]; [done|]. by apply elem_of_nil in Hi.
  - rewrite IH. split.
    + intros [He|(j & iv & jv & Hj & ? & ? & ?)].
      * destruct (face !! i) as [iv|] eqn:Hiv;
          [destruct (face !! ((i + 1) `mod` length face)%nat) as [jv|] eqn:Hjv|];
          try (by left).
        apply elem_of_union in He as [He|He]; [|by left].
        apply elem_of_singleton in He. right. exists i, iv, jv.
        split_and!; try done. by left.
      * right. exists j, iv, jv. split_and!; try done. by right.
    + intros [He|(j & iv & jv & Hj & Hiv & Hjv & ->)].
      * left. destruct (face !! i); [destruct (face !! _)|]; set_solver.
      * apply elem_of_cons in Hj as [->|Hj].
        -- left. rewrite Hiv, Hjv. set_solver.
        -- right. by exists j, iv, jv.
Qed.

Lemma elem_of_add_face_edges face (acc : gset (Z * Z)) e :
  e ∈ Mesh.add_face_edges acc face ↔ e ∈ acc ∨ boundary_edge face e.
Proof.
  unfold Mesh.add_face_edges. rewrite elem_of_fold_edges.
  unfold boundary_edge. split.
  - intros [?|(i & iv & jv & _ & ? & ? & ->)]; [by left|right].
    exists i, iv, jv. by rewrite edge_min_max.
  - intros [?|(i & iv & jv & Hi & ? & ->)]; [by left|right].
    exists i, iv, jv. rewrite edge_min_max. split_and!; try done.
    apply elem_of_seq. apply lookup_lt_Some in Hi. lia.
Qed.

Lemma elem_of_fold_faces faces (acc : gset (Z * Z)) e :
  e ∈ fold_left Mesh.add_face_edges faces acc
  ↔ e ∈ acc ∨ ∃ face, face ∈ faces ∧ boundary_edge face e.
Proof.
  revert acc. induction faces as [|face faces IH]; intros acc; simpl.
  - split; [by left|]. intros [?|(? & H & _)]; [done|]. by apply elem_of_nil in H.
  - rewrite IH, elem_of_add_face_edges. split.
    + intros [[?|?]|(f & ? & ?)]; [by left| |].
      * right. exists face. split; [by left|done].
      * right. exists f. split; [by right|done].
    + intros [?|(f & Hf & ?)]; [by left; left|].
      apply elem_of_cons in Hf as [->|Hf]; [by left; right|].
      right. by exists f.
Qed.

Lemma elem_of_line_segments faces e :
  e ∈ Mesh.line_segments faces ↔ ∃ face, face ∈ faces ∧ boundary_edge face e.
Proof.
  unfold Mesh.line_segments. rewrite elem_of_fold_faces. set_solver.
Qed.

Lemma line_segments_pair face1 face2 :
  Mesh.line_segments [face1; face2]
  = Mesh.line_segments [face1] ∪ Mesh.line_segments [face2].
Proof.
  apply set_eq. intros e. rewrite elem_of_union, !elem_of_line_segments.
  set_solver.
Qed.

Lemma line_segments_triangle a b c :
  Mesh.line_segments [[a; b; c]]
  = {[ Mesh.edge c a ]} ∪ ({[ Mesh.edge b c ]} ∪ ({[ Mesh.edge a b ]} ∪ ∅)).
Proof. reflexivity. Qed.

Lemma size_triangle a b c :
  a ≠ b → b ≠ c → a ≠ c → size (Mesh.line_segments [[a; b; c]]) = 3%nat.
Proof.
  intros Hab Hbc Hac. rewrite line_segments_triangle.
  rewrite !edge_min_max.
  rewrite !size_union, !size_singleton, size_empty; [done|..];
    try (apply disjoint_singleton_l; rewrite ?not_elem_of_union, ?elem_of_singleton;
         split_and?; try apply not_elem_of_empty; intros [=]; lia).
Qed.
End Edges.

(** C5. The set of edges built by [get_line_segments] holds exactly the
    canonical (lower, higher) pairs of cyclically consecutive vertices of
    the faces; iterating it yields every edge once; and two triangles that
    share exactly one edge give five edges. *)
Theorem line_segments_distinct_boundary_edges :
  (∀ faces e,
     e ∈ Mesh.line_segments faces ↔ ∃ face, face ∈ faces ∧ boundary_edge face e)
  ∧ (∀ faces, NoDup (elements (Mesh.line_segments faces)))
  ∧ (∀ a b c d e f : Z,
       a ≠ b → b ≠ c → a ≠ c → d ≠ e → e ≠ f → d ≠ f →
       size (Mesh.line_segments [[a; b; c]] ∩ Mesh.line_segments [[d; e; f]]) = 1%nat →
       size (Mesh.line_segments [[a; b; c]; [d; e; f]]) = 5%nat).
Proof.
  split_and!.
  - apply elem_of_line_segments.
  - intros faces. apply NoDup_elements.
  - intros a b c d e f Hab Hbc Hac Hde Hef Hdf Hshared.
    rewrite line_segments_pair, size_union_alt, size_difference_alt.
    rewrite (comm_L (∩)), Hshared, !size_triangle by done. reflexivity.
Qed.

Lemma two_triangles_five_edges :
  size (Mesh.line_segments [[0; 1; 2]; [0; 2; 3]]) = 5%nat.
Proof.
  apply (proj2 (proj2 line_segments_distinct_boundary_edges));
    [lia | lia | lia | lia | lia | lia | vm_compute; reflexivity].
Defined.

(** ** Segments returned by [get_line_segments] *)

Section Segments.
Context {coord : Type}.
Implicit Types (vertices : list (list coord)) (faces : list (list Z)).

Lemma Forall2_impl_elem {X Y} (P Q : X → Y → Prop) l k :
  Forall2 P l k → (∀ x y, x ∈ l → P x y → Q x y) → Forall2 Q l k.
Proof.
  induction 1 as [|x y l k HP _ IH]; intros HQ; constructor.
  - apply HQ; [left|done].
  - apply IH. intros; apply HQ; [by right|done].
Qed.

Lemma line_segments_endpoints faces e :
  e ∈ Mesh.line_segments faces →
  ∃ face, face ∈ faces ∧ e.1 ∈ face ∧ e.2 ∈ face.
Proof.
  intros (face & Hf & i & iv & jv & Hi & Hj & ->)%elem_of_line_segments.
  exists face. split; [done|].
  apply list_elem_of_lookup_2 in Hi, Hj. simpl.
  split; [destruct (Z.min_spec iv jv) as [[_ ->]|[_ ->]]
         | destruct (Z.max_spec iv jv) as [[_ ->]|[_ ->]]]; done.
Qed.

Lemma line_segments_ordered faces e :
  e ∈ Mesh.line_segments faces → e.1 ≤ e.2.
Proof.
  intros (face & _ & i & iv & jv & _ & _ & ->)%elem_of_line_segments. simpl. lia.
Qed.

Lemma index_below vertices i :
  0 ≤ i < Z.of_nat (length vertices) →
  ∃ p, index vertices (i - 1) = Ok p ∧ vertices !! position_below vertices i = Some p.
Proof.
  intros Hi. unfold position_below. case_decide as H0.
  - subst i. destruct (last vertices) as [p|] eqn:Hl.
    + exists p. split; [by apply index_minus_1|]. by rewrite <- last_lookup.
    + apply last_None in Hl. subst. simpl in Hi. lia.
  - destruct (index_nonneg vertices (i - 1)) as (p & ? & ?); [lia|]. eauto.
Qed.

(** Where the subtraction does not wrap around it is the subtraction of
    the integers. *)
Lemma minus_1_no_wrap t vertices i :
  (t = Mesh.uint32 → Z.of_nat (length vertices) < 2 ^ 32) →
  0 ≤ i < Z.of_nat (length vertices) →
  t = Mesh.py_int ∨ i ≠ 0 →
  Mesh.minus_1 t i = i - 1.
Proof.
  intros Hsize Hi Hcase. destruct t; [reflexivity|]. simpl.
  destruct Hcase as [|Hne]; [discriminate|].
  specialize (Hsize eq_refl). apply Z.mod_small. lia.
Qed.

Lemma iterates_set_elem_of iter faces e :
  iterates_set iter → e ∈ iter faces ↔ e ∈ Mesh.line_segments faces.
Proof. intros Hiter. by rewrite (Hiter faces), elem_of_elements. Qed.

(** C10, as amended.  [iter] is the order in which the set is iterated
    and [t] the type of the face indices, of which the mesh holds valid
    ones.  Where [edge[0] - 1] does not wrap around, that is for Python
    integers and for [uint32] faces without an edge at the vertex 0,
    [get_line_segments] returns, for each edge [(i, j)] of the set, the
    two stored positions one below [i] and [j], the last stored position
    standing in for the index 0; when the stored positions are pairwise
    distinct and there are at least three, no returned segment joins the
    positions of its edge's own endpoints, in either direction.  For
    [uint32] faces with an edge at the vertex 0, the index wraps around
    to 4294967295 and the call raises [IndexError]. *)
Theorem get_line_segments_one_below t iter vertices faces :
  iterates_set iter →
  valid_faces vertices faces →
  (t = Mesh.uint32 → Z.of_nat (length vertices) < 2 ^ 32) →
  (t = Mesh.py_int ∨ (∀ e, e ∈ Mesh.line_segments faces → e.1 ≠ 0) →
   ∃ segs,
     Mesh.get_line_segments t iter vertices faces = Ok segs
     ∧ Forall2
         (λ (e : Z * Z) seg, ∃ p q,
            seg = [p; q]
            ∧ index vertices (e.1 - 1) = Ok p
            ∧ index vertices (e.2 - 1) = Ok q
            ∧ vertices !! position_below vertices e.1 = Some p
            ∧ vertices !! position_below vertices e.2 = Some q)
         (iter faces) segs
     ∧ (NoDup vertices → (3 ≤ length vertices)%nat →
        Forall2
          (λ (e : Z * Z) seg, ∀ p q,
             index vertices e.1 = Ok p → index vertices e.2 = Ok q →
             seg ≠ [p; q] ∧ seg ≠ [q; p])
          (iter faces) segs))
  ∧ (t = Mesh.uint32 → (∃ e, e ∈ Mesh.line_segments faces ∧ e.1 = 0) →
     Mesh.get_line_segments t iter vertices faces = Raise IndexError).
Proof.
  intros Hiter Hvalid Hsize.
  assert (Hrange : ∀ e, e ∈ iter faces →
            e ∈ Mesh.line_segments faces
            ∧ 0 ≤ e.1 < Z.of_nat (length vertices)
            ∧ 0 ≤ e.2 < Z.of_nat (length vertices) ∧ e.1 ≤ e.2).
  { intros e He%(iterates_set_elem_of iter faces e Hiter). split; [done|].
    destruct (line_segments_endpoints _ _ He) as (face & Hf & H1 & H2).
    split_and!; try (eapply Hvalid; eauto). by apply (line_segments_ordered faces). }
  split.
  - intros Hcase.
    assert (Hsub : ∀ e, e ∈ iter faces →
              Mesh.minus_1 t e.1 = e.1 - 1 ∧ Mesh.minus_1 t e.2 = e.2 - 1).
    { intros e (He & H1 & H2 & Hle)%Hrange.
      assert (t = Mesh.py_int ∨ e.1 ≠ 0) as Hcase1
        by (destruct Hcase as [|Hno]; [by left|right; by apply Hno]).
      split; apply (minus_1_no_wrap t vertices); try done.
      destruct Hcase1 as [|Hne]; [by left|right; lia]. }
    unfold Mesh.get_line_segments.
    destruct (mapM_Ok_total
                (λ e : Z * Z, p ← index vertices (Mesh.minus_1 t e.1);
                              q ← index vertices (Mesh.minus_1 t e.2); mret [p; q])
                (iter faces)) as [segs Hsegs].
    { intros e He. destruct (Hsub e He) as [-> ->].
      destruct (Hrange e He) as (_ & H1 & H2 & _).
      destruct (index_below vertices e.1 H1) as (p & -> & _).
      destruct (index_below vertices e.2 H2) as (q & -> & _). by eexists. }
    exists segs. split; [done|].
    apply mapM_Ok_Forall2 in Hsegs.
    assert (Hshape : Forall2
          (λ (e : Z * Z) seg, ∃ p q,
             seg = [p; q]
             ∧ index vertices (e.1 - 1) = Ok p
             ∧ index vertices (e.2 - 1) = Ok q
             ∧ vertices !! position_below vertices e.1 = Some p
             ∧ vertices !! position_below vertices e.2 = Some q)
          (iter faces) segs).
    { eapply Forall2_impl_elem; [exact Hsegs|]. intros e seg He Hseg.
      destruct (Hsub e He) as [Hs1 Hs2]. destruct (Hrange e He) as (_ & H1 & H2 & _).
      destruct (index_below vertices e.1 H1) as (p & Hp & Hp').
      destruct (index_below vertices e.2 H2) as (q & Hq & Hq').
      simpl in Hseg. rewrite Hs1, Hs2, Hp, Hq in Hseg. injection Hseg as <-.
      exists p, q. done. }
    split; [exact Hshape|].
    intros Hnodup Hlen.
    eapply Forall2_impl_elem; [exact Hshape|].
    intros e seg (_ & H1 & H2 & Hle)%Hrange (p & q & -> & _ & _ & Hp & Hq) p' q' Hp' Hq'.
    apply index_Ok_nonneg in Hp'; [|lia]. apply index_Ok_nonneg in Hq'; [|lia].
    split.
    + intros [= <- _].
      pose proof (NoDup_lookup _ _ _ _ Hnodup Hp Hp') as Heq.
      unfold position_below in Heq. case_decide; lia.
    + intros [= <- <-].
      pose proof (NoDup_lookup _ _ _ _ Hnodup Hp Hq') as Heq1.
      pose proof (NoDup_lookup _ _ _ _ Hnodup Hq Hp') as Heq2.
      unfold position_below in Heq1, Heq2. repeat case_decide; lia.
  - intros -> (e & He & Hzero).
    specialize (Hsize eq_refl).
    unfold Mesh.get_line_segments.
    apply mapM_raises with (x := e).
    + intros e' _.
      destruct (index_outcome vertices (Mesh.minus_1 Mesh.uint32 e'.1)) as [[p ->]| ->];
        [|by right].
      destruct (index_outcome vertices (Mesh.minus_1 Mesh.uint32 e'.2)) as [[q ->]| ->];
        [left; by eexists|by right].
    + by apply (iterates_set_elem_of iter faces e Hiter).
    + rewrite Hzero.
      assert (Hout : ¬ in_bounds vertices (Mesh.minus_1 Mesh.uint32 0)).
      { unfold in_bounds. change (Mesh.minus_1 Mesh.uint32 0) with 4294967295. lia. }
      by rewrite (index_out_of_bounds vertices _ Hout).
Qed.
End Segments.

Lemma elements_order_iterates : iterates_set elements_order.
Proof. by intros faces. Qed.

Lemma reversed_order_iterates : iterates_set reversed_order.
Proof. intros faces. unfold reversed_order. by rewrite reverse_Permutation. Qed.

(** The cube of [Model.__init__]: with its [uint32] faces the call
    raises; given as Python integers, every edge is drawn between the
    positions one below its endpoints. *)
Lemma cube_segments_one_below :
  Mesh.get_line_segments Mesh.uint32 elements_order cube_vertices cube_faces
    = Raise IndexError
  ∧ ∃ segs,
      Mesh.get_line_segments Mesh.py_int elements_order cube_vertices cube_faces
        = Ok segs
      ∧ Forall2
          (λ (e : Z * Z) seg, ∀ p q,
             index cube_vertices e.1 = Ok p → index cube_vertices e.2 = Ok q →
             seg ≠ [p; q] ∧ seg ≠ [q; p])
          (elements_order cube_faces) segs.
Proof.
  assert (Hvalid : valid_faces cube_vertices cube_faces).
  { intros face i Hf Hi.
    assert (Hall : Forall (Forall (λ i, 0 ≤ i < 8)) cube_faces)
      by (repeat constructor; lia).
    rewrite Forall_forall in Hall. specialize (Hall face Hf).
    rewrite Forall_forall in Hall. apply (Hall i Hi). }
  split.
  - apply (get_line_segments_one_below Mesh.uint32 elements_order
             cube_vertices cube_faces elements_order_iterates Hvalid);
      [intros _; simpl; lia|done|].
    exists (0, 1). split; [|done].
    apply (bool_decide_unpack ((0, 1) ∈ Mesh.line_segments cube_faces)).
    vm_compute. exact I.
  - destruct (get_line_segments_one_below Mesh.py_int elements_order
                cube_vertices cube_faces elements_order_iterates Hvalid)
      as [Hsegs _]; [discriminate|].
    destruct Hsegs as (segs & H & _ & Hd); [by left|].
    exists segs. split; [exact H|]. apply Hd.
    + apply (bool_decide_unpack (NoDup cube_vertices)). vm_compute. exact I.
    + simpl. lia.
Defined.

(** The claim C10 as stated fails.  The first mesh stores three distinct
    positions, each twice: whatever the type of the indices and the order
    of iteration, every returned segment is the pair of positions of its
    edge's own endpoints; the result is given for the order
    [(1, 3), (3, 5), (1, 5)].  The second mesh has two vertices at
    distinct positions: the segment returned for its only edge joins the
    positions of the two endpoints of that edge. *)
Lemma shifted_segments_may_coincide :
  let vertices : list (list Z) :=
    [[0;0;0]; [0;0;0]; [1;0;0]; [1;0;0]; [0;1;0]; [0;1;0]] in
  let faces : list (list Z) := [[1; 3; 5]] in
  let own (vs : list (list Z)) (e : Z * Z) :=
    p ← index vs e.1; q ← index vs e.2; mret [p; q] in
  valid_faces vertices faces
  ∧ (∃ p q, p ∈ vertices ∧ q ∈ vertices ∧ p ≠ q)
  ∧ (∀ t iter, iterates_set iter →
       Mesh.get_line_segments t iter vertices faces = mapM (own vertices) (iter faces)
       ∧ ∃ segs, Mesh.get_line_segments t iter vertices faces = Ok segs)
  ∧ (∀ t iter, iter faces = [(1, 3); (3, 5); (1, 5)] →
       Mesh.get_line_segments t iter vertices faces
       = Ok [[[0;0;0]; [1;0;0]]; [[1;0;0]; [0;1;0]]; [[0;0;0]; [0;1;0]]])
  ∧ (∀ iter, iterates_set iter →
       Mesh.get_line_segments Mesh.py_int iter [[0;0;0]; [1;0;0]] [[0; 1]]
       = Ok [[[1;0;0]; [0;0;0]]]
       ∧ mapM (own [[0;0;0]; [1;0;0]]) (iter [[0; 1]]) = Ok [[[0;0;0]; [1;0;0]]]).
Proof.
  intros vertices faces own.
  assert (Hset : ∀ iter e, iterates_set iter → e ∈ iter faces →
            e = (3, 5) ∨ e = (1, 5) ∨ e = (1, 3)).
  { intros iter e Hiter He. rewrite (Hiter faces) in He.
    change (elements (Mesh.line_segments faces)) with [(3, 5); (1, 5); (1, 3)] in He.
    set_solver. }
  split_and!.
  - intros face i ->%list_elem_of_singleton Hi. simpl.
    repeat (apply elem_of_cons in Hi as [->|Hi]; [lia|]). by apply elem_of_nil in Hi.
  - exists [0;0;0], [1;0;0]. split_and!; [set_solver | set_solver | discriminate].
  - intros t iter Hiter.
    assert (Heq : Mesh.get_line_segments t iter vertices faces
                  = mapM (own vertices) (iter faces)).
    { apply mapM_Ok_ext. intros e He.
      destruct (Hset iter e Hiter He) as [->|[->| ->]]; by destruct t. }
    split; [exact Heq|]. rewrite Heq. apply mapM_Ok_total. intros e He.
    destruct (Hset iter e Hiter He) as [->|[->| ->]]; by eexists.
  - intros t iter Hfaces. unfold Mesh.get_line_segments. rewrite Hfaces.
    by destruct t.
  - intros iter Hiter.
    assert (Hone : iter [[0; 1]] = [(0, 1)]).
    { apply Permutation_singleton_r. by rewrite (Hiter [[0; 1]]). }
    unfold Mesh.get_line_segments. rewrite Hone. split; reflexivity.
Qed.

(** ** The bounding box of a mesh *)

Section BoundingBox.
Context {coord : Type} (lt : coord → coord → bool).

(** The comparison of coordinates is a strict total order, as [<] is on
    the finite floating-point numbers. *)
Hypothesis lt_irrefl : ∀ x, lt x x = false.
Hypothesis lt_trans : ∀ x y z, lt x y = true → lt y z = true → lt x z = true.
Hypothesis lt_total : ∀ x y, lt x y = false → lt y x = false → x = y.

Implicit Types (vertices v : list (list coord)) (faces : list (list Z)).

Lemma lt_false_trans x y z : lt x y = false → lt z y = true → lt z x = true.
Proof.
  intros Hxy Hzy. destruct (lt z x) eqn:Hzx; [done|].
  destruct (lt x z) eqn:Hxz.
  - by rewrite (lt_trans _ _ _ Hxz Hzy) in Hxy.
  - rewrite (lt_total _ _ Hxz Hzx) in Hxy. congruence.
Qed.

Lemma fold_min_spec r x :
  let m := fold_left (λ best y, if lt y best then y else best) r x in
  m ∈ x :: r ∧ ∀ y, y ∈ x :: r → lt y m = false.
Proof.
  revert x. induction r as [|y0 r IH]; intros x; simpl.
  - split; [by left|]. intros y ->%list_elem_of_singleton. apply lt_irrefl.
  - destruct (IH (if lt y0 x then y0 else x)) as [Hin Hlow].
    set (m := fold_left _ _ _) in *.
    assert (Hx' : lt (if lt y0 x then y0 else x) m = false) by (apply Hlow; left).
    split.
    + apply elem_of_cons in Hin as [Hin|Hin].
      * rewrite Hin. destruct (lt y0 x); [right; left | left].
      * by do 2 right.
    + intros y Hy. apply elem_of_cons in Hy as [->|Hy].
      * destruct (lt y0 x) eqn:Hc; [|done].
        destruct (lt x m) eqn:Hxm; [|done].
        by rewrite (lt_trans _ _ _ Hc Hxm) in Hx'.
      * apply elem_of_cons in Hy as [->|Hy]; [|apply Hlow; by right].
        destruct (lt y0 x) eqn:Hc; [done|].
        destruct (lt y0 m) eqn:Hym; [|done].
        pose proof (lt_false_trans _ _ _ Hx' Hym). congruence.
Qed.

Lemma fold_max_spec r x :
  let m := fold_left (λ best y, if lt best y then y else best) r x in
  m ∈ x :: r ∧ ∀ y, y ∈ x :: r → lt m y = false.
Proof.
  revert x. induction r as [|y0 r IH]; intros x; simpl.
  - split; [by left|]. intros y ->%list_elem_of_singleton. apply lt_irrefl.
  - destruct (IH (if lt x y0 then y0 else x)) as [Hin Hup].
    set (m := fold_left _ _ _) in *.
    assert (Hx' : lt m (if lt x y0 then y0 else x) = false) by (apply Hup; left).
    split.
    + apply elem_of_cons in Hin as [Hin|Hin].
      * rewrite Hin. destruct (lt x y0); [right; left | left].
      * by do 2 right.
    + intros y Hy. apply elem_of_cons in Hy as [->|Hy].
      * destruct (lt x y0) eqn:Hc; [|done].
        destruct (lt m x) eqn:Hmx; [|done].
        by rewrite (lt_trans _ _ _ Hmx Hc) in Hx'.
      * apply elem_of_cons in Hy as [->|Hy]; [|apply Hup; by right].
        destruct (lt x y0) eqn:Hc; [done|].
        destruct (lt m y0) eqn:Hmy; [|done].
        destruct (lt y0 x) eqn:Hyx.
        -- by rewrite (lt_trans _ _ _ Hmy Hyx) in Hx'.
        -- rewrite (lt_total _ _ Hc Hyx) in Hx'. congruence.
Qed.

Lemma min_spec xs :
  xs ≠ [] →
  ∃ m, Py.min lt xs = Ok m ∧ m ∈ xs ∧ ∀ y, y ∈ xs → lt y m = false.
Proof.
  destruct xs as [|x r]; [done|]. intros _. eexists. split; [reflexivity|].
  apply fold_min_spec.
Qed.

Lemma max_spec xs :
  xs ≠ [] →
  ∃ m, Py.max lt xs = Ok m ∧ m ∈ xs ∧ ∀ y, y ∈ xs → lt m y = false.
Proof.
  destruct xs as [|x r]; [done|]. intros _. eexists. split; [reflexivity|].
  apply fold_max_spec.
Qed.

(** Bounds of one axis over a non-empty list of points. *)
Lemma axis_bounds_spec v (k : nat) :
  v ≠ [] → (∀ p, p ∈ v → (k < length p)%nat) →
  ∃ lo hi,
    Mesh.axis_bounds lt v (Z.of_nat k) = Ok [lo; hi]
    ∧ (∃ p, p ∈ v ∧ p !! k = Some lo)
    ∧ (∀ p x, p ∈ v → p !! k = Some x → lt x lo = false)
    ∧ (∃ p, p ∈ v ∧ p !! k = Some hi)
    ∧ (∀ p x, p ∈ v → p !! k = Some x → lt hi x = false).
Proof.
  intros Hne Hlen.
  destruct (mapM_Ok_total (λ p : list coord, index p (Z.of_nat k)) v) as [xs Hxs].
  { intros p Hp. destruct (index_nonneg p (Z.of_nat k)) as (x & ? & _); [|eauto].
    specialize (Hlen p Hp). lia. }
  pose proof Hxs as HF. apply mapM_Ok_Forall2 in HF.
  assert (Hxs_ne : xs ≠ []).
  { intros ->. apply Forall2_length in HF. destruct v; [done|discriminate]. }
  assert (Hfrom : ∀ x, x ∈ xs → ∃ p, p ∈ v ∧ p !! k = Some x).
  { intros x (i & Hi)%list_elem_of_lookup_1.
    destruct (Forall2_lookup_r _ _ _ _ _ HF Hi) as (p & Hp & Hpx).
    exists p. split; [by eapply list_elem_of_lookup_2|].
    apply index_Ok_nonneg in Hpx; [|lia]. by rewrite Nat2Z.id in Hpx. }
  assert (Hto : ∀ p x, p ∈ v → p !! k = Some x → x ∈ xs).
  { intros p x (i & Hi)%list_elem_of_lookup_1 Hx.
    destruct (Forall2_lookup_l _ _ _ _ _ HF Hi) as (x' & Hx' & Hpx).
    apply index_Ok_nonneg in Hpx; [|lia]. rewrite Nat2Z.id in Hpx.
    assert (x' = x) as -> by congruence. by eapply list_elem_of_lookup_2. }
  destruct (min_spec xs Hxs_ne) as (lo & Hlo & Hlo_in & Hlo_low).
  destruct (max_spec xs Hxs_ne) as (hi & Hhi & Hhi_in & Hhi_up).
  exists lo, hi. split_and!; eauto.
  unfold Mesh.axis_bounds. rewrite Hxs. simpl. rewrite Hlo. simpl. by rewrite Hhi.
Qed.
Lemma get_vertices_spec vertices faces :
  valid_faces vertices faces →
  ∃ vs, Mesh.get_vertices vertices faces = Ok vs
        ∧ ∀ p, p ∈ concat vs ↔
               ∃ i, referenced faces i ∧ vertices !! Z.to_nat i = Some p.
Proof.
  intros Hvalid. unfold Mesh.get_vertices.
  destruct (mapM_Ok_total (λ face, mapM (λ ivt, index vertices ivt) face) faces)
    as [vs Hvs].
  { intros face Hf. apply mapM_Ok_total. intros i Hi.
    destruct (index_nonneg vertices i) as (p & ? & _); eauto. }
  exists vs. split; [done|].
  apply mapM_Ok_Forall2 in Hvs. intros p.
  rewrite list_elem_of_In, in_concat. split.
  - intros (ps & (n & Hn)%list_elem_of_In%list_elem_of_lookup_1
               & (j & Hj)%list_elem_of_In%list_elem_of_lookup_1).
    destruct (Forall2_lookup_r _ _ _ _ _ Hvs Hn) as (face & Hface & Hps).
    apply mapM_Ok_Forall2 in Hps.
    destruct (Forall2_lookup_r _ _ _ _ _ Hps Hj) as (i & Hi & Hp).
    apply list_elem_of_lookup_2 in Hface, Hi.
    exists i. split; [by exists face|].
    apply index_Ok_nonneg in Hp; [done|]. by eapply Hvalid.
  - intros (i & (face & (n & Hn)%list_elem_of_lookup_1
                     & (j & Hj)%list_elem_of_lookup_1) & Hp).
    destruct (Forall2_lookup_l _ _ _ _ _ Hvs Hn) as (ps & Hps & Hmap).
    apply mapM_Ok_Forall2 in Hmap.
    destruct (Forall2_lookup_l _ _ _ _ _ Hmap Hj) as (p' & Hp' & Hidx).
    apply list_elem_of_lookup_2 in Hn, Hj.
    apply index_Ok_nonneg in Hidx; [|by eapply Hvalid].
    assert (p' = p) as -> by congruence.
    exists ps. split; apply list_elem_of_In; by eapply list_elem_of_lookup_2.
Qed.

Lemma get_bounding_box_unfold vertices faces vs (v0 : list coord) :
  Mesh.get_vertices vertices faces = Ok vs →
  index vertices 0 = Ok v0 →
  Mesh.get_bounding_box lt vertices faces
  = mapM (Mesh.axis_bounds lt (concat vs)) (range (length v0)).
Proof. intros Hvs Hv0. unfold Mesh.get_bounding_box. by rewrite Hvs, Hv0. Qed.

(** Rows just allocated read back as they were written. *)
Lemma alloc_all_spec (rows : list (list coord)) (st : Store coord) ls st' :
  alloc_all rows st = (ls, st') →
  (next_loc st ≤ next_loc st')%nat
  ∧ (∀ l, (l < next_loc st)%nat → cells st' !! l = cells st !! l)
  ∧ mapM (deref st') ls = Ok rows.
Proof.
  revert st ls st'. induction rows as [|row rows IH]; intros st ls st'; simpl.
  - intros [= <- <-]. done.
  - destruct (alloc_all rows _) as [ls2 st2] eqn:Hrest. intros [= <- <-].
    destruct (IH _ _ _ Hrest) as (Hle & Hkeep & Hread). simpl in Hle, Hkeep.
    split_and!.
    + lia.
    + intros l Hl. rewrite Hkeep by lia. apply lookup_insert_ne. lia.
    + assert (Hhead : deref st2 (next_loc st) = Ok row).
      { unfold deref. rewrite Hkeep by lia. by rewrite lookup_insert_eq. }
      rewrite mapM_cons, Hhead. simpl. by rewrite Hread.
Qed.

(** Without any referenced vertex there is nothing to take the minimum
    of: [min] raises and no box is computed. *)
Lemma bounding_box_without_reference vertices faces (v0 : list coord) :
  (∀ i, ¬ referenced faces i) →
  index vertices 0 = Ok v0 → length v0 = 3%nat →
  Mesh.get_bounding_box lt vertices faces = Raise ValueError.
Proof.
  intros Hnone Hv0 Hlen.
  assert (Hvs : ∃ vs, Mesh.get_vertices vertices faces = Ok vs ∧ concat vs = []).
  { unfold Mesh.get_vertices. induction faces as [|face faces IH].
    - by exists [].
    - destruct face as [|i face]; [|destruct (Hnone i); exists (i :: face); split; left].
      destruct IH as (vs & Hvs & Hflat).
      { intros i (face & Hf & Hi). apply (Hnone i). exists face. split; [by right|done]. }
      exists ([] :: vs). rewrite mapM_cons. simpl. rewrite Hvs. done. }
  destruct Hvs as (vs & Hvs & Hflat).
  rewrite (get_bounding_box_unfold _ _ _ _ Hvs Hv0), Hlen, Hflat. reflexivity.
Qed.

(** C6.  For a mesh whose faces hold valid indices into vertices of three
    coordinates, and reference at least one vertex, the bounding box
    computed at construction has, on each of the three axes, the least
    and the greatest coordinate among the vertices referenced by a face;
    a mesh with the same faces and the same referenced vertices has the
    same box, whatever else it stores; and the constructor stores that
    box in the mesh. *)
Theorem bounding_box_of_referenced_vertices vertices faces :
  valid_faces vertices faces →
  (∀ p, p ∈ vertices → length p = 3%nat) →
  (∃ i, referenced faces i) →
  ∃ bbox,
    Mesh.get_bounding_box lt vertices faces = Ok bbox
    ∧ length bbox = 3%nat
    ∧ (∀ k, (k < 3)%nat →
         ∃ lo hi,
           bbox !! k = Some [lo; hi]
           ∧ axis_coord vertices faces k lo
           ∧ (∀ x, axis_coord vertices faces k x → lt x lo = false)
           ∧ axis_coord vertices faces k hi
           ∧ (∀ x, axis_coord vertices faces k x → lt hi x = false))
    ∧ (∀ vertices',
         (∀ p, p ∈ vertices' → length p = 3%nat) →
         (∀ i, referenced faces i → index vertices' i = index vertices i) →
         Mesh.get_bounding_box lt vertices' faces = Ok bbox)
    ∧ (∀ st, ∃ rows st',
         Mesh.init lt vertices faces st = Ok (mkMesh vertices faces rows, st')
         ∧ Mesh.bounding_box_value st' (mkMesh vertices faces rows) = Ok bbox).
Proof.
  intros Hvalid Hdim [i0 Hi0].
  destruct (get_vertices_spec vertices faces Hvalid) as (vs & Hvs & Hmem).
  assert (Hi0v : 0 ≤ i0 < Z.of_nat (length vertices))
    by (destruct Hi0 as (face & ? & ?); by eapply Hvalid).
  destruct (index_nonneg vertices 0) as (v0 & Hv0 & Hv0'); [lia|].
  assert (Hlen0 : length v0 = 3%nat)
    by (apply Hdim; by eapply list_elem_of_lookup_2).
  assert (Hne : concat vs ≠ []).
  { destruct (index_nonneg vertices i0 Hi0v) as (p & _ & Hp).
    assert (p ∈ concat vs) as Hin by (apply Hmem; eauto).
    intros Heq. rewrite Heq in Hin. by apply elem_of_nil in Hin. }
  assert (Hrow : ∀ k p, (k < 3)%nat → p ∈ concat vs → (k < length p)%nat).
  { intros k p Hk (i & _ & Hp)%Hmem. rewrite (Hdim p); [done|].
    by eapply list_elem_of_lookup_2. }
  assert (Haxis : ∀ k, (k < 3)%nat →
            ∃ lo hi, Mesh.axis_bounds lt (concat vs) (Z.of_nat k) = Ok [lo; hi]
              ∧ axis_coord vertices faces k lo
              ∧ (∀ x, axis_coord vertices faces k x → lt x lo = false)
              ∧ axis_coord vertices faces k hi
              ∧ (∀ x, axis_coord vertices faces k x → lt hi x = false)).
  { intros k Hk.
    destruct (axis_bounds_spec (concat vs) k Hne (λ p, Hrow k p Hk))
      as (lo & hi & Hb & (pl & Hpl & Hlo) & Hlow & (ph & Hph & Hhi) & Hup).
    exists lo, hi. split; [done|].
    apply Hmem in Hpl as (il & ? & ?). apply Hmem in Hph as (ih & ? & ?).
    split_and!.
    - by exists il, pl.
    - intros x (i & p & ? & ? & ?). eapply Hlow; [|done]. apply Hmem. eauto.
    - by exists ih, ph.
    - intros x (i & p & ? & ? & ?). eapply Hup; [|done]. apply Hmem. eauto. }
  destruct (Haxis 0%nat) as (lo0 & hi0 & Hb0 & H0); [lia|].
  destruct (Haxis 1%nat) as (lo1 & hi1 & Hb1 & H1); [lia|].
  destruct (Haxis 2%nat) as (lo2 & hi2 & Hb2 & H2); [lia|].
  assert (Hbox : mapM (Mesh.axis_bounds lt (concat vs)) (range 3)
                 = Ok [[lo0; hi0]; [lo1; hi1]; [lo2; hi2]]).
  { apply mapM_Ok_Forall2. unfold range. simpl. repeat constructor; done. }
  assert (Hbb : Mesh.get_bounding_box lt vertices faces
                = Ok [[lo0; hi0]; [lo1; hi1]; [lo2; hi2]]).
  { rewrite (get_bounding_box_unfold _ _ _ _ Hvs Hv0), Hlen0. exact Hbox. }
  exists [[lo0; hi0]; [lo1; hi1]; [lo2; hi2]]. split_and!.
  - exact Hbb.
  - reflexivity.
  - intros k Hk.
    destruct k as [|[|[|k]]]; [| | |lia]; simpl; eauto.
  - intros vertices' Hdim' Hsame.
    assert (Hvs' : Mesh.get_vertices vertices' faces = Ok vs).
    { rewrite <- Hvs. unfold Mesh.get_vertices. apply mapM_Ok_ext.
      intros face Hf. apply mapM_Ok_ext. intros i Hi. apply Hsame. by exists face. }
    assert (Hne' : (0 < length vertices')%nat).
    { destruct (index_nonneg vertices i0 Hi0v) as (p & Hp & _).
      rewrite <- (Hsame i0 Hi0) in Hp. apply index_Ok_nonneg in Hp; [|lia].
      apply lookup_lt_Some in Hp. lia. }
    destruct (index_nonneg vertices' 0) as (v0' & Hv0idx & Hv0lk); [lia|].
    rewrite (get_bounding_box_unfold _ _ _ _ Hvs' Hv0idx).
    rewrite (Hdim' v0'); [exact Hbox|]. by eapply list_elem_of_lookup_2.
  - intros st.
    destruct (alloc_all [[lo0; hi0]; [lo1; hi1]; [lo2; hi2]] st)
      as [rows st'] eqn:Halloc.
    exists rows, st'. split.
    + unfold Mesh.init. rewrite Hbb. cbn [mbind outcome_bind]. by rewrite Halloc.
    + by apply alloc_all_spec in Halloc as (_ & _ & ?).
Qed.
End BoundingBox.

Lemma cube_bounding_box :
  ∃ bbox,
    Mesh.get_bounding_box Z.ltb cube_vertices cube_faces = Ok bbox
    ∧ bbox = [[0; 1]; [0; 1]; [0; 1]].
Proof.
  destruct (bounding_box_of_referenced_vertices Z.ltb Z.ltb_irrefl
              (λ x y z Hxy Hyz, proj2 (Z.ltb_lt x z)
                 (Z.lt_trans x y z (proj1 (Z.ltb_lt x y) Hxy) (proj1 (Z.ltb_lt y z) Hyz)))
              (λ x y Hxy Hyx, Z.le_antisymm x y
                 (proj1 (Z.ltb_ge y x) Hyx) (proj1 (Z.ltb_ge x y) Hxy))
              cube_vertices cube_faces)
    as (bbox & Hbb & _).
  - intros face i Hf Hi.
    assert (Hall : Forall (Forall (λ i, 0 ≤ i < 8)) cube_faces)
      by (repeat constructor; lia).
    rewrite Forall_forall in Hall. specialize (Hall face Hf).
    rewrite Forall_forall in Hall. apply (Hall i Hi).
  - intros p Hp.
    assert (Hall : Forall (λ p : list Z, length p = 3%nat) cube_vertices)
      by (repeat constructor).
    rewrite Forall_forall in Hall. by apply Hall.
  - exists 0, [0; 1; 2]. split; [left | left].
  - exists bbox. split; [exact Hbb|].
    assert (Ok bbox = Ok [[0; 1]; [0; 1]; [0; 1]]) as [= ->]; [|done].
    rewrite <- Hbb. vm_compute. reflexivity.
Defined.

(** ** The aggregate bounding box of a model *)

Section ModelBoundingBox.
Context {coord : Type} (lt : coord → coord → bool).

(** With a single mesh the loop body never runs: nothing is written. *)
Lemma model_bounding_box_single (mesh : Mesh coord) (st : Store coord) :
  Model.get_bounding_box lt [mesh] st = (Ok (bounding_box mesh), st).
Proof. reflexivity. Qed.

Lemma index_elem_of {X} (l : list X) i x : index l i = Ok x → x ∈ l.
Proof.
  unfold index. cbv zeta. case_decide; [|discriminate].
  destruct (l !! _) eqn:Hl; [|discriminate]. intros [= <-].
  by eapply list_elem_of_lookup_2.
Qed.

(** The only rows written by the loop body are rows of [bbox], that is
    rows of the first mesh. *)
Lemma merge_axis_frame bbox (mesh : Mesh coord) i st r st' :
  Model.merge_axis lt bbox mesh i st = (r, st') →
  ∀ l, l ∉ bbox → cells st' !! l = cells st !! l.
Proof.
  unfold Model.merge_axis, mbind, M_bind, lift, modify, assign.
  destruct (index (bounding_box mesh) i); simpl; try (intros [= <- <-]; done).
  destruct (index bbox i) as [row| |] eqn:Hrow; simpl; try (intros [= <- <-]; done).
  apply index_elem_of in Hrow.
  repeat (match goal with
          | |- context [match ?x with _ => _ end] => destruct x eqn:?
          end; simpl; try (intros [= <- <-]; done)).
  all: intros [= <- <-] l Hl; simpl;
    rewrite ?lookup_insert_ne by (intros ->; done); done.
Qed.

Lemma for_each_frame {X} (P : Store coord → Store coord → Prop) (xs : list X) body :
  (∀ st, P st st) → (∀ a b c, P a b → P b c → P a c) →
  (∀ x st r st', body x st = (r, st') → P st st') →
  ∀ st r st', for_each xs body st = (r, st') → P st st'.
Proof.
  intros Hrefl Htrans Hbody. induction xs as [|x xs IH]; intros st r st'; simpl.
  - intros [= <- <-]. apply Hrefl.
  - unfold mbind, M_bind. destruct (body x st) as [[[]| |] st1] eqn:Hx.
    + intros H. eapply Htrans; [by eapply Hbody|by eapply IH].
    + intros [= <- <-]. by eapply Hbody.
    + intros [= <- <-]. by eapply Hbody.
Qed.

(** [Model.get_bounding_box] writes to no row but those of the first mesh;
    the rows of every other mesh, as long as they are not shared with the
    first, keep their value. *)
Lemma model_bounding_box_frame (data : list (Mesh coord)) st r st' m0 :
  Model.get_bounding_box lt data st = (r, st') →
  index data 0 = Ok m0 →
  ∀ l, l ∉ bounding_box m0 → cells st' !! l = cells st !! l.
Proof.
  unfold Model.get_bounding_box. intros Hrun Hm0.
  unfold mbind at 1 in Hrun. unfold M_bind, lift in Hrun. rewrite Hm0 in Hrun.
  unfold mbind at 1 in Hrun. unfold M_bind in Hrun.
  destruct (for_each _ _ st) as [res st1] eqn:Hloop.
  assert (Hframe : ∀ l, l ∉ bounding_box m0 → cells st1 !! l = cells st !! l).
  { revert Hloop.
    apply (for_each_frame
             (λ a b, ∀ l, l ∉ bounding_box m0 → cells b !! l = cells a !! l)).
    - done.
    - intros a b c Hab Hbc l Hl. rewrite Hbc, Hab; done.
    - intros mesh s1 r1 s2.
      apply (for_each_frame
               (λ a b, ∀ l, l ∉ bounding_box m0 → cells b !! l = cells a !! l)).
      + done.
      + intros a b c Hab Hbc l Hl. rewrite Hbc, Hab; done.
      + intros i a r2 b. apply merge_axis_frame. }
  destruct res; simpl in Hrun; injection Hrun as <- <-; exact Hframe.
Qed.
End ModelBoundingBox.

(** C7 at a failing input.  A model holds two meshes; the call of
    [Model.get_bounding_box] returns the rows of the first mesh and has
    overwritten them with the aggregate box: the stored bounding box of the
    first mesh is no longer the one computed at its construction. *)
Theorem model_bounding_box_overwrites_first_mesh :
  match two_meshes with
  | Ok (data, st) =>
      let '(bbox, st') := Model.get_bounding_box Z.ltb data st in
      mapM (Mesh.bounding_box_value st) data
        = Ok [[[0; 1]; [0; 1]; [0; 0]]; [[2; 3]; [2; 3]; [2; 2]]]
      ∧ bbox = (bounding_box <$> index data 0)
      ∧ mapM (Mesh.bounding_box_value st') data
        = Ok [[[0; 3]; [0; 3]; [0; 2]]; [[2; 3]; [2; 3]; [2; 2]]]
  | _ => False
  end.
Proof. vm_compute. split_and!; reflexivity. Qed.

(** ** Watch sessions *)

(** Once a handler has an observer, [follow] stops at its first statement:
    [unschedule] is given the followed file, not the watch that [schedule]
    returned, and the lookup fails.  Nothing has changed when the
    [KeyError] leaves [follow]. *)
Lemma follow_with_observer_raises start_emitter (w : Watching) (file : pyval)
    (now : Z) o ob :
  observer (this w) = Some o →
  observers w !! o = Some ob →
  BaseFileHandler.follow start_emitter file now w = (Raise KeyError, w).
Proof.
  intros Ho Hob. unfold BaseFileHandler.follow.
  unfold mbind at 1. unfold M_bind, gets. rewrite Ho.
  unfold mbind at 1. unfold M_bind.
  unfold mbind at 1. unfold M_bind.
  unfold BaseFileHandler.on_observer at 1. rewrite Hob.
  destruct w as [h obs]. simpl in *.
  destruct (observed_file h); simpl; by rewrite list_insert_id.
Qed.

(** C3 at a failing input.  The first [follow] succeeds and leaves one
    running observer on the parent directory; the second [follow], on
    another path, raises [KeyError]: the first session is neither
    unscheduled nor stopped nor joined, no observer is created, and the
    handler still follows the first file. *)
Theorem follow_twice_raises :
  let first := BaseFileHandler.follow watchable (PStr "/a/x.stl") 10 initial_watching in
  let second := BaseFileHandler.follow watchable (PStr "/b/y.stl") 20 first.2 in
  first.1 = Ok tt
  ∧ active_sessions first.2 = [mkObserver [mkWatch "/a" false] Started]
  ∧ second.1 = Raise KeyError
  ∧ second.2 = first.2
  ∧ active_sessions second.2 = [mkObserver [mkWatch "/a" false] Started]
  ∧ observed_file (this second.2) = Some (PStr "/a/x.stl").
Proof. vm_compute. split_and!; reflexivity. Qed.

(** ** The reload mailbox and the poll loop *)

Section Mailbox.
Context {coord : Type} (lt : coord → coord → bool).
Context (read_mesh : pyval → outcome (list (list coord) * list (list Z))).
Context (view_plot : list (Mesh coord) → outcome unit).

Local Abbreviation file_reloader := (Controller.file_reloader lt read_mesh view_plot).
Local Abbreviation load_file_in_viewer :=
  (Controller.load_file_in_viewer lt read_mesh view_plot).
Local Abbreviation reload := Controller.DefaultFileHandler.reload.

Implicit Types (c : Controller coord) (p : pyval).

(** Loading touches the model and the view only; it records the path it
    was given, whether or not it fails. *)
Lemma load_file_in_viewer_frame p c r c' :
  load_file_in_viewer p c = (r, c') →
  reload_lock c' = reload_lock c
  ∧ reload_file c' = reload_file c
  ∧ after_calls c' = after_calls c
  ∧ loads c' = loads c ++ [p]
  ∧ file_handlers c' = file_handlers c
  ∧ commands c' = commands c.
Proof.
  unfold Controller.load_file_in_viewer, Controller.load_file, Controller.append_mesh.
  unfold mbind, M_bind, modify, lift, gets. simpl.
  destruct (read_mesh p) as [[vs fs]| |]; simpl; try (intros [= <- <-]; done).
  destruct (Model.append_mesh lt vs fs [] (model_store c)) as [[d st]| |]; simpl;
    try (intros [= <- <-]; done).
  destruct (view_plot d); simpl; intros [= <- <-]; done.
Qed.

(** A watcher-side [reload] on a free lock writes the slot and frees the
    lock again. *)
Lemma reload_free c p :
  reload_lock c = false →
  reload p c = (Ok tt, set_reload_file (Some p) c).
Proof.
  intros Hfree. destruct c. simpl in Hfree. subst. reflexivity.
Qed.

(** A watcher-side [reload] on a held lock waits. *)
Lemma reload_held c p : reload_lock c = true → reload p c = (Wait, c).
Proof.
  intros Hheld. unfold Controller.DefaultFileHandler.reload, mbind, M_bind.
  unfold Controller.acquire_blocking. by rewrite Hheld.
Qed.

(** A tick that finds the lock held does nothing but reschedule itself. *)
Lemma file_reloader_held c :
  reload_lock c = true → file_reloader c = (Ok tt, log_after c).
Proof.
  intros Hheld. unfold Controller.file_reloader, mbind, M_bind.
  unfold Controller.acquire_nonblocking. by rewrite Hheld.
Qed.

(** A tick that finds the lock free and a non-empty path in the slot. *)
Lemma file_reloader_pending c p :
  reload_lock c = false → reload_file c = Some p → truthy p = true →
  file_reloader c
  = match load_file_in_viewer p (set_reload_lock true c) with
    | (Ok _, c') => (Ok tt, log_after (set_reload_lock false (set_reload_file None c')))
    | (Raise e, c') => (Raise e, c')
    | (Wait, c') => (Wait, c')
    end.
Proof.
  intros Hfree Hslot Htruthy.
  unfold Controller.file_reloader, mbind, M_bind.
  unfold Controller.acquire_nonblocking. rewrite Hfree.
  unfold gets. simpl. rewrite Hslot, Htruthy.
  destruct (load_file_in_viewer p (set_reload_lock true c)) as [[[]| |] c'] eqn:Hload;
    try reflexivity.
  apply load_file_in_viewer_frame in Hload as (Hlock & _).
  unfold modify, Controller.release. simpl. rewrite Hlock. reflexivity.
Qed.

(** A tick that finds the lock free and nothing to load: an empty slot or
    an empty path. *)
Lemma file_reloader_idle c :
  reload_lock c = false →
  (reload_file c = None ∨ ∃ p, reload_file c = Some p ∧ truthy p = false) →
  file_reloader c = (Ok tt, log_after (set_reload_file None c)).
Proof.
  intros Hfree Hslot. destruct c as [fh lk rf d st ld pl cm af]. simpl in *. subst lk.
  destruct Hslot as [->|(p & -> & Hp)].
  - reflexivity.
  - unfold Controller.file_reloader, mbind, M_bind, gets. simpl. rewrite Hp. reflexivity.
Qed.


End Mailbox.





(** ** Handler dispatch *)

Section Dispatch.
Context {coord : Type}.
Implicit Types (c : Controller coord) (path : pyval).

(** C4, as amended.  [get_file_handler] returns the handler stored under
    the suffix exactly as it is spelt in the path, and the default handler
    when there is none: with the table built at start-up, [.py] gives the
    Python handler, [.scad] the OpenSCAD handler, and every other suffix,
    upper-case spellings included, the default handler. *)
Theorem get_file_handler_exact_suffix :
  (∀ c path,
     (Controller.get_file_handler path c).1
     = Ok (default default_handler (file_handlers c !! suffix (Path path))))
  ∧ (∀ path,
       (Controller.get_file_handler path (@initial_controller coord)).1
       = Ok (if decide (suffix (Path path) = ".py") then py_handler
             else if decide (suffix (Path path) = ".scad") then scad_handler
             else default_handler)).
Proof.
  assert (Hany : ∀ c path,
     (Controller.get_file_handler path c).1
     = Ok (default default_handler (file_handlers c !! suffix (Path path)))).
  { intros c path. unfold Controller.get_file_handler.
    destruct (file_handlers c !! suffix (Path path)); reflexivity. }
  split; [exact Hany|].
  intros path. rewrite Hany. f_equal. simpl. unfold initial_file_handlers.
  case_decide as Hpy.
  - rewrite Hpy. reflexivity.
  - case_decide as Hscad.
    + rewrite Hscad. reflexivity.
    + rewrite lookup_insert_ne by done. rewrite lookup_insert_ne by done.
      by rewrite lookup_empty.
Qed.

(** C9, as amended.  [get_file_handler] leaves the table as it is when the
    suffix has an entry; when it has none, the table gains the entry from
    that suffix to the default handler.  Entries already present are never
    changed, and nothing else of the controller is. *)
Theorem get_file_handler_table_effect c path :
  let key := suffix (Path path) in
  let c' := (Controller.get_file_handler path c).2 in
  (is_Some (file_handlers c !! key) → c' = c)
  ∧ (file_handlers c !! key = None →
       file_handlers c' = <[key := default_handler]> (file_handlers c)
       ∧ dom (file_handlers c') = {[key]} ∪ dom (file_handlers c))
  ∧ file_handlers c ⊆ file_handlers c'
  ∧ c' = set_file_handlers (file_handlers c') c.
Proof.
  intros key c'. subst c'. unfold Controller.get_file_handler. fold key.
  destruct (file_handlers c !! key) as [h|] eqn:Hkey; simpl.
  - split_and!.
    + done.
    + intros [=].
    + done.
    + by destruct c.
  - split_and!.
    + intros [? [=]].
    + intros _. split; [done|]. apply dom_insert_L.
    + by apply insert_subseteq.
    + reflexivity.
Qed.
End Dispatch.

Lemma get_file_handler_known_suffix :
  (Controller.get_file_handler (PStr "model.py") (@initial_controller Z)).2
  = initial_controller.
Proof.
  destruct (get_file_handler_table_effect (@initial_controller Z) (PStr "model.py"))
    as (Hknown & _).
  apply Hknown. exists py_handler. reflexivity.
Defined.

(** The claim C4 as stated fails: [model.PY] and [model.py] have suffixes
    that differ only in letter case, the lower-cased suffix [.py] is mapped
    to the Python handler, and [model.PY] resolves to the default handler. *)
Lemma dispatch_is_case_sensitive :
  lower (suffix (Path (PStr "model.PY"))) = suffix (Path (PStr "model.py"))
  ∧ initial_file_handlers !! lower (suffix (Path (PStr "model.PY"))) = Some py_handler
  ∧ (Controller.get_file_handler (PStr "model.py") (@initial_controller Z)).1
    = Ok py_handler
  ∧ (Controller.get_file_handler (PStr "model.PY") (@initial_controller Z)).1
    = Ok default_handler.
Proof. vm_compute. split_and!; reflexivity. Qed.

(** The claim C9 as stated fails: looking up [mesh.stl], whose suffix has
    no entry, adds the entry [.stl] to the table. *)
Lemma lookup_of_unmapped_suffix_grows_table :
  let c' := (Controller.get_file_handler (PStr "mesh.stl") (@initial_controller Z)).2 in
  file_handlers (@initial_controller Z) !! ".stl" = None
  ∧ file_handlers c' !! ".stl" = Some default_handler
  ∧ size (file_handlers (@initial_controller Z)) = 2%nat
  ∧ size (file_handlers c') = 3%nat.
Proof. vm_compute. split_and!; reflexivity. Qed.

(** ** Conversion of OpenSCAD files *)

Section Scad.
Context {coord : Type} (subprocess_run : list string → outcome Z).
Implicit Types (c : Controller coord) (file_path : pyval).

Local Abbreviation scad_reload := (Controller.ScadFileHandler.reload subprocess_run).

(** C8, as amended.  [ScadFileHandler.reload] first runs
    [openscad -o <out> <in>]; it runs [openscad-nightly -o <out> <in>] when,
    and only when, the first call raised [FileNotFoundError]; it fails,
    without posting anything to the mailbox, when the call it ends on
    raises; and whenever a compiler did run, whatever its exit status, it
    posts [<out>] to the mailbox. *)
Theorem scad_reload_outcomes c file_path new_file :
  reload_lock c = false →
  (p ← with_stem (Path file_path) "solidpython_temp"; with_suffix p ".stl") = Ok new_file →
  let primary := ["openscad"; "-o"; str new_file; fspath file_path] in
  let fallback := ["openscad-nightly"; "-o"; str new_file; fspath file_path] in
  let posted c0 := set_reload_file (Some (PPath new_file)) c0 in
  scad_reload file_path c
  = match subprocess_run primary with
    | Ok _ => (Ok tt, posted (log_command primary c))
    | Raise FileNotFoundError =>
        match subprocess_run fallback with
        | Ok _ => (Ok tt, posted (log_command fallback (log_command primary c)))
        | Raise e => (Raise e, log_command fallback (log_command primary c))
        | Wait => (Wait, log_command fallback (log_command primary c))
        end
    | Raise e => (Raise e, log_command primary c)
    | Wait => (Wait, log_command primary c)
    end.
Proof.
  intros Hfree Hnew primary fallback posted.
  unfold Controller.ScadFileHandler.reload.
  unfold mbind at 1. unfold M_bind, lift. rewrite Hnew.
  unfold mbind at 1. unfold M_bind, try_except, Controller.ScadFileHandler.run.
  fold primary fallback.
  destruct c as [fh lk rf d st ld pl cm af]. simpl in Hfree. subst lk.
  destruct (subprocess_run primary) as [status|e|]; [reflexivity| |reflexivity].
  destruct e; reflexivity.
Qed.
End Scad.

Lemma scad_reload_falls_back_to_nightly :
  let r := Controller.ScadFileHandler.reload only_nightly (PStr "/a/m.scad")
             (@initial_controller Z) in
  r.1 = Ok tt
  ∧ commands r.2 = [["openscad"; "-o"; "/a/solidpython_temp.stl"; "/a/m.scad"];
                    ["openscad-nightly"; "-o"; "/a/solidpython_temp.stl"; "/a/m.scad"]]
  ∧ reload_file r.2 = Some (PPath (mkPath "/" ["a"; "solidpython_temp.stl"])).
Proof.
  intros r. subst r.
  rewrite (scad_reload_outcomes only_nightly (@initial_controller Z) (PStr "/a/m.scad")
             (mkPath "/" ["a"; "solidpython_temp.stl"]) eq_refl eq_refl).
  vm_compute. split_and!; reflexivity.
Defined.

(** The claim C8 as stated fails: the compiler exits with status 1 and the
    handler still hands the output path to the mailbox, whereas it fails
    when neither executable exists. *)
Lemma scad_reload_ignores_exit_status :
  let failed := Controller.ScadFileHandler.reload openscad_exits_1 (PStr "/a/m.scad")
                  (@initial_controller Z) in
  let missing := Controller.ScadFileHandler.reload no_openscad (PStr "/a/m.scad")
                   (@initial_controller Z) in
  openscad_exits_1 ["openscad"; "-o"; "/a/solidpython_temp.stl"; "/a/m.scad"] = Ok 1
  ∧ failed.1 = Ok tt
  ∧ commands failed.2 = [["openscad"; "-o"; "/a/solidpython_temp.stl"; "/a/m.scad"]]
  ∧ reload_file failed.2 = Some (PPath (mkPath "/" ["a"; "solidpython_temp.stl"]))
  ∧ missing.1 = Raise FileNotFoundError
  ∧ reload_file missing.2 = None.
Proof. vm_compute. split_and!; reflexivity. Qed.

(** ** The unit cube *)

(** The default document has the box [0,1] on each axis and 18 edges. *)
Example cube_scenario :
  Mesh.get_bounding_box Z.ltb cube_vertices cube_faces = Ok [[0; 1]; [0; 1]; [0; 1]]
  ∧ size (Mesh.line_segments cube_faces) = 18%nat.
Proof. vm_compute. split; reflexivity. Qed.

(** * Further properties of the program *)

(** ** Starting and stopping a watch session *)

Section Follow.
Implicit Types (x : Watching) (file : pyval).

Lemma insert_last_app {X} (l : list X) (a b : X) :
  <[length l := b]> (l ++ [a]) = l ++ [b].
Proof.
  rewrite insert_app_r_alt by lia. by rewrite Nat.sub_diag.
Qed.

Lemma lookup_last_app {X} (l : list X) (a : X) : (l ++ [a]) !! length l = Some a.
Proof. rewrite lookup_app_r by lia. by rewrite Nat.sub_diag. Qed.

Context (start_emitter : ObservedWatch → outcome unit).

Local Abbreviation follow := (BaseFileHandler.follow start_emitter).

(** The run of [follow] on a handler that has no observer yet, up to the
    start of the observer. *)
Lemma follow_until_start x file now parent :
  observer (this x) = None →
  parents_0 (Path file) = Ok parent →
  follow file now x
  = match start_emitter (mkWatch (str parent) false) with
    | Ok _ =>
        (Ok tt,
         mkWatching
           (mkHandler (Some (length (observers x))) (Some file) (Some parent)
                      (Some (mkWatch (str parent) false)) (Some now))
           (observers x ++ [mkObserver [mkWatch (str parent) false] Started]))
    | Raise e =>
        (Raise e,
         mkWatching
           (mkHandler (Some (length (observers x))) (Some file) (Some parent)
                      (Some (mkWatch (str parent) false)) (last_reload (this x)))
           (observers x ++ [mkObs [mkWatch (str parent) false] [] Initial]))
    | Wait =>
        (Wait,
         mkWatching
           (mkHandler (Some (length (observers x))) (Some file) (Some parent)
                      (Some (mkWatch (str parent) false)) (last_reload (this x)))
           (observers x ++ [mkObserver [mkWatch (str parent) false] Initial]))
    end.
Proof.
  intros Hnone Hparent. destruct x as [[o f p wt l] obs]. simpl in Hnone. subst o.
  unfold BaseFileHandler.follow, mbind, M_bind, gets, BaseFileHandler.set_this,
    modify, lift, mret, M_ret. simpl. rewrite Hparent.
  unfold BaseFileHandler.on_observer. simpl.
  rewrite lookup_last_app. simpl. rewrite insert_last_app.
  rewrite lookup_last_app. unfold Observer.start. simpl.
  destruct (start_emitter (mkWatch (str parent) false)) as [[]|e|]; simpl;
    rewrite insert_last_app; try reflexivity.
  unfold Observer.remove.
  rewrite filter_cons_False by (by intros []). by rewrite filter_nil.
Qed.

(** The run of [follow] on a handler that has no observer yet, when the
    directory can be watched. *)
Lemma follow_fresh x file now parent :
  observer (this x) = None →
  parents_0 (Path file) = Ok parent →
  start_emitter (mkWatch (str parent) false) = Ok tt →
  follow file now x
  = (Ok tt,
     mkWatching
       (mkHandler (Some (length (observers x))) (Some file) (Some parent)
                  (Some (mkWatch (str parent) false)) (Some now))
       (observers x ++ [mkObserver [mkWatch (str parent) false] Started])).
Proof.
  intros Hnone Hparent Hstart.
  by rewrite (follow_until_start x file now parent Hnone Hparent), Hstart.
Qed.

(** The run of [follow] on a handler without observer, for a path without
    any component. *)
Lemma follow_no_parent x file now :
  observer (this x) = None →
  tail (Path file) = [] →
  follow file now x
  = (Raise IndexError,
     mkWatching
       (mkHandler (Some (length (observers x))) (Some file) (observed_path (this x))
                  (observer_watch (this x)) (last_reload (this x)))
       (observers x ++ [Observer.new])).
Proof.
  intros Hnone Htail. destruct x as [[o f p wt l] obs]. simpl in Hnone. subst o.
  unfold BaseFileHandler.follow, mbind, M_bind, gets, BaseFileHandler.set_this,
    modify, lift, mret, M_ret. simpl. unfold parents_0. rewrite Htail. reflexivity.
Qed.

(** Whatever its outcome, [follow] leaves the observers that existed as
    they were and adds at most one. *)
Lemma follow_observers_append x file now :
  ∃ extra, observers (follow file now x).2 = observers x ++ extra
           ∧ (length extra ≤ 1)%nat.
Proof.
  destruct (observer (this x)) as [o|] eqn:Hobs.
  - destruct (observers x !! o) as [ob|] eqn:Hob.
    + rewrite (follow_with_observer_raises start_emitter x file now o ob Hobs Hob).
      exists []. split; [by rewrite app_nil_r|simpl; lia].
    + unfold BaseFileHandler.follow, mbind, M_bind, gets. simpl. rewrite Hobs.
      unfold mbind, M_bind, BaseFileHandler.on_observer. rewrite Hob.
      exists []. split; [by rewrite app_nil_r|simpl; lia].
  - destruct (tail (Path file)) as [|n rest] eqn:Htail.
    + rewrite (follow_no_parent x file now Hobs Htail). simpl.
      eexists [_]. split; [reflexivity|simpl; lia].
    + rewrite (follow_until_start x file now (mkPath (root (Path file))
                 (removelast (tail (Path file)))) Hobs)
        by (unfold parents_0; by rewrite Htail).
      destruct (start_emitter _) as [[]|e|]; simpl;
        (eexists [_]; split; [reflexivity|simpl; lia]).
Qed.

(** X2.  On a handler that has no observer yet, [follow] of a path without
    any component (the empty path, [/], [.]) raises [IndexError] after it
    has created the observer and recorded the file: an observer that never
    starts stays attached to the handler, and every later [follow] on this
    handler raises [KeyError]. *)
Theorem follow_without_parent x file now :
  observer (this x) = None →
  tail (Path file) = [] →
  let r := follow file now x in
  r = (Raise IndexError,
       mkWatching
         (mkHandler (Some (length (observers x))) (Some file) (observed_path (this x))
                    (observer_watch (this x)) (last_reload (this x)))
         (observers x ++ [Observer.new]))
  ∧ active_sessions r.2 = active_sessions x
  ∧ ∀ file' now', follow file' now' r.2 = (Raise KeyError, r.2).
Proof.
  intros Hnone Htail r.
  assert (Hr : r = (Raise IndexError,
       mkWatching
         (mkHandler (Some (length (observers x))) (Some file) (observed_path (this x))
                    (observer_watch (this x)) (last_reload (this x)))
         (observers x ++ [Observer.new]))).
  { subst r. by apply follow_no_parent. }
  split_and!.
  - exact Hr.
  - rewrite Hr. unfold active_sessions. simpl. rewrite filter_app. simpl.
    by rewrite app_nil_r.
  - intros file' now'. rewrite Hr.
    eapply follow_with_observer_raises; [reflexivity|]. simpl. apply lookup_last_app.
Qed.

(** The observer added by a [follow] that raised on a handler without
    observer was never started. *)
Lemma follow_raised_unstarted x file now e x1 :
  observer (this x) = None →
  follow file now x = (Raise e, x1) →
  ∃ ws es, observer (this x1) = Some (length (observers x))
           ∧ observers x1 = observers x ++ [mkObs ws es Initial].
Proof.
  intros Hnone Hfollow.
  destruct (tail (Path file)) as [|n rest] eqn:Htail.
  - rewrite (follow_no_parent x file now Hnone Htail) in Hfollow.
    injection Hfollow as _ <-. by exists [], [].
  - rewrite (follow_until_start x file now (mkPath (root (Path file))
               (removelast (tail (Path file)))) Hnone) in Hfollow
      by (unfold parents_0; by rewrite Htail).
    destruct (start_emitter _) as [[]|e'|]; try discriminate.
    injection Hfollow as _ <-. by eexists _, [].
Qed.

(** X3.  [stop] on a handler without observer does nothing.  After a
    [follow] that succeeded on such a handler, [stop] ends the session:
    the observer of the handler has lost its watch and is joined, the
    other observers are as they were, and the active sessions are those
    from before the [follow].  After a [follow] that raised, the observer
    it left was never started: [stop] asks it to stop and then raises
    [RuntimeError] when it joins it. *)
Theorem stop_ends_session x file now x1 :
  observer (this x) = None →
  BaseFileHandler.stop x = (Ok tt, x)
  ∧ (follow file now x = (Ok tt, x1) →
     BaseFileHandler.stop x1
     = (Ok tt, mkWatching (this x1) (observers x ++ [mkObserver [] Joined]))
     ∧ (∃ w, active_sessions x1 = active_sessions x ++ [mkObserver [w] Started])
     ∧ active_sessions (BaseFileHandler.stop x1).2 = active_sessions x)
  ∧ (∀ e, follow file now x = (Raise e, x1) →
          BaseFileHandler.stop x1
          = (Raise RuntimeError,
             mkWatching (this x1) (observers x ++ [mkObserver [] Cancelled]))).
Proof.
  intros Hnone. split_and!.
  - unfold BaseFileHandler.stop, mbind, M_bind, gets. simpl. by rewrite Hnone.
  - intros Hfollow.
    assert (∃ parent, x1 = mkWatching
              (mkHandler (Some (length (observers x))) (Some file) (Some parent)
                         (Some (mkWatch (str parent) false)) (Some now))
              (observers x ++ [mkObserver [mkWatch (str parent) false] Started]))
      as [parent ->].
    { destruct (tail (Path file)) as [|n rest] eqn:Htail.
      - by rewrite (follow_no_parent x file now Hnone Htail) in Hfollow.
      - rewrite (follow_until_start x file now (mkPath (root (Path file))
                   (removelast (tail (Path file)))) Hnone) in Hfollow
          by (unfold parents_0; by rewrite Htail).
        destruct (start_emitter _) as [[]|e'|]; try discriminate.
        injection Hfollow as <-. by eexists. }
    assert (Hstop : BaseFileHandler.stop
              (mkWatching
                 (mkHandler (Some (length (observers x))) (Some file) (Some parent)
                            (Some (mkWatch (str parent) false)) (Some now))
                 (observers x ++ [mkObserver [mkWatch (str parent) false] Started]))
            = (Ok tt,
               mkWatching
                 (mkHandler (Some (length (observers x))) (Some file) (Some parent)
                            (Some (mkWatch (str parent) false)) (Some now))
                 (observers x ++ [mkObserver [] Joined]))).
    { unfold BaseFileHandler.stop, mbind, M_bind, gets. simpl.
      unfold BaseFileHandler.on_observer. simpl.
      rewrite lookup_last_app. simpl. rewrite insert_last_app.
      rewrite lookup_last_app. simpl. rewrite insert_last_app. reflexivity. }
    split_and!.
    + exact Hstop.
    + eexists. unfold active_sessions. simpl. by rewrite filter_app.
    + rewrite Hstop. unfold active_sessions. simpl. rewrite filter_app. simpl.
      by rewrite app_nil_r.
  - intros e Hfollow.
    destruct (follow_raised_unstarted x file now e x1 Hnone Hfollow)
      as (ws & es & Ho & Hobs).
    destruct x1 as [h1 obs1]. simpl in Ho, Hobs. subst obs1.
    unfold BaseFileHandler.stop, mbind, M_bind, gets. simpl. rewrite Ho.
    unfold mbind, M_bind, BaseFileHandler.on_observer. simpl.
    rewrite lookup_last_app. simpl. rewrite insert_last_app.
    rewrite lookup_last_app. simpl. rewrite insert_last_app. reflexivity.
Qed.

(** X1.  On a handler that has no observer yet, [follow] of a path with
    at least one component creates an observer for the parent directory
    of the path and nothing below it, and leaves the earlier observers
    untouched.  When the directory can be watched the call succeeds: the
    new observer runs and the handler records the file, the directory, the
    watch and the instant of the call.  When the start of the emitter
    raises, the exception leaves [follow]: the observer stays attached to
    the handler, never started and its watch without emitter,
    [last_reload] is not set, no session was added and every later
    [follow] on this handler raises [KeyError]. *)
Theorem follow_starts_session (x : Watching) (file : pyval) (now : Z) parent :
  observer (this x) = None →
  parents_0 (Path file) = Ok parent →
  let w := mkWatch (str parent) false in
  let r := follow file now x in
  (start_emitter w = Ok tt →
   r.1 = Ok tt
   ∧ observers r.2 = observers x ++ [mkObserver [w] Started]
   ∧ active_sessions r.2 = active_sessions x ++ [mkObserver [w] Started]
   ∧ this r.2 = mkHandler (Some (length (observers x))) (Some file) (Some parent)
                          (Some w) (Some now))
  ∧ (∀ e, start_emitter w = Raise e →
          r.1 = Raise e
          ∧ observers r.2 = observers x ++ [mkObs [w] [] Initial]
          ∧ active_sessions r.2 = active_sessions x
          ∧ this r.2 = mkHandler (Some (length (observers x))) (Some file) (Some parent)
                                 (Some w) (last_reload (this x))
          ∧ ∀ file' now', follow file' now' r.2 = (Raise KeyError, r.2)).
Proof.
  intros Hnone Hparent w r. subst r w.
  rewrite (follow_until_start _ _ _ _ Hnone Hparent). split.
  - intros ->. split_and!; try reflexivity.
    unfold active_sessions. simpl. by rewrite filter_app.
  - intros e ->. split_and!; try reflexivity.
    + unfold active_sessions. simpl. rewrite filter_app. simpl. by rewrite app_nil_r.
    + intros file' now'.
      eapply follow_with_observer_raises; [reflexivity|]. simpl. apply lookup_last_app.
Qed.
End Follow.

Lemma follow_starts_session_example :
  (let r := BaseFileHandler.follow watchable (PStr "/a/x.stl") 10 initial_watching in
   r.1 = Ok tt
   ∧ active_sessions r.2 = [mkObserver [mkWatch "/a" false] Started])
  ∧ (let r := BaseFileHandler.follow missing_directory (PStr "/a/x.stl") 10
                initial_watching in
     r.1 = Raise FileNotFoundError
     ∧ observers r.2 = [mkObs [mkWatch "/a" false] [] Initial]
     ∧ last_reload (this r.2) = None).
Proof.
  split.
  - destruct (follow_starts_session watchable initial_watching (PStr "/a/x.stl") 10
                (mkPath "/" ["a"]) eq_refl eq_refl) as [Hok _].
    destruct (Hok eq_refl) as (H1 & _ & H3 & _).
    split; [exact H1 | exact H3].
  - destruct (follow_starts_session missing_directory initial_watching
                (PStr "/a/x.stl") 10 (mkPath "/" ["a"]) eq_refl eq_refl) as [_ Hfail].
    destruct (Hfail FileNotFoundError eq_refl) as (H1 & H2 & _ & H4 & _).
    split_and!; [exact H1 | exact H2 | by rewrite H4].
Defined.

Lemma follow_cancelled_dialog :
  BaseFileHandler.follow watchable (PStr "") 10 initial_watching
  = (Raise IndexError,
     mkWatching (mkHandler (Some 0%nat) (Some (PStr "")) None None None) [Observer.new]).
Proof.
  exact (proj1 (follow_without_parent watchable initial_watching (PStr "") 10
                  eq_refl eq_refl)).
Defined.

Lemma stop_after_follow_example :
  BaseFileHandler.stop
    (BaseFileHandler.follow watchable (PStr "/a/x.stl") 10 initial_watching).2
  = (Ok tt,
     mkWatching (this (BaseFileHandler.follow watchable (PStr "/a/x.stl") 10
                         initial_watching).2)
                [mkObserver [] Joined])
  ∧ BaseFileHandler.stop
      (BaseFileHandler.follow watchable (PStr "") 10 initial_watching).2
    = (Raise RuntimeError,
       mkWatching (this (BaseFileHandler.follow watchable (PStr "") 10
                           initial_watching).2)
                  [mkObserver [] Cancelled]).
Proof.
  split.
  - destruct (stop_ends_session watchable initial_watching (PStr "/a/x.stl") 10
                (BaseFileHandler.follow watchable (PStr "/a/x.stl") 10
                   initial_watching).2 eq_refl)
      as (_ & Hstop & _).
    exact (proj1 (Hstop eq_refl)).
  - destruct (stop_ends_session watchable initial_watching (PStr "") 10
                (BaseFileHandler.follow watchable (PStr "") 10 initial_watching).2
                eq_refl)
      as (_ & _ & Hraise).
    exact (Hraise IndexError eq_refl).
Defined.

(** ** Modification events *)

Section Events.
Context {coord : Type}.
Implicit Types (w : World coord) (h : handler) (ev : event).
Implicit Type self_reload : pyval → M (Controller coord) unit.

Local Abbreviation on_modified := Controller.DefaultFileHandler.on_modified.

(** X4.  An event is ignored, and nothing at all changes, when it is a
    directory event or when its path is not, character for character, the
    string that was followed: events for sibling files of the watched
    directory never reach [reload]. *)
Theorem on_modified_ignores_other_paths h self_reload ev now w :
  (∀ src_path, ev = FileModifiedEvent src_path →
               observed_file (handler_state h w) ≠ Some (PStr src_path)) →
  on_modified h self_reload ev now w = (Ok tt, w).
Proof.
  intros Hother. destruct ev as [src_path|src_path]; [|reflexivity].
  unfold Controller.DefaultFileHandler.on_modified, mbind, M_bind, gets.
  rewrite bool_decide_eq_false_2 by (by apply Hother). reflexivity.
Qed.

(** The debounce test fails: nothing happens. *)
Lemma on_modified_debounces h self_reload src_path now last w :
  last_reload (handler_state h w) = Some last →
  now - last ≤ MINIMUM_RELOAD_TIME →
  on_modified h self_reload (FileModifiedEvent src_path) now w = (Ok tt, w).
Proof.
  intros Hlast Hsoon.
  unfold Controller.DefaultFileHandler.on_modified, mbind, M_bind, gets.
  case_bool_decide; [|reflexivity]. rewrite Hlast.
  rewrite decide_False by lia. reflexivity.
Qed.

Lemma handler_state_set_watching h x w :
  handler_state h (set_watching h x w) = this x.
Proof. by destruct h. Qed.

Lemma handler_state_set_controller h c w :
  handler_state h (set_controller c w) = handler_state h w.
Proof. by destruct h. Qed.

(** The debounce test passes: the clock is set, then [reload] runs. *)
Lemma on_modified_accepts h self_reload src_path now last w :
  observed_file (handler_state h w) = Some (PStr src_path) →
  last_reload (handler_state h w) = Some last →
  now - last > MINIMUM_RELOAD_TIME →
  let r := on_modified h self_reload (FileModifiedEvent src_path) now w in
  r.1 = (self_reload (PStr src_path) (controller w)).1
  ∧ controller r.2 = (self_reload (PStr src_path) (controller w)).2
  ∧ last_reload (handler_state h r.2) = Some now
  ∧ observed_file (handler_state h r.2) = Some (PStr src_path)
  ∧ observer (handler_state h r.2) = observer (handler_state h w)
  ∧ threads r.2 = threads w.
Proof.
  intros Hfile Hlast Hlate r. subst r.
  unfold Controller.DefaultFileHandler.on_modified, mbind, M_bind, gets.
  rewrite bool_decide_eq_true_2 by done. rewrite Hlast.
  rewrite decide_True by done.
  unfold in_handler, BaseFileHandler.set_this, modify. simpl.
  unfold in_controller.
  destruct (self_reload (PStr src_path) _) as [res c'] eqn:Hreload.
  assert (Hctrl : ∀ x, controller (set_watching h x w) = controller w)
    by (intros; by destruct h).
  rewrite Hctrl in Hreload. rewrite Hreload. simpl.
  rewrite !handler_state_set_controller, !handler_state_set_watching. simpl.
  rewrite Hfile. split_and!; try done. by destruct h.
Qed.

(** X5.  An event for the followed file that comes no later than
    [MINIMUM_RELOAD_TIME] after the last accepted instant is ignored; the
    comparison is strict, so an event exactly one second later is ignored
    too. *)
Theorem on_modified_within_window h self_reload src_path now last w :
  last_reload (handler_state h w) = Some last →
  now - last ≤ MINIMUM_RELOAD_TIME →
  on_modified h self_reload (FileModifiedEvent src_path) now w = (Ok tt, w).
Proof. apply on_modified_debounces. Qed.


(** X7.  Two events for the followed file: when the first is accepted at
    [t1], a second one at [t2] is ignored if [t2 - t1] does not exceed
    [MINIMUM_RELOAD_TIME], whatever became of the first reload, and is
    accepted if it does: one logical save gives one reload, two saves
    further apart give two. *)
Theorem on_modified_twice h self_reload src_path t1 t2 last w :
  observed_file (handler_state h w) = Some (PStr src_path) →
  last_reload (handler_state h w) = Some last →
  t1 - last > MINIMUM_RELOAD_TIME →
  let first := on_modified h self_reload (FileModifiedEvent src_path) t1 w in
  let second := on_modified h self_reload (FileModifiedEvent src_path) t2 first.2 in
  (t2 - t1 ≤ MINIMUM_RELOAD_TIME → second = (Ok tt, first.2))
  ∧ (t2 - t1 > MINIMUM_RELOAD_TIME →
       second.1 = (self_reload (PStr src_path) (controller first.2)).1
       ∧ controller second.2 = (self_reload (PStr src_path) (controller first.2)).2
       ∧ last_reload (handler_state h second.2) = Some t2).
Proof.
  intros Hfile Hlast Hlate first second.
  destruct (on_modified_accepts h self_reload src_path t1 last w Hfile Hlast Hlate)
    as (_ & _ & Hlast1 & Hfile1 & _).
  fold first in Hlast1, Hfile1. split.
  - intros Hsoon. subst second. by apply (on_modified_debounces _ _ _ _ t1).
  - intros Hlater.
    destruct (on_modified_accepts h self_reload src_path t2 t1 first.2
                Hfile1 Hlast1 Hlater) as (H1 & H2 & H3 & _).
    done.
Qed.
End Events.

Lemma sibling_event_ignored :
  Controller.DefaultFileHandler.on_modified default_handler
    Controller.DefaultFileHandler.reload (FileModifiedEvent "/a/other.stl") 5000000
    followed_world
  = (Ok tt, followed_world).
Proof.
  apply on_modified_ignores_other_paths. intros src_path [= <-]. discriminate.
Defined.

Lemma event_after_one_second_ignored :
  Controller.DefaultFileHandler.on_modified default_handler
    Controller.DefaultFileHandler.reload (FileModifiedEvent "/a/x.stl") 1000000
    followed_world
  = (Ok tt, followed_world).
Proof.
  apply (on_modified_within_window default_handler _ "/a/x.stl" 1000000 0);
    [reflexivity | vm_compute; discriminate].
Defined.


Lemma two_events_one_reload :
  let first := Controller.DefaultFileHandler.on_modified default_handler
                 Controller.DefaultFileHandler.reload (FileModifiedEvent "/a/x.stl")
                 2000000 followed_world in
  Controller.DefaultFileHandler.on_modified default_handler
    Controller.DefaultFileHandler.reload (FileModifiedEvent "/a/x.stl") 2500000 first.2
  = (Ok tt, first.2).
Proof.
  destruct (on_modified_twice default_handler Controller.DefaultFileHandler.reload
              "/a/x.stl" 2000000 2500000 0 followed_world eq_refl eq_refl eq_refl)
    as [Hsoon _].
  apply Hsoon. vm_compute. discriminate.
Defined.

(** ** More on the poll loop and the loader *)

Section Poll.
Context {coord : Type} (lt : coord → coord → bool).
Context (read_mesh : pyval → outcome (list (list coord) * list (list Z))).
Context (view_plot : list (Mesh coord) → outcome unit).

Local Abbreviation file_reloader := (Controller.file_reloader lt read_mesh view_plot).
Local Abbreviation load_file_in_viewer :=
  (Controller.load_file_in_viewer lt read_mesh view_plot).
Local Abbreviation load_file := (Controller.load_file lt read_mesh).

Implicit Types (c : Controller coord) (p : pyval).

(** X8.  A tick that finds the lock held does not wait for it: it loads
    nothing, leaves the mailbox, the model and the lock as they are, and
    schedules the next tick. *)
Theorem poll_with_lock_held c :
  reload_lock c = true →
  let r := file_reloader c in
  r.1 = Ok tt
  ∧ loads r.2 = loads c
  ∧ reload_file r.2 = reload_file c
  ∧ model_data r.2 = model_data c
  ∧ reload_lock r.2 = true
  ∧ after_calls r.2 = S (after_calls c).
Proof.
  intros Hheld r. subst r. rewrite (file_reloader_held lt read_mesh view_plot c Hheld).
  simpl. done.
Qed.

(** A tick that returns from a free lock leaves the lock free and the
    mailbox empty, and has scheduled one tick. *)
Lemma file_reloader_returns c c1 :
  reload_lock c = false →
  file_reloader c = (Ok tt, c1) →
  reload_lock c1 = false ∧ reload_file c1 = None ∧ after_calls c1 = S (after_calls c).
Proof.
  intros Hfree Hrun.
  destruct (reload_file c) as [p|] eqn:Hslot; [destruct (truthy p) eqn:Hp|].
  - rewrite (file_reloader_pending lt read_mesh view_plot c p Hfree Hslot Hp) in Hrun.
    destruct (load_file_in_viewer p _) as [[[]| |] c'] eqn:Hload; try discriminate.
    injection Hrun as <-.
    apply load_file_in_viewer_frame in Hload as (_ & _ & Hafter & _). simpl in *.
    by rewrite Hafter.
  - rewrite (file_reloader_idle lt read_mesh view_plot c Hfree) in Hrun by eauto.
    injection Hrun as <-. simpl. done.
  - rewrite (file_reloader_idle lt read_mesh view_plot c Hfree) in Hrun by eauto.
    injection Hrun as <-. simpl. done.
Qed.

(** X9.  A request is consumed once: after a tick that returned from a
    free lock, the next tick finds the mailbox empty, loads nothing and
    only schedules its successor. *)
Theorem request_consumed_once c c1 :
  reload_lock c = false →
  file_reloader c = (Ok tt, c1) →
  let r := file_reloader c1 in
  r.1 = Ok tt
  ∧ loads r.2 = loads c1
  ∧ model_data r.2 = model_data c1
  ∧ reload_file r.2 = None
  ∧ reload_lock r.2 = false
  ∧ after_calls r.2 = S (S (after_calls c)).
Proof.
  intros Hfree Hrun r. subst r.
  destruct (file_reloader_returns c c1 Hfree Hrun) as (Hlock & Hslot & Hafter).
  rewrite (file_reloader_idle lt read_mesh view_plot c1 Hlock) by eauto.
  simpl. rewrite Hafter, Hlock. done.
Qed.

(** X10.  A load that succeeds replaces the scene: whatever the model held,
    it then holds exactly one mesh, made of the vertices and faces the
    reader returned, whose stored bounding box is the one computed from
    them; the view was plotted once. *)
Theorem load_replaces_scene p c c' :
  load_file_in_viewer p c = (Ok tt, c') →
  ∃ mesh,
    model_data c' = [mesh]
    ∧ read_mesh p = Ok (vertices mesh, faces mesh)
    ∧ Mesh.bounding_box_value (model_store c') mesh
      = Mesh.get_bounding_box lt (vertices mesh) (faces mesh)
    ∧ plots c' = S (plots c).
Proof.
  unfold Controller.load_file_in_viewer, Controller.load_file, Controller.append_mesh.
  unfold mbind, M_bind, modify, lift, gets. simpl.
  destruct (read_mesh p) as [[vs fs]| |]; simpl; try discriminate.
  unfold Model.append_mesh, Mesh.init.
  destruct (Mesh.get_bounding_box lt vs fs) as [bbox| |] eqn:Hbb; simpl; try discriminate.
  destruct (alloc_all bbox (model_store c)) as [rows st'] eqn:Halloc. simpl.
  destruct (view_plot _); simpl; try discriminate.
  intros [= <-]. exists (mkMesh vs fs rows). simpl. split_and!; try done.
  rewrite Hbb. by apply alloc_all_spec in Halloc as (_ & _ & ?).
Qed.

(** X11.  A load that fails in the reader or in the construction of the
    mesh has already cleared the model: the error leaves
    [load_file_in_viewer] with an empty scene and without a call of
    [plot]; the previous meshes are gone. *)
Theorem failed_load_empties_scene p c e :
  (read_mesh p = Raise e
   ∨ ∃ vs fs, read_mesh p = Ok (vs, fs) ∧ Mesh.get_bounding_box lt vs fs = Raise e) →
  let r := load_file_in_viewer p c in
  r.1 = Raise e
  ∧ model_data r.2 = []
  ∧ plots r.2 = plots c
  ∧ loads r.2 = loads c ++ [p].
Proof.
  intros Hfail r. subst r.
  unfold Controller.load_file_in_viewer, Controller.load_file, Controller.append_mesh.
  unfold mbind, M_bind, modify, lift, gets. simpl.
  destruct Hfail as [->|(vs & fs & -> & Hbb)]; simpl; [done|].
  unfold Model.append_mesh, Mesh.init. rewrite Hbb. simpl. done.
Qed.

(** X12.  [Model.load_file] appends: the meshes already in the model stay
    in place and no row allocated before the call is written, so their
    stored bounding boxes keep their values. *)
Theorem load_file_appends p c c' :
  load_file p c = (Ok tt, c') →
  (∃ mesh, model_data c' = model_data c ++ [mesh]
           ∧ read_mesh p = Ok (vertices mesh, faces mesh))
  ∧ (∀ l, (l < next_loc (model_store c))%nat →
          cells (model_store c') !! l = cells (model_store c) !! l)
  ∧ (∀ mesh, mesh ∈ model_data c →
       (∀ l, l ∈ bounding_box mesh → (l < next_loc (model_store c))%nat) →
       Mesh.bounding_box_value (model_store c') mesh
       = Mesh.bounding_box_value (model_store c) mesh).
Proof.
  unfold Controller.load_file, Controller.append_mesh.
  unfold mbind, M_bind, modify, lift. simpl.
  destruct (read_mesh p) as [[vs fs]| |]; simpl; try discriminate.
  unfold Model.append_mesh, Mesh.init.
  destruct (Mesh.get_bounding_box lt vs fs) as [bbox| |]; simpl; try discriminate.
  destruct (alloc_all bbox (model_store c)) as [rows st'] eqn:Halloc. simpl.
  intros [= <-]. simpl.
  apply alloc_all_spec in Halloc as (_ & Hkeep & _).
  split_and!.
  - by exists (mkMesh vs fs rows).
  - exact Hkeep.
  - intros mesh _ Hold. unfold Mesh.bounding_box_value. apply mapM_Ok_ext.
    intros l Hl. unfold deref. by rewrite Hkeep by auto.
Qed.
End Poll.

Lemma poll_with_lock_held_example :
  let c : Controller Z :=
    set_reload_lock true (set_reload_file (Some (PStr "/a/x.stl")) initial_controller) in
  let r := Controller.file_reloader Z.ltb read_cube plot_ok c in
  r.1 = Ok tt ∧ loads r.2 = [] ∧ reload_file r.2 = Some (PStr "/a/x.stl").
Proof.
  destruct (poll_with_lock_held Z.ltb read_cube plot_ok
              (set_reload_lock true
                 (set_reload_file (Some (PStr "/a/x.stl")) initial_controller))
              eq_refl) as (H1 & H2 & H3 & _).
  split_and!; assumption.
Defined.

Lemma request_consumed_once_example :
  let c : Controller Z := set_reload_file (Some (PStr "/a/x.stl")) initial_controller in
  let c1 := (Controller.file_reloader Z.ltb read_cube plot_ok c).2 in
  let r := Controller.file_reloader Z.ltb read_cube plot_ok c1 in
  loads c1 = [PStr "/a/x.stl"] ∧ r.1 = Ok tt ∧ loads r.2 = loads c1.
Proof.
  intros c c1.
  destruct (request_consumed_once Z.ltb read_cube plot_ok c c1 eq_refl)
    as (H1 & H2 & _).
  - vm_compute. reflexivity.
  - split_and!; [vm_compute; reflexivity | exact H1 | exact H2].
Defined.

Lemma load_replaces_scene_example :
  let c : Controller Z := initial_controller in
  ∃ mesh,
    model_data (Controller.load_file_in_viewer Z.ltb read_cube plot_ok
                  (PStr "/a/x.stl") c).2 = [mesh]
    ∧ read_cube (PStr "/a/x.stl") = Ok (vertices mesh, faces mesh).
Proof.
  intros c.
  destruct (load_replaces_scene Z.ltb read_cube plot_ok (PStr "/a/x.stl") c
              (Controller.load_file_in_viewer Z.ltb read_cube plot_ok
                 (PStr "/a/x.stl") c).2)
    as (mesh & H1 & H2 & _).
  - vm_compute. reflexivity.
  - exists mesh. split; assumption.
Defined.

Lemma failed_load_empties_scene_example :
  let c : Controller Z :=
    (Controller.load_file_in_viewer Z.ltb read_cube plot_ok (PStr "/a/x.stl")
       initial_controller).2 in
  let r := Controller.load_file_in_viewer Z.ltb read_fails plot_ok (PStr "/a/y.stl") c in
  length (model_data c) = 1%nat ∧ r.1 = Raise ReadError ∧ model_data r.2 = [].
Proof.
  intros c.
  destruct (failed_load_empties_scene Z.ltb read_fails plot_ok (PStr "/a/y.stl") c
              ReadError) as (H1 & H2 & _).
  - left. reflexivity.
  - split_and!; [vm_compute; reflexivity | exact H1 | exact H2].
Defined.

Lemma load_file_appends_example :
  let c : Controller Z :=
    (Controller.load_file Z.ltb read_cube (PStr "/a/x.stl") initial_controller).2 in
  let c' := (Controller.load_file Z.ltb read_cube (PStr "/a/y.stl") c).2 in
  ∃ mesh, model_data c' = model_data c ++ [mesh].
Proof.
  intros c c'.
  destruct (load_file_appends Z.ltb read_cube (PStr "/a/y.stl") c c')
    as ((mesh & H1 & _) & _).
  - vm_compute. reflexivity.
  - exists mesh. exact H1.
Defined.

(** ** More on the dispatch table *)

Section Table.
Context {coord : Type}.
Implicit Types (c : Controller coord) (path : pyval).

(** X13.  Looking a path up twice gives the same handler, and the second
    lookup changes nothing: whatever entry the first lookup had to add is
    there for the second; the same holds for any other path with the same
    suffix. *)
Theorem get_file_handler_repeated c path path' :
  suffix (Path path') = suffix (Path path) →
  let first := Controller.get_file_handler path c in
  Controller.get_file_handler path' first.2 = (first.1, first.2).
Proof.
  intros Hsame first. subst first. unfold Controller.get_file_handler.
  rewrite Hsame.
  destruct (file_handlers c !! suffix (Path path)) as [h|] eqn:Hkey; simpl.
  - by rewrite Hkey.
  - by rewrite lookup_insert_eq.
Qed.

(** After any lookups, a suffix is mapped as at start-up or, if it was
    not mapped then, to the default handler. *)
Lemma lookups_table (paths : list pyval) (key : string) :
  file_handlers (lookups paths (@initial_controller coord)) !! key
  = initial_file_handlers !! key
  ∨ (initial_file_handlers !! key = None
     ∧ file_handlers (lookups paths (@initial_controller coord)) !! key
       = Some default_handler).
Proof.
  unfold lookups.
  induction paths as [|path paths IH] using rev_ind; simpl; [by left|].
  rewrite foldl_app. simpl.
  set (c := foldl _ _ paths) in *.
  unfold Controller.get_file_handler.
  destruct (file_handlers c !! suffix (Path path)) as [h|] eqn:Hkey; simpl; [exact IH|].
  destruct (decide (suffix (Path path) = key)) as [Heq|Hne].
  - rewrite Heq in Hkey |- *.
    rewrite lookup_insert_eq. destruct IH as [IH|[IH _]]; [|by right].
    right. split; [|done]. by rewrite <- IH.
  - by rewrite lookup_insert_ne.
Qed.

(** X14.  The entries that lookups add to the table never change the
    dispatch: after any sequence of lookups, every path resolves to the
    handler it would have resolved to at start-up. *)
Theorem dispatch_unchanged_by_lookups (paths : list pyval) path :
  (Controller.get_file_handler path (lookups paths (@initial_controller coord))).1
  = (Controller.get_file_handler path (@initial_controller coord)).1.
Proof.
  unfold Controller.get_file_handler.
  destruct (lookups_table paths (suffix (Path path))) as [Heq|[Hnone Hdef]].
  - rewrite Heq. simpl.
    destruct (initial_file_handlers !! suffix (Path path)); reflexivity.
  - rewrite Hdef. simpl. rewrite Hnone. reflexivity.
Qed.
End Table.

Lemma get_file_handler_repeated_example :
  let first := Controller.get_file_handler (PStr "/a/mesh.stl") (@initial_controller Z) in
  Controller.get_file_handler (PStr "/b/other.stl") first.2 = (Ok default_handler, first.2).
Proof.
  exact (get_file_handler_repeated (@initial_controller Z) (PStr "/a/mesh.stl")
           (PStr "/b/other.stl") eq_refl).
Defined.

(** ** Opening files and leaving *)

Section Open.
Context {coord : Type} (lt : coord → coord → bool).
Context (read_mesh : pyval → outcome (list (list coord) * list (list Z))).
Context (view_plot : list (Mesh coord) → outcome unit).
Context (subprocess_run : list string → outcome Z).
Context (render_script : pyval → PurePath → outcome pyval).
Context (start_emitter : ObservedWatch → outcome unit).

Local Abbreviation open :=
  (Controller.open lt read_mesh view_plot subprocess_run render_script start_emitter).
Local Abbreviation follow := (BaseFileHandler.follow start_emitter).
Local Abbreviation reload_of := (Controller.reload_of subprocess_run render_script).
Local Abbreviation file_reloader := (Controller.file_reloader lt read_mesh view_plot).

Implicit Types (w : World coord) (h : handler) (file : pyval).

Lemma handler_state_set_file_handler h h' w :
  handler_state h (set_file_handler h' w) = handler_state h w.
Proof. by destruct h. Qed.

Lemma threads_set_watching h x w : threads (set_watching h x w) = observers x.
Proof. by destruct h. Qed.

Lemma controller_set_watching h x w : controller (set_watching h x w) = controller w.
Proof. by destruct h. Qed.

Lemma file_handler_set_watching h x w :
  file_handler (set_watching h x w) = file_handler w.
Proof. by destruct h. Qed.

(** The steps of [open], one after the other. *)
Lemma open_unfold file now w :
  open file now w
  = let '(rh, c1) := Controller.get_file_handler file (controller w) in
    match rh with
    | Ok h =>
        let w1 := set_file_handler h (set_controller c1 w) in
        let '(r2, c2) := reload_of h file c1 in
        let w2 := set_controller c2 w1 in
        match r2 with
        | Ok _ =>
            let '(r3, x) := follow file now
                              (mkWatching (handler_state h w) (threads w)) in
            let w3 := set_watching h x w2 in
            match r3 with
            | Ok _ =>
                let '(r4, c4) := file_reloader c2 in
                (r4, set_controller c4 w3)
            | Raise e => (Raise e, w3)
            | Wait => (Wait, w3)
            end
        | Raise e => (Raise e, w2)
        | Wait => (Wait, w2)
        end
    | Raise e => (Raise e, set_controller c1 w)
    | Wait => (Wait, set_controller c1 w)
    end.
Proof.
  unfold Controller.open, mbind, M_bind, in_controller, in_handler, modify.
  destruct (Controller.get_file_handler file (controller w)) as [[h| |] c1]; try reflexivity.
  simpl. destruct (reload_of h file c1) as [[[]| |] c2]; try reflexivity.
  simpl. rewrite handler_state_set_controller, handler_state_set_file_handler,
    handler_state_set_controller.
  destruct (follow file now _) as [[[]| |] x]; try reflexivity.
  rewrite controller_set_watching. simpl.
  destruct (file_reloader c2) as [r4 c4]. reflexivity.
Qed.

(** X15.  [open] never stops a session and adds at most one observer:
    whatever its outcome, the observers after the call are those that
    existed before, each in the state it was in, followed by at most one
    new observer; the sessions that ran still run.  Opening a second file
    therefore leaves the first session running. *)
Theorem open_keeps_observers file now w :
  (∃ extra, threads (open file now w).2 = threads w ++ extra
            ∧ (length extra ≤ 1)%nat)
  ∧ running w `prefix_of` running (open file now w).2.
Proof.
  assert (Hthreads : ∃ extra, threads (open file now w).2 = threads w ++ extra
                              ∧ (length extra ≤ 1)%nat).
  { assert (Hsame : ∃ extra, threads w = threads w ++ extra ∧ (length extra ≤ 1)%nat)
      by (exists []; split; [by rewrite app_nil_r|simpl; lia]).
    rewrite open_unfold.
    destruct (Controller.get_file_handler file (controller w)) as [[h| |] c1]; try done.
    simpl. destruct (reload_of h file c1) as [[[]| |] c2]; try done.
    pose proof (follow_observers_append start_emitter
                  (mkWatching (handler_state h w) (threads w)) file now) as Happend.
    destruct (follow file now _) as [[[]| |] x]; simpl in Happend |- *;
      try by rewrite threads_set_watching.
    destruct (file_reloader c2) as [r4 c4]. simpl. by rewrite threads_set_watching. }
  split; [exact Hthreads|].
  destruct Hthreads as (extra & Hextra & _). unfold running. rewrite Hextra, filter_app.
  by apply prefix_app_r.
Qed.

(** X16.  [open] of a file whose handler already has an observer: the
    file is converted and posted to the mailbox by [reload], then [follow]
    raises [KeyError] and [open] ends there.  The handler still follows
    the previous file, no observer is added, and this call has not run or
    scheduled a tick of the poll loop. *)
Theorem open_on_followed_handler file now w h c1 c2 o ob :
  Controller.get_file_handler file (controller w) = (Ok h, c1) →
  reload_of h file c1 = (Ok tt, c2) →
  observer (handler_state h w) = Some o →
  threads w !! o = Some ob →
  let r := open file now w in
  r.1 = Raise KeyError
  ∧ controller r.2 = c2
  ∧ file_handler r.2 = Some h
  ∧ (∀ h', handler_state h' r.2 = handler_state h' w)
  ∧ threads r.2 = threads w.
Proof.
  intros Hdispatch Hreload Hobs Hob r. subst r.
  rewrite open_unfold, Hdispatch. simpl. rewrite Hreload.
  rewrite (follow_with_observer_raises start_emitter
             (mkWatching (handler_state h w) (threads w)) file now o ob Hobs Hob).
  simpl. rewrite controller_set_watching, file_handler_set_watching,
    threads_set_watching. simpl. split_and!; try done.
  intros h'. by destruct h, h'.
Qed.

(** X17.  [open] of a file whose handler has no observer yet, when the
    conversion succeeds and the path has a parent.  If the directory can
    be watched, the handler is made the current one, a session is started
    on the parent directory beside the sessions already running, and only
    then the first tick of a poll loop runs, on the controller that
    [reload] left; its outcome is the outcome of [open].  If the start of
    the emitter raises, [open] raises the same exception: no session is
    added, no tick runs or is scheduled, and the handler keeps an observer
    that was never started. *)
Theorem open_on_fresh_handler file now w h c1 c2 parent :
  Controller.get_file_handler file (controller w) = (Ok h, c1) →
  reload_of h file c1 = (Ok tt, c2) →
  observer (handler_state h w) = None →
  parents_0 (Path file) = Ok parent →
  let r := open file now w in
  (start_emitter (mkWatch (str parent) false) = Ok tt →
   r.1 = (file_reloader c2).1
   ∧ controller r.2 = (file_reloader c2).2
   ∧ file_handler r.2 = Some h
   ∧ handler_state h r.2
     = mkHandler (Some (length (threads w))) (Some file) (Some parent)
                 (Some (mkWatch (str parent) false)) (Some now)
   ∧ running r.2 = running w ++ [mkObserver [mkWatch (str parent) false] Started])
  ∧ (∀ e, start_emitter (mkWatch (str parent) false) = Raise e →
          r.1 = Raise e
          ∧ controller r.2 = c2
          ∧ file_handler r.2 = Some h
          ∧ handler_state h r.2
            = mkHandler (Some (length (threads w))) (Some file) (Some parent)
                        (Some (mkWatch (str parent) false))
                        (last_reload (handler_state h w))
          ∧ threads r.2 = threads w ++ [mkObs [mkWatch (str parent) false] [] Initial]
          ∧ running r.2 = running w).
Proof.
  intros Hdispatch Hreload Hobs Hparent r. subst r.
  rewrite open_unfold, Hdispatch. simpl. rewrite Hreload.
  rewrite (follow_until_start start_emitter
             (mkWatching (handler_state h w) (threads w)) file now parent Hobs Hparent).
  split.
  - intros ->. simpl. destruct (file_reloader c2) as [r4 c4]. simpl.
    rewrite handler_state_set_controller, handler_state_set_watching.
    unfold running. simpl. rewrite threads_set_watching. simpl.
    rewrite filter_app. split_and!; try done. by destruct h.
  - intros e ->. simpl.
    rewrite handler_state_set_watching, controller_set_watching,
      file_handler_set_watching.
    unfold running. rewrite threads_set_watching. simpl.
    rewrite filter_app. simpl. rewrite app_nil_r. done.
Qed.

Local Abbreviation exit := (@Controller.exit coord).

End Open.

Lemma open_second_mesh_file_example :
  let r := Controller.open Z.ltb read_cube plot_ok only_nightly render_ok watchable
             (PStr "/b/y.stl") 5000000 followed_world in
  r.1 = Raise KeyError
  ∧ reload_file (controller r.2) = Some (PStr "/b/y.stl")
  ∧ after_calls (controller r.2) = 0%nat
  ∧ observed_file (default_state r.2) = Some (PStr "/a/x.stl").
Proof.
  pose (c1 := (Controller.get_file_handler (PStr "/b/y.stl")
                 (controller followed_world)).2).
  pose (c2 := (Controller.DefaultFileHandler.reload (PStr "/b/y.stl") c1).2).
  destruct (open_on_followed_handler Z.ltb read_cube plot_ok only_nightly render_ok
              watchable (PStr "/b/y.stl") 5000000 followed_world default_handler c1 c2
              0%nat (mkObserver [mkWatch "/a" false] Started)
              eq_refl eq_refl eq_refl eq_refl) as (H1 & H2 & _ & H4 & _).
  split_and!.
  - exact H1.
  - rewrite H2. reflexivity.
  - rewrite H2. reflexivity.
  - exact (f_equal observed_file (H4 default_handler)).
Defined.

(** After a mesh file, an OpenSCAD file is opened: its handler is another
    object, and two sessions run; when the directory of the second file
    cannot be watched, only the first session runs. *)
Lemma open_scad_after_mesh_example :
  (let r := Controller.open Z.ltb read_cube plot_ok only_nightly render_ok watchable
              (PStr "/b/part.scad") 5000000 followed_world in
   r.1 = Ok tt
   ∧ file_handler r.2 = Some scad_handler
   ∧ running r.2 = [mkObserver [mkWatch "/a" false] Started;
                    mkObserver [mkWatch "/b" false] Started])
  ∧ (let r := Controller.open Z.ltb read_cube plot_ok only_nightly render_ok
                missing_directory (PStr "/b/part.scad") 5000000 followed_world in
     r.1 = Raise FileNotFoundError
     ∧ threads r.2 = [mkObserver [mkWatch "/a" false] Started;
                      mkObs [mkWatch "/b" false] [] Initial]
     ∧ after_calls (controller r.2) = 0%nat).
Proof.
  pose (c1 := (Controller.get_file_handler (PStr "/b/part.scad")
                 (controller followed_world)).2).
  pose (c2 := (Controller.ScadFileHandler.reload only_nightly (PStr "/b/part.scad") c1).2).
  split.
  - destruct (open_on_fresh_handler Z.ltb read_cube plot_ok only_nightly render_ok
                watchable (PStr "/b/part.scad") 5000000 followed_world scad_handler
                c1 c2 (mkPath "/" ["b"]) eq_refl eq_refl eq_refl eq_refl)
      as [Hok _].
    destruct (Hok eq_refl) as (H1 & _ & H3 & _ & H5).
    split_and!.
    + rewrite H1. vm_compute. reflexivity.
    + exact H3.
    + exact H5.
  - destruct (open_on_fresh_handler Z.ltb read_cube plot_ok only_nightly render_ok
                missing_directory (PStr "/b/part.scad") 5000000 followed_world
                scad_handler c1 c2 (mkPath "/" ["b"]) eq_refl eq_refl eq_refl eq_refl)
      as [_ Hfail].
    destruct (Hfail FileNotFoundError eq_refl) as (H1 & H2 & _ & _ & H5 & _).
    split_and!.
    + exact H1.
    + exact H5.
    + rewrite H2. reflexivity.
Defined.


(** ** The wireframe drawn by [View.plot] *)

Section Wireframe.
Context {coord : Type}.
Implicit Types (mesh : Mesh coord) (faces : list (list Z)).

Lemma mapM_app {X Y} (f : X → outcome Y) (l1 l2 : list X) :
  mapM f (l1 ++ l2) = (k1 ← mapM f l1; k2 ← mapM f l2; mret (k1 ++ k2)).
Proof.
  induction l1 as [|x l1 IH].
  - simpl. destruct (mapM f l2); reflexivity.
  - rewrite <- app_comm_cons, !mapM_cons, IH.
    destruct (f x); simpl; [|done|done].
    destruct (mapM f l1); simpl; [|done|done].
    destruct (mapM f l2); reflexivity.
Qed.

Lemma index_lookup {X} (l : list X) (i : Z) x :
  0 ≤ i → l !! Z.to_nat i = Some x → index l i = Ok x.
Proof.
  intros Hi Hx. unfold index. cbv zeta.
  destruct (decide (0 ≤ i)); [|lia].
  apply lookup_lt_Some in Hx as Hlt.
  destruct (decide _); [|lia]. by rewrite Hx.
Qed.

(** The index array built with [np.tile], [np.arange] and [np.repeat]. *)
Lemma outline_index_array (n start : nat) :
  zip_with Z.add (Np.tile [0; 1; 1; 2; 2; 0] n)
    (Np.repeat ((λ k : nat, 0 + 3 * Z.of_nat k) <$> seq start n) 6)
  = seq start n ≫= outline_positions.
Proof.
  revert start. induction n as [|n IH]; intros start; [reflexivity|].
  unfold Np.tile, Np.repeat in *. simpl. rewrite IH. reflexivity.
Qed.

Lemma outline_index_lengths (n : nat) (l : list Z) :
  length l = n →
  length (Np.tile [0; 1; 1; 2; 2; 0] n) = length (Np.repeat l 6).
Proof.
  intros <-. unfold Np.tile, Np.repeat.
  induction l as [|x l IH]; [reflexivity|]. simpl. by rewrite IH.
Qed.

Lemma arange_by_3 (n : nat) :
  Np.arange 0 (3 * Z.of_nat n) 3 = (λ k : nat, 0 + 3 * Z.of_nat k) <$> seq 0 n.
Proof.
  unfold Np.arange. f_equal. f_equal.
  replace (3 * Z.of_nat n - 0 + 3 - 1) with (2 + Z.of_nat n * 3) by lia.
  rewrite Z.div_add by lia. replace (2 `div` 3) with 0 by reflexivity. lia.
Qed.

(** Reading the flattened faces at the outline positions of the triangles
    number [length before], ..., gives the outlines of these triangles. *)
Lemma take_outlines (before faces : list (list Z)) :
  (∀ f, f ∈ before → length f = 3%nat) →
  (∀ f, f ∈ faces → length f = 3%nat) →
  Np.take (Np.flatten (before ++ faces))
          (seq (length before) (length faces) ≫= outline_positions)
  = Ok (faces ≫= triangle_outline).
Proof.
  unfold Np.take, Np.flatten.
  revert before. induction faces as [|f faces IH]; intros before Hbefore Hfaces;
    [reflexivity|].
  assert (Hf : length f = 3%nat) by (apply Hfaces; left).
  destruct f as [|a [|b [|c [|]]]]; try discriminate. clear Hf.
  assert (Hflat : length (concat before) = (3 * length before)%nat).
  { clear -Hbefore. induction before as [|g before IH]; [reflexivity|].
    simpl. rewrite length_app, IH by (intros; apply Hbefore; by right).
    rewrite (Hbefore g) by left. lia. }
  cbn [length seq]. rewrite bind_cons, mapM_app.
  assert (Hcorner : ∀ (j : nat) x,
            [a; b; c] !! j = Some x →
            index (concat (before ++ [a; b; c] :: faces))
                  (Z.of_nat j + 3 * Z.of_nat (length before)) = Ok x).
  { intros j x Hj. apply index_lookup; [lia|].
    rewrite concat_app. simpl.
    rewrite lookup_app_r by (rewrite Hflat; lia).
    replace (Z.to_nat (Z.of_nat j + 3 * Z.of_nat (length before)) - length (concat before))%nat
      with j by (rewrite Hflat; lia).
    apply lookup_lt_Some in Hj as Hlt. simpl in Hlt.
    change (a :: b :: c :: concat faces) with ([a; b; c] ++ concat faces).
    by rewrite lookup_app_l. }
  assert (Hhead : mapM (index (concat (before ++ [a; b; c] :: faces)))
                       (outline_positions (length before))
                  = Ok [a; b; b; c; c; a]).
  { apply mapM_Ok_Forall2. unfold outline_positions.
    repeat constructor.
    - apply (Hcorner 0%nat). reflexivity.
    - apply (Hcorner 1%nat). reflexivity.
    - apply (Hcorner 1%nat). reflexivity.
    - apply (Hcorner 2%nat). reflexivity.
    - apply (Hcorner 2%nat). reflexivity.
    - apply (Hcorner 0%nat). reflexivity. }
  rewrite Hhead. simpl.
  specialize (IH (before ++ [[a; b; c]])).
  rewrite <- app_assoc in IH. simpl in IH.
  rewrite length_app in IH. simpl in IH.
  replace (length before + 1)%nat with (S (length before)) in IH by lia.
  rewrite IH.
  - reflexivity.
  - intros g [Hg|Hg%list_elem_of_singleton]%elem_of_app; [by apply Hbefore|by subst].
  - intros g Hg. apply Hfaces. by right.
Qed.

Lemma wireframe_outline mesh :
  (∀ f, f ∈ faces mesh → length f = 3%nat) →
  View.wireframe mesh = Np.take (vertices mesh) (faces mesh ≫= triangle_outline).
Proof.
  intros Htri. unfold View.wireframe.
  rewrite arange_by_3. unfold Np.add.
  rewrite decide_True
    by (apply outline_index_lengths; by rewrite length_fmap, length_seq).
  simpl. rewrite outline_index_array.
  pose proof (take_outlines [] (faces mesh)) as Htake. simpl in Htake.
  rewrite Htake; [reflexivity| |exact Htri].
  intros f Hf. by apply elem_of_nil in Hf.
Qed.

(** X19.  For a mesh whose faces are all triangles, the wireframe branch
    of [plot] hands to the line visual, face after face, the positions of
    the corners [a, b, b, c, c, a] of each face [a, b, c]: three segments
    per face along its own boundary, six positions per face, an edge
    shared by two faces being drawn once for each. *)
Theorem wireframe_of_triangles mesh :
  (∀ f, f ∈ faces mesh → length f = 3%nat) →
  View.wireframe mesh = Np.take (vertices mesh) (faces mesh ≫= triangle_outline)
  ∧ length (faces mesh ≫= triangle_outline) = (6 * length (faces mesh))%nat.
Proof.
  intros Htri. split; [by apply wireframe_outline|].
  revert Htri. generalize (faces mesh). intros l.
  induction l as [|f l IH]; intros Htri; [reflexivity|].
  assert (Hf : length f = 3%nat) by (apply Htri; left).
  destruct f as [|a [|b [|c [|]]]]; try discriminate.
  rewrite bind_cons, length_app, IH by (intros; apply Htri; by right).
  simpl. lia.
Qed.

(** What the loops of [plot] keep: the visuals already in the view stay
    in front, the camera flag and the count of detached views are not
    touched, and the loops run to their end only if every plot type they
    met is a known one. *)
Lemma draw_invariant (steps : list (Mesh coord * string)) (v : View coord) xs :
  vpview v = Some xs →
  (∃ ys, vpview (View.draw steps v).2 = Some (xs ++ ys))
  ∧ turntable (View.draw steps v).2 = turntable v
  ∧ detached (View.draw steps v).2 = detached v
  ∧ ((View.draw steps v).1 = Ok true →
     ∀ s, s ∈ steps → s.2 = "solid" ∨ s.2 = "wireframe").
Proof.
  revert v xs. induction steps as [|[mesh type] rest IH]; intros v xs Hv.
  - simpl. split_and!; [exists []; by rewrite app_nil_r|done|done|].
    intros _ s Hs. by apply elem_of_nil in Hs.
  - simpl. destruct (decide (type = "solid")) as [->|Hsolid].
    + unfold mbind, M_bind, View.add_visual. rewrite Hv.
      edestruct (IH (mkView (Some (xs ++ [MeshVisual (vertices mesh) (faces mesh)]))
                            (turntable v) (detached v)))
        as ([ys Hys] & Ht & Hd & Hall); [reflexivity|].
      split_and!; [|exact Ht|exact Hd|].
      * eexists. rewrite Hys, <- app_assoc. reflexivity.
      * intros Hok s [->|Hs]%elem_of_cons; [by left|by apply Hall].
    + destruct (decide (type = "wireframe")) as [->|Hwire].
      * unfold mbind, M_bind, lift.
        destruct (View.wireframe mesh) as [pos| |]; simpl.
        -- unfold View.add_visual. rewrite Hv.
           edestruct (IH (mkView (Some (xs ++ [LineVisual pos]))
                                 (turntable v) (detached v)))
             as ([ys Hys] & Ht & Hd & Hall); [reflexivity|].
           split_and!; [|exact Ht|exact Hd|].
           ++ eexists. rewrite Hys, <- app_assoc. reflexivity.
           ++ intros Hok s [->|Hs]%elem_of_cons; [by right|by apply Hall].
        -- split_and!; [exists []; by rewrite app_nil_r|done|done|done].
        -- split_and!; [exists []; by rewrite app_nil_r|done|done|done].
      * simpl. split_and!; [exists []; by rewrite app_nil_r|done|done|done].
Qed.

(** The loops of [plot] for the default types, on triangle meshes whose
    outlines can be read. *)
Lemma draw_default (data : list (Mesh coord)) poss xs t d :
  (∀ m, m ∈ data → ∀ f, f ∈ faces m → length f = 3%nat) →
  mapM (λ m, Np.take (vertices m) (faces m ≫= triangle_outline)) data = Ok poss →
  View.draw (list_prod data ["solid"; "wireframe"]) (mkView (Some xs) t d)
  = (Ok true,
     mkView (Some (xs ++ concat (zip_with
                     (λ m pos, [MeshVisual (vertices m) (faces m); LineVisual pos])
                     data poss))) t d).
Proof.
  revert poss xs. induction data as [|m data IH]; intros poss xs Htri Hposs.
  - injection Hposs as <-. simpl. by rewrite app_nil_r.
  - rewrite mapM_cons in Hposs.
    apply bind_Ok in Hposs as (pos & Hpos & Hposs).
    apply bind_Ok in Hposs as (poss' & Hposs' & [= <-]).
    change (list_prod (m :: data) ["solid"; "wireframe"])
      with ((m, "solid") :: (m, "wireframe") :: list_prod data ["solid"; "wireframe"]).
    cbn [View.draw].
    rewrite decide_True by done.
    rewrite decide_False by done. rewrite decide_True by done.
    unfold mbind at 1. unfold M_bind at 1. unfold View.add_visual at 1.
    cbn [vpview turntable detached].
    unfold mbind at 1. unfold M_bind at 1. unfold lift.
    rewrite wireframe_outline by (apply (Htri m); by left). rewrite Hpos.
    unfold mbind at 1. unfold M_bind at 1. unfold View.add_visual at 1.
    cbn [vpview turntable detached].
    rewrite IH with (poss := poss')
      by (try done; intros m' Hm'; apply (Htri m'); by right).
    simpl. by rewrite <- !app_assoc.
Qed.
End Wireframe.

Lemma wireframe_of_cube :
  View.wireframe (mkMesh cube_vertices cube_faces [])
  = Np.take cube_vertices (cube_faces ≫= triangle_outline).
Proof.
  apply (wireframe_of_triangles (mkMesh cube_vertices cube_faces [])).
  intros f Hf.
  assert (Hall : Forall (λ f : list Z, length f = 3%nat) cube_faces)
    by (repeat constructor).
  rewrite Forall_forall in Hall. by apply Hall.
Defined.

Section Plot.
Context {coord : Type}.
Implicit Types (data : list (Mesh coord)) (v : View coord).

(** X20.  Whatever is plotted, [plot] leaves a new view that starts with
    the axis, and has detached the earlier view if there was one.  The
    turntable camera is on the new view only if [plot] returned normally
    and, unless the model is empty, every requested plot type, once
    stripped of the white space around it, is [solid] or [wireframe]:
    with a single unknown type and a mesh to draw the view is left
    without a camera. *)
Theorem plot_camera_only_when_complete data types v :
  (∃ ys, vpview (View.plot data types v).2 = Some (XYZAxis :: ys))
  ∧ detached (View.plot data types v).2
    = match vpview v with Some _ => S (detached v) | None => detached v end
  ∧ (turntable (View.plot data types v).2 = true →
     (View.plot data types v).1 = Ok tt
     ∧ (data = [] ∨ ∀ t, t ∈ Str.strip <$> Str.split "+" types →
                         t = "solid" ∨ t = "wireframe")).
Proof.
  unfold View.plot, mbind, M_bind, modify.
  set (steps := list_prod data (Str.strip <$> Str.split "+" types)).
  destruct (draw_invariant steps (View.clear v) [XYZAxis] eq_refl)
    as ([ys Hys] & Ht & Hd & Hall).
  destruct (View.draw steps (View.clear v)) as [[[|]| |] v1] eqn:Hdraw;
    simpl in *.
  - split_and!; [by eexists|done|]. intros _. split; [done|].
    destruct data as [|m data']; [by left|right].
    intros t Ht'. apply (Hall eq_refl (m, t)).
    apply list_elem_of_In, in_prod; apply list_elem_of_In; [by left|done].
  - split_and!; [by eexists|done|]. intros Hcam. congruence.
  - split_and!; [by eexists|done|]. intros Hcam. congruence.
  - split_and!; [by eexists|done|]. intros Hcam. congruence.
Qed.

(** X21.  The call [plot()] of the program, with the default types
    [solid + wireframe], on meshes of triangles whose indices are all
    positions of vertices: the new view holds the axis and then, mesh
    after mesh in the order of the model, the surface of the mesh followed
    by its outline; the camera is installed. *)
Theorem plot_default_scene data poss v :
  (∀ m, m ∈ data → ∀ f, f ∈ faces m → length f = 3%nat) →
  mapM (λ m, Np.take (vertices m) (faces m ≫= triangle_outline)) data = Ok poss →
  View.plot data "solid + wireframe" v
  = (Ok tt,
     mkView (Some (XYZAxis :: concat (zip_with
                     (λ m pos, [MeshVisual (vertices m) (faces m); LineVisual pos])
                     data poss)))
            true
            (match vpview v with Some _ => S (detached v) | None => detached v end)).
Proof.
  intros Htri Hposs. unfold View.plot.
  change (Str.strip <$> Str.split "+" "solid + wireframe")
    with ["solid"; "wireframe"].
  unfold mbind at 1. unfold M_bind at 1. unfold modify at 1, View.clear.
  unfold mbind at 1. unfold M_bind at 1.
  rewrite (draw_default data poss) by done.
  reflexivity.
Qed.
End Plot.

(** A plot type followed by a no-break space is known: [strip] removes
    U+00A0 as it removes a blank. *)
Lemma plot_type_with_no_break_space :
  Str.strip ("solid" +:+ String (ascii_of_nat 160) "") = "solid"
  ∧ turntable (View.plot [mkMesh cube_vertices cube_faces []]
                 ("solid" +:+ String (ascii_of_nat 160) "") initial_view).2 = true
  ∧ turntable (View.plot [mkMesh cube_vertices cube_faces []]
                 "solid + shaded" initial_view).2 = false.
Proof. vm_compute. split_and!; reflexivity. Qed.

Lemma plot_default_cube :
  length cube_outline = 72%nat
  ∧ View.plot [mkMesh cube_vertices cube_faces []] "solid + wireframe" initial_view
    = (Ok tt, mkView (Some [XYZAxis; MeshVisual cube_vertices cube_faces;
                            LineVisual cube_outline]) true 0%nat).
Proof.
  split; [reflexivity|].
  apply (plot_default_scene [mkMesh cube_vertices cube_faces []] [cube_outline]
                            initial_view).
  - intros m ->%list_elem_of_singleton f Hf.
    assert (Hall : Forall (λ f : list Z, length f = 3%nat) cube_faces)
      by (repeat constructor).
    rewrite Forall_forall in Hall. by apply Hall.
  - reflexivity.
Defined.

(** ** Meshes at the edge of their domain *)

Section MeshDomain.
Context {coord : Type} (lt : coord → coord → bool).
Implicit Types (vertices : list (list coord)) (faces : list (list Z)).

Lemma get_vertices_outcome vertices faces :
  (∃ vs, Mesh.get_vertices vertices faces = Ok vs)
  ∨ Mesh.get_vertices vertices faces = Raise IndexError.
Proof.
  apply mapM_outcome. intros face _. apply mapM_outcome. intros i _.
  apply index_outcome.
Qed.

Lemma get_vertices_raises vertices faces face i :
  face ∈ faces → i ∈ face → ¬ in_bounds vertices i →
  Mesh.get_vertices vertices faces = Raise IndexError.
Proof.
  intros Hface Hi Hout. unfold Mesh.get_vertices.
  apply mapM_raises with (x := face); [|done|].
  - intros f _. apply mapM_outcome. intros j _. apply index_outcome.
  - apply mapM_raises with (x := i); [|done|by apply index_out_of_bounds].
    intros j _. apply index_outcome.
Qed.

Lemma get_vertices_in_empty vertices faces :
  (∀ face, face ∈ faces → face = []) →
  ∃ vs, Mesh.get_vertices vertices faces = Ok vs ∧ concat vs = [].
Proof.
  intros Hfaces. induction faces as [|face faces IH].
  - by exists [].
  - destruct IH as (vs & Hvs & Hflat); [intros; apply Hfaces; by right|].
    rewrite (Hfaces face) by left.
    exists ([] :: vs). unfold Mesh.get_vertices in *.
    rewrite mapM_cons. simpl. rewrite Hvs. done.
Qed.

(** X22.  [get_vertices] accepts every face index that Python accepts on
    the list of vertices, the negative ones included: it then returns, face
    by face and corner by corner, the vertex at the position of the index,
    an index [-k] reading the [k]-th vertex from the end. *)
Theorem get_vertices_in_bounds vertices faces :
  (∀ face i, face ∈ faces → i ∈ face → in_bounds vertices i) →
  ∃ vs, Mesh.get_vertices vertices faces = Ok vs
        ∧ Forall2 (Forall2 (λ i p, vertices !! position vertices i = Some p))
                  faces vs.
Proof.
  intros Hin. unfold Mesh.get_vertices.
  destruct (mapM_Ok_total (λ face, mapM (λ ivt, index vertices ivt) face) faces)
    as [vs Hvs].
  { intros face Hface. apply mapM_Ok_total. intros i Hi.
    destruct (index_in_bounds vertices i) as (p & Hp & _); eauto. }
  exists vs. split; [done|].
  apply mapM_Ok_Forall2 in Hvs.
  eapply Forall2_impl_elem; [exact Hvs|]. simpl.
  intros face ps Hface Hps. apply mapM_Ok_Forall2 in Hps.
  eapply Forall2_impl_elem; [exact Hps|]. simpl.
  intros i p Hi Hp.
  destruct (index_in_bounds vertices i) as (p' & Hp' & Hpos); [by eapply Hin|].
  congruence.
Qed.

(** X23.  One face index outside [-len(vertices), len(vertices))
    is enough for [get_vertices] to raise [IndexError], and with it the
    construction of the mesh: no mesh object and no bounding box row is
    created. *)
Theorem mesh_index_out_of_bounds vertices faces face i st :
  face ∈ faces → i ∈ face → ¬ in_bounds vertices i →
  Mesh.get_vertices vertices faces = Raise IndexError
  ∧ Mesh.get_bounding_box lt vertices faces = Raise IndexError
  ∧ Mesh.init lt vertices faces st = Raise IndexError.
Proof.
  intros Hface Hi Hout.
  pose proof (get_vertices_raises vertices faces face i Hface Hi Hout) as Hraise.
  unfold Mesh.init, Mesh.get_bounding_box. rewrite Hraise. done.
Qed.

(** X24.  A mesh needs a vertex and a face corner.  Without any vertex
    the construction raises [IndexError] whatever the faces are; with
    vertices that have coordinates but no corner in any face, the minimum
    of an empty list is asked for and the construction raises
    [ValueError]. *)
Theorem mesh_without_corners vertices faces st :
  Mesh.init lt [] faces st = Raise IndexError
  ∧ (∀ v0, head vertices = Some v0 → v0 ≠ [] →
           (∀ face, face ∈ faces → face = []) →
           Mesh.init lt vertices faces st = Raise ValueError).
Proof.
  split.
  - unfold Mesh.init, Mesh.get_bounding_box.
    destruct (get_vertices_outcome [] faces) as [[vs ->]| ->]; reflexivity.
  - intros v0 Hhead Hv0 Hfaces.
    unfold Mesh.init, Mesh.get_bounding_box.
    destruct (get_vertices_in_empty vertices faces Hfaces) as (vs & -> & Hflat).
    simpl. rewrite Hflat.
    destruct vertices as [|v vertices']; [discriminate|].
    injection Hhead as ->.
    change (index (v0 :: vertices') 0) with (Ok (A := list coord) v0). simpl.
    destruct v0 as [|x v0']; [done|]. reflexivity.
Qed.
End MeshDomain.

Lemma get_vertices_negative_index :
  ∃ vs, Mesh.get_vertices [[0; 0]; [1; 0]; [0; 1]] [[0; 1; -1]] = Ok vs
        ∧ Forall2 (Forall2 (λ i p, [[0; 0]; [1; 0]; [0; 1]]
                                     !! position [[0; 0]; [1; 0]; [0; 1]] i = Some p))
                  [[0; 1; -1]] vs.
Proof.
  apply (get_vertices_in_bounds [[0; 0]; [1; 0]; [0; 1]] [[0; 1; -1]]).
  intros face i ->%list_elem_of_singleton Hi. unfold in_bounds. simpl.
  repeat (apply elem_of_cons in Hi as [->|Hi]; [lia|]).
  by apply elem_of_nil in Hi.
Defined.

Lemma mesh_index_3_of_3 :
  Mesh.get_vertices [[0; 0]; [1; 0]; [0; 1]] [[0; 1; 2]; [1; 2; 3]]
    = Raise IndexError
  ∧ Mesh.get_bounding_box Z.ltb [[0; 0]; [1; 0]; [0; 1]] [[0; 1; 2]; [1; 2; 3]]
    = Raise IndexError
  ∧ Mesh.init Z.ltb [[0; 0]; [1; 0]; [0; 1]] [[0; 1; 2]; [1; 2; 3]] empty_store
    = Raise IndexError.
Proof.
  apply (mesh_index_out_of_bounds Z.ltb [[0; 0]; [1; 0]; [0; 1]]
           [[0; 1; 2]; [1; 2; 3]] [1; 2; 3] 3 empty_store).
  - set_solver.
  - set_solver.
  - unfold in_bounds. simpl. lia.
Defined.

Lemma mesh_of_points_only :
  Mesh.init Z.ltb [] [[0; 1; 2]] empty_store = Raise IndexError
  ∧ Mesh.init Z.ltb [[0; 0; 0]; [1; 0; 0]] [] empty_store = Raise ValueError.
Proof.
  split.
  - apply (mesh_without_corners Z.ltb [] [[0; 1; 2]] empty_store).
  - apply (mesh_without_corners Z.ltb [[0; 0; 0]; [1; 0; 0]] [] empty_store)
      with (v0 := [0; 0; 0]).
    + reflexivity.
    + discriminate.
    + intros face Hface. by apply elem_of_nil in Hface.
Defined.

(** ** Faces up to their starting corner and direction *)

Section Faces.
Implicit Types (face : list Z) (faces : list (list Z)) (e : Z * Z).

Lemma rotate_nat_add_next k i n :
  (0 < n)%nat →
  rotate_nat_add k ((i + 1) `mod` n) n = ((rotate_nat_add k i n + 1) `mod` n)%nat.
Proof.
  intros Hn. rewrite <- rotate_nat_add_add by done.
  unfold rotate_nat_add. f_equal.
  rewrite !Nat2Z.inj_add, Nat2Z.inj_mod, Nat2Z.inj_add.
  by rewrite Z.add_mod_idemp_r by lia.
Qed.

Lemma boundary_edge_rotate face k e :
  boundary_edge (rotate k face) e ↔ boundary_edge face e.
Proof.
  unfold boundary_edge. rewrite length_rotate. split.
  - intros (i & iv & jv & Hi & Hj & ->).
    apply lookup_rotate_r_Some in Hi as [Hi Hlt].
    apply lookup_rotate_r_Some in Hj as [Hj _].
    rewrite rotate_nat_add_next in Hj by lia.
    by exists (rotate_nat_add k i (length face)), iv, jv.
  - intros (i & iv & jv & Hi & Hj & ->).
    apply lookup_lt_Some in Hi as Hlt.
    exists (rotate_nat_sub k i (length face)), iv, jv. split_and!; [| |done].
    + by rewrite lookup_rotate_l.
    + assert (Hmod : ((rotate_nat_sub k i (length face) + 1) `mod` length face
                      < length face)%nat) by (apply Nat.mod_upper_bound; lia).
      rewrite lookup_rotate_r by done.
      rewrite rotate_nat_add_next, rotate_nat_add_sub by lia. done.
Qed.

Lemma boundary_edge_reverse_1 face e :
  boundary_edge face e → boundary_edge (reverse face) e.
Proof.
  unfold boundary_edge. rewrite length_reverse.
  intros (i & iv & jv & Hi & Hj & ->).
  apply lookup_lt_Some in Hi as Hlt.
  set (n := length face) in *.
  assert (Hnext : ((i + 1) `mod` n < n)%nat) by (apply Nat.mod_upper_bound; lia).
  exists (n - S ((i + 1) `mod` n))%nat, jv, iv. split_and!.
  - rewrite reverse_lookup by (fold n; lia). fold n.
    replace (n - S (n - S ((i + 1) `mod` n)))%nat with ((i + 1) `mod` n)%nat by lia.
    done.
  - assert (Hstep : ((n - S ((i + 1) `mod` n) + 1) `mod` n = n - S i)%nat).
    { destruct (decide (i + 1 = n)%nat) as [Heq|Hne].
      - rewrite Heq, Nat.Div0.mod_same.
        replace (n - 1 + 1)%nat with n by lia.
        rewrite Nat.Div0.mod_same. lia.
      - rewrite (Nat.mod_small (i + 1)) by lia.
        rewrite Nat.mod_small by lia. lia. }
    rewrite Hstep, reverse_lookup by (fold n; lia). fold n.
    replace (n - S (n - S i))%nat with i by lia. done.
  - f_equal; lia.
Qed.

Lemma boundary_edge_reverse face e :
  boundary_edge (reverse face) e ↔ boundary_edge face e.
Proof.
  split; [|apply boundary_edge_reverse_1].
  intros H%boundary_edge_reverse_1. by rewrite reverse_involutive in H.
Qed.

Lemma boundary_edge_same_face f g e :
  same_face f g → boundary_edge g e ↔ boundary_edge f e.
Proof.
  intros [k [->| ->]].
  - apply boundary_edge_rotate.
  - by rewrite boundary_edge_reverse, boundary_edge_rotate.
Qed.

Lemma mapM_Ok_Permutation {X Y} (f : X → outcome Y) (l l' : list X) k :
  l ≡ₚ l' → mapM f l = Ok k → ∃ k', mapM f l' = Ok k' ∧ k ≡ₚ k'.
Proof.
  intros Hperm. revert k.
  induction Hperm as [|x l l' _ IH|x y l|l1 l2 l3 _ IH1 _ IH2]; intros k.
  - intros [= <-]. by exists [].
  - rewrite !mapM_cons.
    intros (z & Hz & (k0 & Hk0 & [= <-])%bind_Ok)%bind_Ok.
    destruct (IH k0 Hk0) as (k0' & Hk0' & Hperm').
    exists (z :: k0'). rewrite Hz, Hk0'. split; [done|]. by constructor.
  - rewrite !mapM_cons.
    intros (z1 & Hz1 & (k1 & Hk1 & [= <-])%bind_Ok)%bind_Ok.
    apply bind_Ok in Hk1 as (z2 & Hz2 & (k2 & Hk2 & [= <-])%bind_Ok).
    exists (z2 :: z1 :: k2). rewrite Hz2, Hz1, Hk2. split; [done|]. by constructor.
  - intros Hk. destruct (IH1 k Hk) as (k2 & Hk2 & Hp2).
    destruct (IH2 k2 Hk2) as (k3 & Hk3 & Hp3).
    exists k3. split; [done|]. by etrans.
Qed.

(** X25.  The segments depend on the faces only as cycles.  Two lists of
    faces in which every face of one also occurs in the other, possibly
    started at another corner, walked in the opposite direction, at
    another place in the list or several times, give the same set of
    index pairs; [get_line_segments] then returns the same segments, in an
    order that may differ, or raises [IndexError] for both. *)
Theorem line_segments_same_faces {coord} t iter (vertices : list (list coord))
    faces faces' :
  iterates_set iter →
  (∀ f, f ∈ faces → ∃ g, g ∈ faces' ∧ same_face f g) →
  (∀ g, g ∈ faces' → ∃ f, f ∈ faces ∧ same_face f g) →
  Mesh.line_segments faces = Mesh.line_segments faces'
  ∧ match Mesh.get_line_segments t iter vertices faces,
          Mesh.get_line_segments t iter vertices faces' with
    | Ok segs, Ok segs' => segs ≡ₚ segs'
    | Raise e, Raise e' => e = IndexError ∧ e' = IndexError
    | _, _ => False
    end.
Proof.
  intros Hiter Hfwd Hbwd.
  assert (Heq : Mesh.line_segments faces = Mesh.line_segments faces').
  { apply set_eq. intros e. rewrite !elem_of_line_segments. split.
    - intros (f & Hf & He). destruct (Hfwd f Hf) as (g & Hg & Hsame).
      exists g. split; [done|]. by apply (boundary_edge_same_face f g).
    - intros (g & Hg & He). destruct (Hbwd g Hg) as (f & Hf & Hsame).
      exists f. split; [done|]. by apply (boundary_edge_same_face f g). }
  split; [done|].
  assert (Hperm : iter faces ≡ₚ iter faces')
    by (by rewrite (Hiter faces), (Hiter faces'), Heq).
  unfold Mesh.get_line_segments.
  set (f := λ e : Z * Z, p ← index vertices (Mesh.minus_1 t e.1);
                         q ← index vertices (Mesh.minus_1 t e.2); mret [p; q]).
  assert (Hout : ∀ l, (∃ k, mapM f l = Ok k) ∨ mapM f l = Raise IndexError).
  { intros l. apply mapM_outcome. intros e _. unfold f.
    destruct (index_outcome vertices (Mesh.minus_1 t e.1)) as [[p ->]| ->]; [|by right].
    destruct (index_outcome vertices (Mesh.minus_1 t e.2)) as [[q ->]| ->];
      [left; by eexists|by right]. }
  destruct (Hout (iter faces)) as [[k Hk]|Hk]; rewrite Hk.
  - destruct (mapM_Ok_Permutation f _ _ k Hperm Hk) as (k' & -> & Hkk'). done.
  - destruct (Hout (iter faces')) as [[k' Hk']|Hk']; rewrite Hk'; [|done].
    symmetry in Hperm.
    destruct (mapM_Ok_Permutation f _ _ k' Hperm Hk') as (k0 & Hk0 & _). congruence.
Qed.
End Faces.

Lemma line_segments_flipped_triangle :
  Mesh.line_segments [[0; 2; 4]] = Mesh.line_segments [[4; 2; 0]; [2; 4; 0]]
  ∧ match Mesh.get_line_segments Mesh.py_int reversed_order
            [[0; 0]; [9; 9]; [1; 0]; [9; 9]; [0; 1]] [[0; 2; 4]],
          Mesh.get_line_segments Mesh.py_int reversed_order
            [[0; 0]; [9; 9]; [1; 0]; [9; 9]; [0; 1]] [[4; 2; 0]; [2; 4; 0]] with
    | Ok segs, Ok segs' => segs ≡ₚ segs'
    | Raise e, Raise e' => e = IndexError ∧ e' = IndexError
    | _, _ => False
    end.
Proof.
  apply (line_segments_same_faces Mesh.py_int reversed_order
           [[0; 0]; [9; 9]; [1; 0]; [9; 9]; [0; 1]]
           [[0; 2; 4]] [[4; 2; 0]; [2; 4; 0]] reversed_order_iterates).
  - intros f ->%list_elem_of_singleton. exists [2; 4; 0].
    split; [set_solver|]. exists 1%nat. by left.
  - intros g Hg. exists [0; 2; 4]. split; [set_solver|].
    apply elem_of_cons in Hg as [->|Hg].
    + exists 0%nat. by right.
    + apply list_elem_of_singleton in Hg as ->. exists 1%nat. by left.
Defined.

(** ** The files written by the converting handlers *)

Section Names.
Implicit Types (s t : string) (l : list ascii) (p : PurePath).

Local Abbreviation chars := String.list_ascii_of_string.

Lemma chars_inj s t : chars s = chars t → s = t.
Proof.
  intros H. rewrite <- (String.string_of_list_ascii_of_string s),
    <- (String.string_of_list_ascii_of_string t). by rewrite H.
Qed.

Lemma chars_app s t : chars (s +:+ t) = chars s ++ chars t.
Proof. induction s as [|c s IH]; [done|]. simpl. by rewrite IH. Qed.

Lemma chars_length s : String.length s = length (chars s).
Proof. induction s as [|c s IH]; [done|]. simpl. by rewrite IH. Qed.

Lemma chars_substring a b s :
  chars (String.substring a b s) = take b (drop a (chars s)).
Proof.
  revert a b. induction s as [|c s IH]; intros a b.
  - destruct a, b; reflexivity.
  - destruct a as [|a].
    + destruct b as [|b]; [reflexivity|]. simpl. by rewrite IH.
    + simpl. apply IH.
Qed.

Lemma rfind_dot_from_none i found l :
  dot ∉ l → rfind_dot_from i found l = found.
Proof.
  revert i found. induction l as [|c l IH]; intros i found Hl; [done|].
  simpl. rewrite decide_False by set_solver. apply IH. set_solver.
Qed.

Lemma rfind_dot_from_last i found l1 l2 :
  dot ∉ l2 → rfind_dot_from i found (l1 ++ dot :: l2) = i + Z.of_nat (length l1).
Proof.
  revert i found. induction l1 as [|c l1 IH]; intros i found Hl2.
  - simpl. rewrite rfind_dot_from_none by done. lia.
  - simpl. rewrite IH by done. lia.
Qed.

Lemma rfind_dot_from_spec i found l :
  (dot ∉ l ∧ rfind_dot_from i found l = found)
  ∨ ∃ l1 l2, l = l1 ++ dot :: l2 ∧ dot ∉ l2
             ∧ rfind_dot_from i found l = i + Z.of_nat (length l1).
Proof.
  induction l as [|c l IH] using rev_ind.
  - left. split; [set_solver|done].
  - destruct (decide (c = dot)) as [->|Hc].
    + right. exists l, []. split_and!; [done|set_solver|].
      apply rfind_dot_from_last. set_solver.
    + destruct IH as [[Hl Hfind]|(l1 & l2 & -> & Hl2 & Hfind)].
      * left. split; [set_solver|]. apply rfind_dot_from_none. set_solver.
      * right. exists l1, (l2 ++ [c]). rewrite <- app_assoc. split_and!; [done|set_solver|].
        apply rfind_dot_from_last. set_solver.
Qed.

(** The suffix of a path is empty, or a dot followed by a non-empty tail
    of the name without any dot. *)
Lemma suffix_shape p :
  suffix p = ""
  ∨ ∃ l1 l2, chars (name p) = l1 ++ dot :: l2 ∧ l2 ≠ [] ∧ dot ∉ l2
             ∧ suffix p = String.string_of_list_ascii (dot :: l2).
Proof.
  unfold suffix. cbv zeta. destruct (decide _) as [Hi|]; [right|by left].
  unfold rfind_dot, len in *.
  destruct (rfind_dot_from_spec 0 (-1) (chars (name p)))
    as [[_ Hfind]|(l1 & l2 & Hname & Hl2 & Hfind)]; [lia|].
  rewrite Hfind in *. rewrite chars_length, Hname, length_app in Hi |- *.
  simpl in Hi.
  exists l1, l2. split_and!; [done| |done|].
  - intros ->. simpl in Hi. lia.
  - apply chars_inj.
    rewrite chars_substring, Hname, String.list_ascii_of_string_of_list_ascii.
    replace (Z.to_nat (0 + Z.of_nat (length l1))) with (length l1) by lia.
    rewrite drop_app_length. apply take_ge. simpl. lia.
Qed.

Lemma split_chars_no_sep cur l x :
  Pathlib.sep ∉ cur → x ∈ Pathlib.split_chars cur l → Pathlib.sep ∉ x.
Proof.
  revert cur. induction l as [|c l IH]; intros cur Hcur; simpl.
  - intros ->%list_elem_of_singleton. by rewrite elem_of_reverse.
  - destruct (decide (c = Pathlib.sep)) as [->|Hc].
    + intros [->|Hx]%elem_of_cons; [by rewrite elem_of_reverse|].
      apply (IH []); [set_solver|done].
    + apply IH. set_solver.
Qed.

(** A name read from a string never contains a separator. *)
Lemma name_of_parse_no_sep s : contains_sep (name (parse s)) = false.
Proof.
  unfold name. destruct (last (tail (parse s))) as [n|] eqn:Hlast; [|done].
  assert (Hn : n ∈ tail (parse s)).
  { apply last_Some in Hlast as [l' ->]. set_solver. }
  unfold parse in Hn. destruct (splitroot s) as [rt rel]. simpl in Hn.
  apply list_elem_of_filter in Hn as [_ Hn]. unfold Pathlib.split in Hn.
  apply list_elem_of_fmap in Hn as (l & -> & Hl).
  apply split_chars_no_sep in Hl; [|set_solver].
  unfold contains_sep. rewrite String.list_ascii_of_string_of_list_ascii.
  by apply bool_decide_eq_false.
Qed.

(** [with_stem("solidpython_temp").with_suffix(ext)] names, for a path
    with a name, the file [solidpython_temp<ext>] in the same directory,
    whatever the name and its suffix were. *)
Lemma temp_name p ext :
  name p ≠ "" → contains_sep (name p) = false →
  with_suffix (mkPath "" ["x"]) ext = Ok (mkPath "" ["x" +:+ ext]) →
  (q ← with_stem p "solidpython_temp"; with_suffix q ext)
  = Ok (mkPath (root p) (removelast (tail p) ++ ["solidpython_temp" +:+ ext])).
Proof.
  intros Hname Hsep Hext.
  assert (Hchecks : ¬ (contains_sep ext = true)
                    ∧ ¬ ((ext ≠ "" ∧ String.get 0 ext ≠ Some dot) ∨ ext = ".")).
  { unfold with_suffix in Hext.
    destruct (decide (contains_sep ext = true)); [discriminate|].
    destruct (decide _); [discriminate|]. done. }
  destruct Hchecks as [Hext1 Hext2].
  unfold with_stem, with_name. rewrite decide_False by done.
  assert (Hsfx : Pathlib.sep ∉ chars (suffix p)).
  { destruct (suffix_shape p) as [->|(l1 & l2 & Hn & _ & _ & ->)]; [set_solver|].
    rewrite String.list_ascii_of_string_of_list_ascii.
    unfold contains_sep in Hsep. apply bool_decide_eq_false in Hsep.
    rewrite Hn in Hsep. set_solver. }
  rewrite decide_False; cycle 1.
  { intros [H|[H|H]]; [discriminate| |].
    - unfold contains_sep in H. apply bool_decide_eq_true in H.
      rewrite chars_app in H. apply elem_of_app in H as [H|H]; [|done].
      vm_compute in H. set_solver.
    - apply (f_equal String.length) in H. rewrite chars_length, chars_app in H.
      rewrite length_app in H. simpl in H. lia. }
  set (q := mkPath (root p) (removelast (tail p) ++ ["solidpython_temp" +:+ suffix p])).
  change (with_suffix q ext
          = Ok (mkPath (root p) (removelast (tail p) ++ ["solidpython_temp" +:+ ext]))).
  assert (Hq : name q = "solidpython_temp" +:+ suffix p).
  { unfold name, q. simpl tail. by rewrite last_snoc. }
  assert (Hroot : root q = root p) by reflexivity.
  assert (Htail : removelast (tail q) = removelast (tail p)).
  { unfold q. simpl tail. apply removelast_last. }
  unfold with_suffix.
  rewrite decide_False by done. rewrite decide_False by done. cbv zeta.
  rewrite (decide_False (P := name q = "")) by (rewrite Hq; discriminate).
  rewrite Hroot, Htail. do 4 f_equal.
  destruct (suffix_shape p) as [Hp|(l1 & l2 & Hn & Hl2 & Hdot & Hp)].
  - rewrite Hp in *. simpl in Hq.
    assert (Hsq : suffix q = "") by (unfold suffix; rewrite Hq; reflexivity).
    rewrite Hsq. rewrite decide_True by done. by rewrite Hq.
  - assert (Hcq : chars (name q) = chars "solidpython_temp" ++ dot :: l2).
    { rewrite Hq, chars_app, Hp.
      by rewrite String.list_ascii_of_string_of_list_ascii. }
    assert (Hsq : suffix q = suffix p).
    { unfold suffix at 1. cbv zeta. unfold rfind_dot, len.
      rewrite chars_length, Hcq, rfind_dot_from_last, length_app by done.
      assert (length l2 ≠ 0)%nat by (by destruct l2).
      rewrite decide_True by (simpl; lia).
      rewrite Hp. apply chars_inj.
      rewrite chars_substring, Hcq, String.list_ascii_of_string_of_list_ascii.
      replace (Z.to_nat (0 + Z.of_nat (length (chars "solidpython_temp"))))
        with (length (chars "solidpython_temp")) by lia.
      rewrite drop_app_length. apply take_ge. simpl. lia. }
    rewrite Hsq. rewrite decide_False by (rewrite Hp; discriminate).
    f_equal. apply chars_inj.
    rewrite chars_substring, !chars_length, Hcq, Hp,
      String.list_ascii_of_string_of_list_ascii, length_app.
    replace (length (chars "solidpython_temp") + length (dot :: l2)
             - length (dot :: l2))%nat
      with (length (chars "solidpython_temp")) by lia.
    rewrite drop_0. by rewrite take_app_length.
Qed.
End Names.

Section Converters.
Context {coord : Type} (subprocess_run : list string → outcome Z).
Context (render_script : pyval → PurePath → outcome pyval).
Implicit Types (c : Controller coord) (s : string).

Lemma temp_name_of_string s ext :
  name (parse s) ≠ "" →
  with_suffix (mkPath "" ["x"]) ext = Ok (mkPath "" ["x" +:+ ext]) →
  (q ← with_stem (parse s) "solidpython_temp"; with_suffix q ext)
  = Ok (beside s ("solidpython_temp" +:+ ext)).
Proof.
  intros Hname Hext. apply temp_name; [done| |done].
  apply name_of_parse_no_sep.
Qed.

Lemma scad_reload_of_string c s status :
  name (parse s) ≠ "" →
  reload_lock c = false →
  subprocess_run ["openscad"; "-o"; str (beside s "solidpython_temp.stl"); s]
    = Ok status →
  Controller.ScadFileHandler.reload subprocess_run (PStr s) c
  = (Ok tt, set_reload_file (Some (PPath (beside s "solidpython_temp.stl")))
              (log_command ["openscad"; "-o";
                            str (beside s "solidpython_temp.stl"); s] c)).
Proof.
  intros Hname Hfree Hrun.
  unfold Controller.ScadFileHandler.reload.
  unfold mbind at 1. unfold M_bind, lift.
  unfold Path. rewrite (temp_name_of_string s ".stl") by done.
  change ("solidpython_temp" +:+ ".stl") with "solidpython_temp.stl".
  unfold mbind at 1. unfold M_bind, try_except, Controller.ScadFileHandler.run.
  unfold fspath. rewrite Hrun.
  destruct c as [fh lk rf d st ld pl cm af]. simpl in Hfree. subst lk.
  reflexivity.
Qed.

(** X26.  Whatever the name of the [.scad] file, [ScadFileHandler.reload]
    asks the compiler for the file [solidpython_temp.stl] in the directory
    of the source, and posts that path: two sources of one directory share
    one output file, which lies in the directory that [follow] watches.  A
    path without a name is refused with [ValueError] before any compiler
    is run. *)
Theorem scad_reload_output_path c s status :
  let out := beside s "solidpython_temp.stl" in
  (name (parse s) = "" →
   Controller.ScadFileHandler.reload subprocess_run (PStr s) c = (Raise ValueError, c))
  ∧ (name (parse s) ≠ "" →
     reload_lock c = false →
     subprocess_run ["openscad"; "-o"; str out; s] = Ok status →
     Controller.ScadFileHandler.reload subprocess_run (PStr s) c
     = (Ok tt, set_reload_file (Some (PPath out))
                 (log_command ["openscad"; "-o"; str out; s] c))
     ∧ parents_0 out = parents_0 (parse s)).
Proof.
  intros out. split.
  - intros Hname. unfold Controller.ScadFileHandler.reload.
    unfold mbind at 1. unfold M_bind, lift.
    unfold Path, with_stem, with_name. by rewrite decide_True by done.
  - intros Hname Hfree Hrun. split.
    + by apply (scad_reload_of_string c s status).
    + unfold out, beside, parents_0. simpl tail. simpl root.
      rewrite removelast_last.
      destruct (tail (parse s)) as [|x l] eqn:Htail.
      * unfold name in Hname. by rewrite Htail in Hname.
      * by destruct (removelast (x :: l) ++ ["solidpython_temp.stl"]) eqn:Hl;
          [destruct (removelast (x :: l)); discriminate|].
Qed.

(** X27.  The whole chain of [PythonFileHandler.reload]: the renderer is
    asked to write [solidpython_temp.scad] beside the script; when it
    returns that path, the compiler is run on it and the path posted to
    the mailbox is [solidpython_temp.stl] in the same directory, the very
    file that a [.scad] source of this directory is converted to.  When
    the renderer raises, no compiler is run and nothing is posted. *)
Theorem python_reload_chain c s :
  name (parse s) ≠ "" →
  let scad := beside s "solidpython_temp.scad" in
  let out := beside s "solidpython_temp.stl" in
  (∀ e, render_script (PStr s) scad = Raise e →
        Controller.PythonFileHandler.reload subprocess_run render_script (PStr s) c
        = (Raise e, c))
  ∧ (∀ new_file status,
       render_script (PStr s) scad = Ok new_file →
       Path new_file = scad →
       reload_lock c = false →
       subprocess_run ["openscad"; "-o"; str out; fspath new_file] = Ok status →
       Controller.PythonFileHandler.reload subprocess_run render_script (PStr s) c
       = (Ok tt, set_reload_file (Some (PPath out))
                   (log_command ["openscad"; "-o"; str out; fspath new_file] c))).
Proof.
  intros Hname scad out.
  assert (Hscad : (q ← with_stem (Path (PStr s)) "solidpython_temp";
                   with_suffix q ".scad") = Ok scad).
  { unfold Path. by rewrite (temp_name_of_string s ".scad"). }
  split.
  - intros e Hrender. unfold Controller.PythonFileHandler.reload.
    unfold mbind at 1. unfold M_bind at 1. unfold lift at 1. rewrite Hscad.
    unfold mbind at 1. unfold M_bind at 1. unfold lift at 1. by rewrite Hrender.
  - intros new_file status Hrender Hpath Hfree Hrun.
    unfold Controller.PythonFileHandler.reload.
    unfold mbind at 1. unfold M_bind at 1. unfold lift at 1. rewrite Hscad.
    unfold mbind at 1. unfold M_bind at 1. unfold lift at 1. rewrite Hrender.
    unfold Controller.ScadFileHandler.reload.
    unfold mbind at 1. unfold M_bind, lift. rewrite Hpath.
    assert (Hout : (q ← with_stem scad "solidpython_temp"; with_suffix q ".stl")
                   = Ok out).
    { assert (Hn : name scad = "solidpython_temp.scad").
      { unfold name, scad, beside. simpl tail. by rewrite last_snoc. }
      rewrite temp_name;
        [|rewrite Hn; discriminate|rewrite Hn; reflexivity|reflexivity].
      unfold out, scad, beside. simpl tail. simpl root.
      by rewrite removelast_last. }
    rewrite Hout.
    unfold mbind at 1. unfold M_bind, try_except, Controller.ScadFileHandler.run.
    rewrite Hrun.
    destruct c as [fh lk rf d st ld pl cm af]. simpl in Hfree. subst lk.
    reflexivity.
Qed.
End Converters.

Lemma scad_reload_output_path_example :
  Controller.ScadFileHandler.reload openscad_exits_1 (PStr "/a/b.c/gear.v2.scad")
    (@initial_controller Z)
  = (Ok tt,
     set_reload_file (Some (PPath (mkPath "/" ["a"; "b.c"; "solidpython_temp.stl"])))
       (log_command ["openscad"; "-o"; "/a/b.c/solidpython_temp.stl";
                     "/a/b.c/gear.v2.scad"] initial_controller))
  ∧ parents_0 (mkPath "/" ["a"; "b.c"; "solidpython_temp.stl"])
    = parents_0 (parse "/a/b.c/gear.v2.scad").
Proof.
  apply (scad_reload_output_path openscad_exits_1 (@initial_controller Z)
           "/a/b.c/gear.v2.scad" 1).
  - discriminate.
  - reflexivity.
  - reflexivity.
Defined.

Lemma python_reload_chain_example :
  Controller.PythonFileHandler.reload openscad_exits_1 render_ok (PStr "/a/model.py")
    (@initial_controller Z)
  = (Ok tt,
     set_reload_file (Some (PPath (mkPath "/" ["a"; "solidpython_temp.stl"])))
       (log_command ["openscad"; "-o"; "/a/solidpython_temp.stl";
                     "/a/solidpython_temp.scad"] initial_controller)).
Proof.
  apply (python_reload_chain openscad_exits_1 render_ok (@initial_controller Z)
           "/a/model.py")
    with (new_file := PPath (mkPath "/" ["a"; "solidpython_temp.scad"])) (status := 1).
  - discriminate.
  - reflexivity.
  - reflexivity.
  - reflexivity.
  - reflexivity.
Defined.

(** ** The bounding box of a model whose meshes share no row *)

Section Aggregate.
Context {coord : Type} (lt : coord → coord → bool).
Hypothesis lt_irrefl : ∀ x, lt x x = false.
Hypothesis lt_trans : ∀ x y z, lt x y = true → lt y z = true → lt x z = true.
Hypothesis lt_total : ∀ x y, lt x y = false → lt y x = false → x = y.
Implicit Types (bbox : list loc) (mesh : Mesh coord) (st : Store coord).

Lemma merge_axis_ok bbox mesh (k : nat) row xr lo hi xs st :
  bbox !! k = Some row → bounding_box mesh !! k = Some xr → xr ≠ row →
  cells st !! row = Some [lo; hi] → cells st !! xr = Some xs → xs ≠ [] →
  ∃ lo' hi',
    Model.merge_axis lt bbox mesh (Z.of_nat k) st = (Ok tt, assign st row [lo'; hi'])
    ∧ lo' ∈ lo :: xs ∧ (∀ y, y ∈ lo :: xs → lt y lo' = false)
    ∧ hi' ∈ hi :: xs ∧ (∀ y, y ∈ hi :: xs → lt hi' y = false).
Proof.
  intros Hrow Hxr Hne Hcell Hxs Hnonempty.
  destruct (min_spec lt lt_irrefl lt_trans lt_total xs Hnonempty) as (m & Hm & Hm_in & Hm_low).
  destruct (max_spec lt lt_irrefl lt_trans lt_total xs Hnonempty) as (M & HM & HM_in & HM_up).
  exists (if lt m lo then m else lo), (if lt hi M then M else hi).
  assert (Hi_row : index bbox (Z.of_nat k) = Ok row)
    by (apply index_lookup; [lia|by rewrite Nat2Z.id]).
  assert (Hi_xr : index (bounding_box mesh) (Z.of_nat k) = Ok xr)
    by (apply index_lookup; [lia|by rewrite Nat2Z.id]).
  split.
  - unfold Model.merge_axis, mbind, M_bind, lift, modify, deref.
    rewrite Hi_xr, Hi_row, Hcell, Hxs, Hm.
    cbn [mret outcome_ret M_ret Py.min Py.max fold_left].
    assert (I0 : ∀ a b : coord, index [a; b] 0 = Ok a) by reflexivity.
    assert (I1 : ∀ a b : coord, index [a; b] 1 = Ok b) by reflexivity.
    assert (S0 : ∀ a b v : coord, setitem [a; b] 0 v = Ok [v; b]) by reflexivity.
    assert (S1 : ∀ a b v : coord, setitem [a; b] 1 v = Ok [a; v]) by reflexivity.
    assert (Eeq : ∀ (s : Store coord) v, cells (assign s row v) !! row = Some v)
      by (intros; apply lookup_insert_eq).
    assert (Ene : ∀ (s : Store coord) v, cells (assign s row v) !! xr = cells s !! xr)
      by (intros; by apply lookup_insert_ne).
    repeat (first [rewrite I0 | rewrite I1 | rewrite S0 | rewrite S1
                  | rewrite Eeq | rewrite Ene | rewrite Hxs | rewrite HM];
            cbv beta iota).
    f_equal. unfold assign. simpl. by rewrite insert_insert_eq.
  - split_and!.
    + destruct (lt m lo); set_solver.
    + intros y [->|Hy]%elem_of_cons.
      * destruct (lt m lo) eqn:Hc; [|apply lt_irrefl].
        destruct (lt lo m) eqn:Hc'; [|done].
        pose proof (lt_trans _ _ _ Hc Hc') as Hcontra. by rewrite lt_irrefl in Hcontra.
      * destruct (lt m lo) eqn:Hc; [by apply Hm_low|].
        destruct (lt y lo) eqn:Hy'; [|done].
        pose proof (lt_false_trans lt lt_trans lt_total _ _ _ Hc Hy') as Hcontra.
        by rewrite Hm_low in Hcontra.
    + destruct (lt hi M); set_solver.
    + intros y [->|Hy]%elem_of_cons.
      * destruct (lt hi M) eqn:Hc; [|apply lt_irrefl].
        destruct (lt M hi) eqn:Hc'; [|done].
        pose proof (lt_trans _ _ _ Hc Hc') as Hcontra. by rewrite lt_irrefl in Hcontra.
      * destruct (lt hi M) eqn:Hc; [by apply HM_up|].
        destruct (lt hi y) eqn:Hy'; [|done].
        destruct (lt M hi) eqn:HMhi.
        -- pose proof (lt_trans _ _ _ HMhi Hy') as Hcontra.
           by rewrite HM_up in Hcontra.
        -- rewrite (lt_total _ _ Hc HMhi) in Hy'. by rewrite HM_up in Hy'.
Qed.
(** One pass of the inner loop over the axes [a], ..., [a + b - 1]. *)
Lemma merge_rows_ok bbox mesh (b a : nat) st :
  NoDup bbox → (a + b ≤ length bbox)%nat →
  (∀ k row, bbox !! k = Some row → ∃ lo hi, cells st !! row = Some [lo; hi]) →
  (∀ k, (k < length bbox)%nat →
        ∃ xr xs, bounding_box mesh !! k = Some xr ∧ xr ∉ bbox
                 ∧ cells st !! xr = Some xs ∧ xs ≠ []) →
  ∃ st',
    for_each (Z.of_nat <$> seq a b) (λ i, Model.merge_axis lt bbox mesh i) st
    = (Ok tt, st')
    ∧ (∀ l, l ∉ bbox → cells st' !! l = cells st !! l)
    ∧ (∀ k row, bbox !! k = Some row → ¬ (a ≤ k < a + b)%nat →
                cells st' !! row = cells st !! row)
    ∧ (∀ k row lo hi xr xs,
         (a ≤ k < a + b)%nat → bbox !! k = Some row →
         cells st !! row = Some [lo; hi] →
         bounding_box mesh !! k = Some xr → cells st !! xr = Some xs →
         ∃ lo' hi',
           cells st' !! row = Some [lo'; hi']
           ∧ lo' ∈ lo :: xs ∧ (∀ y, y ∈ lo :: xs → lt y lo' = false)
           ∧ hi' ∈ hi :: xs ∧ (∀ y, y ∈ hi :: xs → lt hi' y = false)).
Proof.
  intros Hnodup. revert a st. induction b as [|b IH]; intros a st Hlen Hrows Hmesh.
  - exists st. split_and!; [done|done|done|]. intros; lia.
  - destruct (lookup_lt_is_Some_2 bbox a) as [row Hrow]; [lia|].
    destruct (Hrows a row Hrow) as (lo & hi & Hcell).
    destruct (Hmesh a) as (xr & xs & Hxr & Hout & Hxs & Hnonempty); [lia|].
    assert (Hin : row ∈ bbox) by by eapply list_elem_of_lookup_2.
    assert (Hne : xr ≠ row) by (intros ->; done).
    destruct (merge_axis_ok bbox mesh a row xr lo hi xs st)
      as (lo' & hi' & Hstep & Hlo1 & Hlo2 & Hhi1 & Hhi2); try done.
    set (st1 := assign st row [lo'; hi']) in *.
    assert (Hkeep : ∀ l, l ≠ row → cells st1 !! l = cells st !! l)
      by (intros l Hl; by apply lookup_insert_ne).
    assert (Hnew : cells st1 !! row = Some [lo'; hi'])
      by apply lookup_insert_eq.
    destruct (IH (S a) st1) as (st' & Hrun & Hframe & Hother & Hmerged).
    + lia.
    + intros k row' Hrow'. destruct (decide (row' = row)) as [->|Hd].
      * by exists lo', hi'.
      * rewrite Hkeep by done. by eapply Hrows.
    + intros k Hk. destruct (Hmesh k Hk) as (xr' & xs' & ? & Hout' & ? & ?).
      exists xr', xs'. split_and!; try done.
      rewrite Hkeep; [done|]. by intros ->.
    + exists st'. split_and!.
      * cbn [seq fmap list_fmap for_each].
        unfold mbind at 1. unfold M_bind at 1. rewrite Hstep. exact Hrun.
      * intros l Hl. rewrite Hframe by done. apply Hkeep. by intros ->.
      * intros k row' Hrow' Hk.
        assert (row' ≠ row).
        { intros ->. pose proof (NoDup_lookup _ _ _ _ Hnodup Hrow Hrow'). lia. }
        rewrite (Hother k) by (try done; lia). by apply Hkeep.
      * intros k row' lo0 hi0 xr' xs' Hk Hrow' Hcell' Hxr' Hxs'.
        destruct (decide (k = a)) as [->|Hka].
        -- assert (row' = row) as -> by congruence.
           assert (xr' = xr) as -> by congruence.
           assert (xs' = xs) as -> by congruence.
           assert (lo0 = lo ∧ hi0 = hi) as [-> ->] by (split; congruence).
           exists lo', hi'. split_and!; try done.
           rewrite (Hother a) by (try done; lia). done.
        -- assert (row' ≠ row).
           { intros ->. pose proof (NoDup_lookup _ _ _ _ Hnodup Hrow Hrow'). lia. }
           destruct (Hmesh k) as (xr'' & xs'' & Hxr'' & Hout'' & _); [lia|].
           assert (xr'' = xr') as -> by congruence.
           apply (Hmerged k row' lo0 hi0 xr' xs'); try done; [lia| |].
           ++ by rewrite Hkeep.
           ++ rewrite Hkeep; [done|]. by intros ->.
Qed.

Lemma axis_rows_cons st (k : nat) mesh (ms : list (Mesh coord)) xr xs :
  bounding_box mesh !! k = Some xr → cells st !! xr = Some xs →
  axis_rows st k (mesh :: ms) = xs ++ axis_rows st k ms.
Proof.
  intros Hxr Hxs. unfold axis_rows. rewrite bind_cons, Hxr, Hxs. done.
Qed.

Lemma axis_rows_frame st st' (k : nat) (ms : list (Mesh coord)) :
  (∀ m l, m ∈ ms → bounding_box m !! k = Some l → cells st' !! l = cells st !! l) →
  axis_rows st' k ms = axis_rows st k ms.
Proof.
  intros Hsame. unfold axis_rows. induction ms as [|m ms IH]; [done|].
  rewrite !bind_cons, IH by (intros; eapply Hsame; [by right|done]).
  destruct (bounding_box m !! k) as [l|] eqn:Hl; [|done].
  by rewrite (Hsame m l) by (try done; left).
Qed.

(** The outer loop over the meshes after the first. *)
Lemma merge_meshes_ok bbox (rest : list (Mesh coord)) st :
  NoDup bbox →
  (∀ k row, bbox !! k = Some row → ∃ lo hi, cells st !! row = Some [lo; hi]) →
  (∀ m k, m ∈ rest → (k < length bbox)%nat →
          ∃ xr xs, bounding_box m !! k = Some xr ∧ xr ∉ bbox
                   ∧ cells st !! xr = Some xs ∧ xs ≠ []) →
  ∃ st',
    for_each rest (λ mesh, for_each (range (length bbox))
                             (λ i, Model.merge_axis lt bbox mesh i)) st
    = (Ok tt, st')
    ∧ (∀ l, l ∉ bbox → cells st' !! l = cells st !! l)
    ∧ (∀ k row lo hi,
         bbox !! k = Some row → cells st !! row = Some [lo; hi] →
         ∃ lo' hi',
           cells st' !! row = Some [lo'; hi']
           ∧ lo' ∈ lo :: axis_rows st k rest
           ∧ (∀ y, y ∈ lo :: axis_rows st k rest → lt y lo' = false)
           ∧ hi' ∈ hi :: axis_rows st k rest
           ∧ (∀ y, y ∈ hi :: axis_rows st k rest → lt hi' y = false)).
Proof.
  intros Hnodup. revert st. induction rest as [|mesh rest IH]; intros st Hrows Hmesh.
  - exists st. split_and!; [done|done|].
    intros k row lo hi _ Hcell. exists lo, hi. split_and!; [done|by left| |by left|].
    + intros y ->%list_elem_of_singleton. apply lt_irrefl.
    + intros y ->%list_elem_of_singleton. apply lt_irrefl.
  - destruct (merge_rows_ok bbox mesh (length bbox) 0 st)
      as (st1 & Hrun1 & Hframe1 & _ & Hmerged1); try done.
    { intros k Hk. apply Hmesh; [by left|done]. }
    destruct (IH st1) as (st' & Hrun & Hframe & Hmerged).
    + intros k row Hrow. destruct (Hrows k row Hrow) as (lo & hi & Hcell).
      apply lookup_lt_Some in Hrow as Hk.
      destruct (Hmesh mesh k) as (xr & xs & Hxr & _ & Hxs & _); [by left|done|].
      destruct (Hmerged1 k row lo hi xr xs) as (lo' & hi' & ? & _); try done; [lia|].
      by exists lo', hi'.
    + intros m k Hm Hk.
      destruct (Hmesh m k) as (xr & xs & ? & ? & ? & ?); [by right|done|].
      exists xr, xs. split_and!; try done. by rewrite Hframe1.
    + exists st'. split_and!.
      * cbn [for_each]. unfold mbind at 1. unfold M_bind at 1.
        unfold range. rewrite Hrun1. exact Hrun.
      * intros l Hl. by rewrite Hframe, Hframe1.
      * intros k row lo hi Hrow Hcell.
        apply lookup_lt_Some in Hrow as Hk.
        destruct (Hmesh mesh k) as (xr & xs & Hxr & _ & Hxs & _); [by left|done|].
        destruct (Hmerged1 k row lo hi xr xs)
          as (lo1 & hi1 & Hcell1 & Hlo1 & Hlo1' & Hhi1 & Hhi1'); try done; [lia|].
        destruct (Hmerged k row lo1 hi1 Hrow Hcell1)
          as (lo' & hi' & Hcell' & Hlo & Hlo' & Hhi & Hhi').
        assert (Hsame : axis_rows st1 k rest = axis_rows st k rest).
        { apply axis_rows_frame. intros m l Hm Hl.
          destruct (Hmesh m k) as (xr' & xs' & Hxr' & Hout' & _); [by right|done|].
          apply Hframe1. congruence. }
        rewrite Hsame in *.
        rewrite (axis_rows_cons st k mesh rest xr xs) by done.
        exists lo', hi'. split_and!; [done| | | |].
        -- apply elem_of_cons in Hlo as [->|Hlo]; [|set_solver].
           apply elem_of_cons in Hlo1 as [->|Hlo1]; set_solver.
        -- intros y Hy.
           assert (Hstep : lt lo1 lo' = false) by (apply Hlo'; by left).
           apply elem_of_cons in Hy as [->|[Hy|Hy]%elem_of_app].
           ++ destruct (lt lo lo') eqn:Hc; [|done].
              pose proof (lt_false_trans lt lt_trans lt_total _ _ _ Hstep Hc) as Hcontra.
              rewrite Hlo1' in Hcontra; [done|by left].
           ++ destruct (lt y lo') eqn:Hc; [|done].
              pose proof (lt_false_trans lt lt_trans lt_total _ _ _ Hstep Hc) as Hcontra.
              rewrite Hlo1' in Hcontra; [done|by right].
           ++ apply Hlo'. by right.
        -- apply elem_of_cons in Hhi as [->|Hhi]; [|set_solver].
           apply elem_of_cons in Hhi1 as [->|Hhi1]; set_solver.
        -- intros y Hy.
           assert (Hstep : lt hi' hi1 = false) by (apply Hhi'; by left).
           assert (Hle : ∀ z, lt hi1 z = false → lt hi' z = false).
           { intros z Hz. destruct (lt hi' z) eqn:Hc; [|done].
             destruct (lt z hi1) eqn:Hz'.
             - pose proof (lt_trans _ _ _ Hc Hz') as Hcontra. congruence.
             - rewrite (lt_total _ _ Hz Hz') in Hstep. congruence. }
           apply elem_of_cons in Hy as [->|[Hy|Hy]%elem_of_app].
           ++ apply Hle, Hhi1'. by left.
           ++ apply Hle, Hhi1'. by right.
           ++ apply Hhi'. by right.
Qed.

(** X28.  When the rows of the first mesh are pairwise distinct and none
    of them is a row of a later mesh, as it is for meshes created one by
    one by [load_file], [Model.get_bounding_box] returns the rows of the
    first mesh holding, for every axis, the least of the first mesh's
    minimum and of all the coordinates stored for this axis by the other
    meshes, and the greatest of its maximum and of these coordinates.  No
    row of another mesh is written. *)
Theorem model_bounding_box_aggregate (m0 : Mesh coord) (rest : list (Mesh coord)) st :
  NoDup (bounding_box m0) →
  (∀ l, l ∈ bounding_box m0 → ∃ lo hi, cells st !! l = Some [lo; hi]) →
  (∀ m, m ∈ rest →
        (length (bounding_box m0) ≤ length (bounding_box m))%nat
        ∧ ∀ l, l ∈ bounding_box m →
               l ∉ bounding_box m0 ∧ ∃ xs, cells st !! l = Some xs ∧ xs ≠ []) →
  ∃ st',
    Model.get_bounding_box lt (m0 :: rest) st = (Ok (bounding_box m0), st')
    ∧ (∀ l, l ∉ bounding_box m0 → cells st' !! l = cells st !! l)
    ∧ (∀ k row lo hi,
         bounding_box m0 !! k = Some row → cells st !! row = Some [lo; hi] →
         ∃ lo' hi',
           cells st' !! row = Some [lo'; hi']
           ∧ lo' ∈ lo :: axis_rows st k rest
           ∧ (∀ y, y ∈ lo :: axis_rows st k rest → lt y lo' = false)
           ∧ hi' ∈ hi :: axis_rows st k rest
           ∧ (∀ y, y ∈ hi :: axis_rows st k rest → lt hi' y = false)).
Proof.
  intros Hnodup Hrows Hrest.
  destruct (merge_meshes_ok (bounding_box m0) rest st)
    as (st' & Hrun & Hframe & Hmerged); try done.
  - intros k row Hrow. apply Hrows. by eapply list_elem_of_lookup_2.
  - intros m k Hm Hk. destruct (Hrest m Hm) as [Hlen Hm_rows].
    destruct (lookup_lt_is_Some_2 (bounding_box m) k) as [xr Hxr]; [lia|].
    destruct (Hm_rows xr) as (Hout & xs & Hxs & Hnonempty);
      [by eapply list_elem_of_lookup_2|].
    by exists xr, xs.
  - exists st'. split_and!; [|done|done].
    unfold Model.get_bounding_box.
    unfold mbind at 1. unfold M_bind at 1. unfold lift at 1.
    change (index (m0 :: rest) 0) with (Ok m0). cbv beta iota zeta.
    unfold mbind at 1. unfold M_bind at 1.
    change (slice_from_1 (m0 :: rest)) with rest. rewrite Hrun. reflexivity.
Qed.
End Aggregate.

Lemma model_bounding_box_two_meshes :
  ∃ st',
    Model.get_bounding_box Z.ltb two_meshes_data two_meshes_store
    = (Ok [0; 1; 2]%nat, st')
    ∧ mapM (deref st') [0; 1; 2]%nat = Ok [[0; 3]; [0; 3]; [0; 2]]
    ∧ mapM (deref st') [3; 4; 5]%nat = mapM (deref two_meshes_store) [3; 4; 5]%nat.
Proof.
  destruct (model_bounding_box_aggregate Z.ltb Z.ltb_irrefl
              (λ x y z Hxy Hyz, proj2 (Z.ltb_lt x z)
                 (Z.lt_trans x y z (proj1 (Z.ltb_lt x y) Hxy) (proj1 (Z.ltb_lt y z) Hyz)))
              (λ x y Hxy Hyx, Z.le_antisymm x y
                 (proj1 (Z.ltb_ge y x) Hyx) (proj1 (Z.ltb_ge x y) Hxy))
              (mkMesh [[0; 0; 0]; [1; 0; 0]; [0; 1; 0]] [[0; 1; 2]] [0; 1; 2]%nat)
              [mkMesh [[2; 2; 2]; [3; 2; 2]; [2; 3; 2]] [[0; 1; 2]] [3; 4; 5]%nat]
              two_meshes_store)
    as (st' & Hrun & _ & _).
  - apply (bool_decide_unpack (NoDup [0; 1; 2]%nat)). reflexivity.
  - intros l Hl. simpl in Hl.
    repeat (apply elem_of_cons in Hl as [->|Hl]; [eexists _, _; reflexivity|]).
    by apply elem_of_nil in Hl.
  - intros m ->%list_elem_of_singleton. split; [simpl; lia|].
    intros l Hl. simpl in Hl.
    repeat (apply elem_of_cons in Hl as [->|Hl];
            [split; [set_solver|eexists; split; [reflexivity|discriminate]]|]).
    by apply elem_of_nil in Hl.
  - exists st'. split; [exact Hrun|].
    assert (st' = (Model.get_bounding_box Z.ltb two_meshes_data two_meshes_store).2)
      as -> by (change two_meshes_data with
                  [mkMesh [[0; 0; 0]; [1; 0; 0]; [0; 1; 0]] [[0; 1; 2]] [0; 1; 2]%nat;
                   mkMesh [[2; 2; 2]; [3; 2; 2]; [2; 3; 2]] [[0; 1; 2]] [3; 4; 5]%nat];
                by rewrite Hrun).
    split; vm_compute; reflexivity.
Defined.

(** ** From an edit to the viewer *)

Section Pipeline.
Context {coord : Type} (lt : coord → coord → bool).
Context (read_mesh : pyval → outcome (list (list coord) * list (list Z))).
Context (view_plot : list (Mesh coord) → outcome unit).
Context (subprocess_run : list string → outcome Z).
Context (render_script : pyval → PurePath → outcome pyval).
Implicit Types (w : World coord) (c : Controller coord).

(** X29.  An edit of the followed [.scad] source, seen by the watcher
    later than [MINIMUM_RELOAD_TIME] after the last reload and with the
    lock free: the watcher runs the compiler once and leaves the path of
    [solidpython_temp.stl] in the mailbox; the next poll tick then reads
    that file, not the source, whether or not reading it succeeds, and
    runs no further command. *)
Theorem scad_edit_reaches_viewer w src now last status :
  let out := beside src "solidpython_temp.stl" in
  let w1 := (Controller.deliver subprocess_run render_script scad_handler
               (FileModifiedEvent src) now w).2 in
  let w2 := (in_controller (Controller.file_reloader lt read_mesh view_plot) w1).2 in
  observed_file (scad_state w) = Some (PStr src) →
  last_reload (scad_state w) = Some last →
  now - last > MINIMUM_RELOAD_TIME →
  name (parse src) ≠ "" →
  reload_lock (controller w) = false →
  subprocess_run ["openscad"; "-o"; str out; src] = Ok status →
  reload_file (controller w1) = Some (PPath out)
  ∧ loads (controller w1) = loads (controller w)
  ∧ loads (controller w2) = loads (controller w) ++ [PPath out]
  ∧ commands (controller w2)
    = commands (controller w) ++ [["openscad"; "-o"; str out; src]].
Proof.
  intros out w1 w2 Hfile Hlast Hlate Hname Hfree Hrun.
  destruct (on_modified_accepts scad_handler
              (Controller.ScadFileHandler.reload subprocess_run) src now last w
              Hfile Hlast Hlate) as (_ & Hctrl & _).
  rewrite (scad_reload_of_string subprocess_run (controller w) src status)
    in Hctrl by done.
  fold out in Hctrl. simpl in Hctrl.
  change (controller w1
          = set_reload_file (Some (PPath out))
              (log_command ["openscad"; "-o"; str out; src] (controller w)))
    in Hctrl.
  split_and!; [by rewrite Hctrl|by rewrite Hctrl|..].
  all: unfold w2, in_controller; rewrite Hctrl;
    rewrite (file_reloader_pending lt read_mesh view_plot _ (PPath out))
      by (try done; by destruct (controller w));
    destruct (Controller.load_file_in_viewer lt read_mesh view_plot (PPath out) _)
      as [res c'] eqn:Hload;
    apply load_file_in_viewer_frame in Hload
      as (_ & _ & _ & Hloads & _ & Hcommands);
    destruct res; simpl; rewrite ?Hloads, ?Hcommands; by destruct (controller w).
Qed.
End Pipeline.

Lemma scad_edit_reaches_viewer_example :
  let w := mkWorld (@initial_controller Z) new_handler new_handler
             (mkHandler (Some 0%nat) (Some (PStr "/a/m.scad")) (Some (mkPath "/" ["a"]))
                        (Some (mkWatch "/a" false)) (Some 0))
             [mkObserver [mkWatch "/a" false] Started]
             (Some scad_handler) 0%nat false in
  let w1 := (Controller.deliver openscad_exits_1 render_ok scad_handler
               (FileModifiedEvent "/a/m.scad") 2000000 w).2 in
  let w2 := (in_controller (Controller.file_reloader Z.ltb read_cube plot_ok) w1).2 in
  reload_file (controller w1)
    = Some (PPath (mkPath "/" ["a"; "solidpython_temp.stl"]))
  ∧ loads (controller w1) = []
  ∧ loads (controller w2) = [PPath (mkPath "/" ["a"; "solidpython_temp.stl"])]
  ∧ commands (controller w2)
    = [["openscad"; "-o"; "/a/solidpython_temp.stl"; "/a/m.scad"]].
Proof.
  intros w.
  apply (scad_edit_reaches_viewer Z.ltb read_cube plot_ok openscad_exits_1 render_ok
           w "/a/m.scad" 2000000 0 1).
  - reflexivity.
  - reflexivity.
  - unfold MINIMUM_RELOAD_TIME, UI_RELOAD_TIME. lia.
  - discriminate.
  - reflexivity.
  - reflexivity.
Defined.
